(** * Bark podcast generator and Audacity pipe controller

    A shallow embedding of [src/audacity_poadcast/audacity_controller.py]
    and [src/bark/run.py], with the properties of the specification that
    concern them.

    Conventions of the embedding:
    - Python exceptions are values of [exn]; a computation that may raise
      returns a [result]. State changes made before a [raise] persist,
      as in Python, so the state is returned next to the result.
    - The outside world (named pipes, the speech model, the random number
      generator, the wav codec, the silence detector) is an [Env] record
      of oracles indexed by a call counter kept in the [World].
    - Wall-clock time is an integer number of microseconds.
    - Floating-point numbers are rationals and their operations are exact;
      a property that the rounding of binary64 could change is stated with
      a margin that covers it. *)

From Stdlib Require Import ZArith QArith Qround Qreals Reals Psatz List String Ascii Bool.
From stdpp Require Import gmap strings.
Import ListNotations.

(** ** Python results and exceptions *)

Module Py.

Inductive exn_class :=
| RuntimeError | FileNotFoundError | KeyError | IndexError | ValueError | OSError
| ModelError.

(** [exn_msg] is what [str(exc)] prints. *)
Record exn := Exn { exn_cls : exn_class; exn_msg : string }.

Inductive result (A : Type) :=
| Ok (a : A)
| Raise (e : exn).
Arguments Ok {A} a.
Arguments Raise {A} e.

(** [str(x)] for [x] an exception or [None]. *)
Definition str_opt (e : option exn) : string :=
  match e with Some x => exn_msg x | None => "None" end.

(** The whitespace of ASCII, as [str.strip()] has it. *)
Definition is_space (c : ascii) : bool :=
  let n := nat_of_ascii c in
  Nat.eqb n 32 || (Nat.leb 9 n && Nat.leb n 13) || (Nat.leb 28 n && Nat.leb n 31).

Fixpoint lstrip (s : list ascii) : list ascii :=
  match s with
  | c :: s' => if is_space c then lstrip s' else s
  | [] => []
  end.

Definition strip (s : string) : string :=
  string_of_list_ascii
    (rev (lstrip (rev (lstrip (list_ascii_of_string s))))).

(** [bytes.decode(errors="ignore")]: the characters of the well-formed
    UTF-8 sequences among the bytes, in order, each as its sequence of
    bytes; a byte that begins no well-formed sequence is dropped. *)
Definition in_range (lo n hi : nat) : bool := Nat.leb lo n && Nat.leb n hi.

Definition is_continuation (n : nat) : bool := in_range 128 n 191.

Definition two_bytes (n0 n1 : nat) : bool :=
  in_range 194 n0 223 && is_continuation n1.

Definition three_bytes (n0 n1 n2 : nat) : bool :=
  ((Nat.eqb n0 224 && in_range 160 n1 191)
   || (in_range 225 n0 236 && is_continuation n1)
   || (Nat.eqb n0 237 && in_range 128 n1 159)
   || (in_range 238 n0 239 && is_continuation n1))
  && is_continuation n2.

Definition four_bytes (n0 n1 n2 n3 : nat) : bool :=
  ((Nat.eqb n0 240 && in_range 144 n1 191)
   || (in_range 241 n0 243 && is_continuation n1)
   || (Nat.eqb n0 244 && in_range 128 n1 143))
  && is_continuation n2 && is_continuation n3.

Fixpoint decode_ignore (s : list ascii) : list (list ascii) :=
  match s with
  | [] => []
  | b0 :: r0 =>
      let n0 := nat_of_ascii b0 in
      if Nat.ltb n0 128 then [b0] :: decode_ignore r0
      else
        match r0 with
        | [] => []
        | b1 :: r1 =>
            let n1 := nat_of_ascii b1 in
            if two_bytes n0 n1 then [b0; b1] :: decode_ignore r1
            else
              match r1 with
              | [] => decode_ignore r0
              | b2 :: r2 =>
                  let n2 := nat_of_ascii b2 in
                  if three_bytes n0 n1 n2 then [b0; b1; b2] :: decode_ignore r2
                  else
                    match r2 with
                    | [] => decode_ignore r0
                    | b3 :: r3 =>
                        if four_bytes n0 n1 n2 (nat_of_ascii b3)
                        then [b0; b1; b2; b3] :: decode_ignore r3
                        else decode_ignore r0
                    end
              end
        end
  end.

(** A character of a decoded string: one byte of ASCII, or the bytes of a
    longer sequence, none of which is a byte of ASCII. *)
Definition char_ok (c : list ascii) : Prop :=
  match c with
  | [] => False
  | [_] => True
  | _ => Forall (fun b => is_space b = false) c
  end.

(** The characters that [str.strip()] removes: those of ASCII, and
    U+0085, U+00A0, U+1680, U+2000 to U+200A, U+2028, U+2029, U+202F,
    U+205F and U+3000, in UTF-8. *)
Definition is_whitespace (c : list ascii) : bool :=
  match c with
  | [b] => is_space b
  | [b0; b1] =>
      Nat.eqb (nat_of_ascii b0) 194
      && (Nat.eqb (nat_of_ascii b1) 133 || Nat.eqb (nat_of_ascii b1) 160)
  | [b0; b1; b2] =>
      let n0 := nat_of_ascii b0 in
      let n1 := nat_of_ascii b1 in
      let n2 := nat_of_ascii b2 in
      (Nat.eqb n0 225 && Nat.eqb n1 154 && Nat.eqb n2 128)
      || (Nat.eqb n0 226 && Nat.eqb n1 128
          && (in_range 128 n2 138 || in_range 168 n2 169 || Nat.eqb n2 175))
      || (Nat.eqb n0 226 && Nat.eqb n1 129 && Nat.eqb n2 159)
      || (Nat.eqb n0 227 && Nat.eqb n1 128 && Nat.eqb n2 128)
  | _ => false
  end.

Fixpoint lstrip_chars (s : list (list ascii)) : list (list ascii) :=
  match s with
  | c :: s' => if is_whitespace c then lstrip_chars s' else s
  | [] => []
  end.

(** The characters that [decode_strip] keeps. *)
Definition kept_chars (buffer : string) : list (list ascii) :=
  rev (lstrip_chars (rev (lstrip_chars (decode_ignore (list_ascii_of_string buffer))))).

(** [buffer.decode(errors="ignore").strip()], the [str] kept in UTF-8. *)
Definition decode_strip (buffer : string) : string :=
  string_of_list_ascii (List.concat (kept_chars buffer)).

Definition newline : string := String (ascii_of_nat 10) EmptyString.

(** The double-quote character, as a string. *)
Definition dq : string := String (ascii_of_nat 34) EmptyString.

(** [sub in s] *)
Fixpoint contains (sub s : string) : bool :=
  String.prefix sub s ||
  match s with
  | EmptyString => false
  | String _ s' => contains sub s'
  end.

Definition lower_ascii (c : ascii) : ascii :=
  let n := nat_of_ascii c in
  if Nat.leb 65 n && Nat.leb n 90 then ascii_of_nat (n + 32) else c.

Fixpoint lower (s : string) : string :=
  match s with
  | EmptyString => EmptyString
  | String c s' => String (lower_ascii c) (lower s')
  end.

(** [repr(s)] for a [str]: in single quotes, or in double quotes when [s]
    holds a single quote and no double quote; the quote used and the
    backslash are escaped, and so are the control characters. Characters
    beyond ASCII are taken to be printable and left as they are. *)
Definition hex_digit (n : nat) : ascii :=
  if Nat.ltb n 10 then ascii_of_nat (48 + n) else ascii_of_nat (87 + n).

Definition has_char (c : ascii) (s : string) : bool :=
  existsb (Ascii.eqb c) (list_ascii_of_string s).

Definition repr_char (quote c : ascii) : string :=
  let n := nat_of_ascii c in
  if Ascii.eqb c quote || Nat.eqb n 92
  then String (ascii_of_nat 92) (String c EmptyString)
  else if Nat.eqb n 9 then String (ascii_of_nat 92) "t"
  else if Nat.eqb n 10 then String (ascii_of_nat 92) "n"
  else if Nat.eqb n 13 then String (ascii_of_nat 92) "r"
  else if Nat.ltb n 32 || Nat.eqb n 127
       then String (ascii_of_nat 92)
              (String "x" (String (hex_digit (n / 16))
                             (String (hex_digit (n mod 16)) EmptyString)))
  else String c EmptyString.

Definition repr (s : string) : string :=
  let quote :=
    if has_char (ascii_of_nat 39) s && negb (has_char (ascii_of_nat 34) s)
    then ascii_of_nat 34 else ascii_of_nat 39 in
  String quote
    (fold_right (fun c acc => append (repr_char quote c) acc)
       (String quote EmptyString) (list_ascii_of_string s)).

(** [str(e)] for the [FileNotFoundError] of a missing [path]. *)
Definition no_such_file (path : string) : string :=
  append "[Errno 2] No such file or directory: " (repr path).

End Py.
Export Py.

(** ** The Audacity controller: [audacity_controller.py] *)

Module Audacity.

Local Open Scope Z_scope.

Definition TO_PIPE : string := "\\.\pipe\ToSrvPipe".
Definition FR_PIPE : string := "\\.\pipe\FromSrvPipe".

(** What one attempt on the outbound pipe does: [CreateFile] or [WriteFile]
    raises, or the command is written and the handle closed. *)
Inductive to_outcome :=
| ToRaise (exc : exn)
| ToWritten.

(** What one attempt on the inbound pipe does: [CreateFile] or [ReadFile]
    raises, or [ReadFile] returns a chunk of at most 4096 bytes. *)
Inductive fr_outcome :=
| FrRaise
| FrPart (part : string).

Record Env := {
  to_pipe : nat -> to_outcome;   (* k-th attempt on ToSrvPipe *)
  to_cost : nat -> Z;            (* microseconds it takes *)
  fr_pipe : nat -> fr_outcome;   (* k-th attempt on FromSrvPipe *)
  fr_cost : nat -> Z;            (* microseconds it takes *)
  pipes_visible : nat -> bool;   (* k-th poll: both endpoints exist *)
  input_exists : bool            (* os.path.exists(inp) *)
}.

Inductive event :=
| Wrote (bytes : string)   (* bytes written to ToSrvPipe *)
| Slept (us : Z)           (* time.sleep *)
| Printed (line : string). (* print *)

Record World := {
  now : Z;        (* time.time(), in microseconds *)
  to_n : nat;     (* attempts made on ToSrvPipe *)
  fr_n : nat;     (* attempts made on FromSrvPipe *)
  polls : nat;    (* polls made by ensure_pipes *)
  out : list event
}.

Definition emit (e : event) (w : World) : World :=
  {| now := now w; to_n := to_n w; fr_n := fr_n w; polls := polls w;
     out := out w ++ [e] |}.

Definition elapse (us : Z) (w : World) : World :=
  {| now := now w + us; to_n := to_n w; fr_n := fr_n w; polls := polls w;
     out := out w |}.

Definition sleep (us : Z) (w : World) : World := emit (Slept us) (elapse us w).

Definition print (line : string) (w : World) : World := emit (Printed line) w.

Definition tick_to (E : Env) (w : World) : World :=
  {| now := now w + to_cost E (to_n w); to_n := S (to_n w); fr_n := fr_n w;
     polls := polls w; out := out w |}.

Definition tick_fr (E : Env) (w : World) : World :=
  {| now := now w + fr_cost E (fr_n w); to_n := to_n w; fr_n := S (fr_n w);
     polls := polls w; out := out w |}.

Definition tick_poll (w : World) : World :=
  {| now := now w; to_n := to_n w; fr_n := fr_n w; polls := S (polls w);
     out := out w |}.

(** *** [send] *)

(** The [for _ in range(5)] loop of [send], with [n] iterations left. *)
Fixpoint send_loop (E : Env) (n : nat) (cmd : string) (last_exc : option exn)
  (w : World) : result unit * World :=
  match n with
  | O =>
      (Raise (Exn RuntimeError
                ("❌ Unable to write to " +:+ TO_PIPE +:+ ": " +:+ str_opt last_exc)),
       w)
  | S n' =>
      match to_pipe E (to_n w) with
      | ToWritten =>
          (Ok tt,
           print ("[>] " +:+ cmd) (emit (Wrote (cmd +:+ newline)) (tick_to E w)))
      | ToRaise exc =>
          send_loop E n' cmd (Some exc) (sleep 200000 (tick_to E w))
      end
  end.

Definition send (E : Env) (cmd : string) (w : World) : result unit * World :=
  send_loop E 5 cmd None w.

(** *** [recv] *)

(** The [while time.time() - start < timeout] loop of [recv]. The loop has
    no bound of its own, so the model takes [fuel]; [None] means that the
    fuel ran out before the loop ended. *)
Fixpoint recv_loop (E : Env) (fuel : nat) (timeout start : Z) (buffer : string)
  (w : World) : option (string * World) :=
  match fuel with
  | O => None
  | S fuel' =>
      if now w - start <? timeout then
        match fr_pipe E (fr_n w) with
        | FrPart part =>
            let buffer' := buffer +:+ part in
            if contains newline part then
              let msg := decode_strip buffer' in
              Some (msg, print ("[<] " +:+ msg) (tick_fr E w))
            else recv_loop E fuel' timeout start buffer' (tick_fr E w)
        | FrRaise =>
            recv_loop E fuel' timeout start buffer (sleep 100000 (tick_fr E w))
        end
      else Some (EmptyString, print "[!] recv timed out." w)
  end.

Definition recv (E : Env) (fuel : nat) (timeout : Z) (w : World)
  : option (string * World) :=
  recv_loop E fuel timeout (now w) EmptyString w.

(** [recv()] with the default [timeout=5]. *)
Definition DEFAULT_TIMEOUT : Z := 5000000.

(** *** [ensure_pipes] *)

Fixpoint ensure_pipes_loop (E : Env) (n : nat) (w : World) : result unit * World :=
  match n with
  | O =>
      (Raise (Exn RuntimeError
                ("❌ Cannot find pipes. Make sure:" +:+ newline +:+
                 "  1) Audacity is running" +:+ newline +:+
                 "  2) mod-script-pipe is enabled" +:+ newline +:+
                 "  3) You restarted Audacity after enabling it")),
       w)
  | S n' =>
      if pipes_visible E (polls w) then
        (Ok tt, print "✅ Pipes are live." (tick_poll w))
      else ensure_pipes_loop E n' (sleep 300000 (tick_poll w))
  end.

Definition ensure_pipes (E : Env) (w : World) : result unit * World :=
  ensure_pipes_loop E 20 (print "[🔍] Waiting for Audacity pipes…" w).

(** *** [main] *)

Definition pipeline (inp out : string) : list string :=
  [ "Import2: Filename=" +:+ dq +:+ inp +:+ dq;
    "SelectAll:";
    "NoiseReduction: Action=GetProfile";
    "NoiseReduction: Action=Reduce NoiseLevel=9 Sensitivity=6 FrequencySmoothing=3 AttackTime=0.03 ReleaseTime=0.2";
    "FilterCurve: Filter=" +:+ dq +:+ "Low roll-off for speech" +:+ dq;
    "FilterCurve: Filter=" +:+ dq +:+ "Bass Boost" +:+ dq;
    "TruncateSilence: Threshold=-40dB Duration=0.5 Action=Truncate Silence=0.3";
    "Compressor: Threshold=-20 NoiseFloor=-40 Ratio=3:1 AttackTime=0.1 ReleaseTime=1 Normalize=True";
    "Limiter: LimitType=SoftLimit InputGain=0 Limit=-3 Hold=10";
    "LoudnessNormalization: TargetLUFS=-16";
    "Normalize: PeakLevel=-3";
    "Export2: Filename=" +:+ dq +:+ out +:+ dq ].

(** Computations of [main]: they may raise, and they may run out of the
    fuel given to [recv]. *)
Definition M (A : Type) : Type := World -> option (result A * World).

Definition ret {A} (a : A) : M A := fun w => Some (Ok a, w).

Definition raise {A} (e : exn) : M A := fun w => Some (Raise e, w).

Definition bind {A B} (c : M A) (k : A -> M B) : M B :=
  fun w =>
    match c w with
    | None => None
    | Some (Raise e, w') => Some (Raise e, w')
    | Some (Ok a, w') => k a w'
    end.

Notation "x <~ c ;; k" := (bind c (fun x => k))
  (at level 100, c at next level, right associativity).

Definition lift {A} (c : World -> result A * World) : M A :=
  fun w => Some (c w).

Definition act (f : World -> World) : M unit := fun w => Some (Ok tt, f w).

Definition recv_m (E : Env) (fuel : nat) (timeout : Z) : M string :=
  fun w =>
    match recv E fuel timeout w with
    | None => None
    | Some (msg, w') => Some (Ok msg, w')
    end.

(** The [for cmd in pipeline] loop of [main]. *)
Fixpoint run_pipeline (E : Env) (fuel : nat) (cmds : list string) : M unit :=
  match cmds with
  | [] => ret tt
  | cmd :: rest =>
      _ <~ lift (send E cmd) ;;
      _ <~ recv_m E fuel DEFAULT_TIMEOUT ;;
      _ <~ act (sleep 200000) ;;
      run_pipeline E fuel rest
  end.

(** [main], with [inp] and [out] the two absolute paths it computes. *)
Definition main (E : Env) (fuel : nat) (inp out : string) : M unit :=
  _ <~ lift (ensure_pipes E) ;;
  _ <~ act (print ("[📁] Input : " +:+ inp)) ;;
  _ <~ act (print ("[📁] Output: " +:+ out)) ;;
  _ <~ act (print ("[🧪] Exists?: " +:+ (if input_exists E then "True" else "False"))) ;;
  _ <~ (if input_exists E then ret tt
        else raise (Exn FileNotFoundError ("Input file not found: " +:+ inp))) ;;
  _ <~ act (print (newline +:+ "[🔁] Executing audio pipeline…" +:+ newline)) ;;
  _ <~ run_pipeline E fuel (pipeline inp out) ;;
  _ <~ act (print (newline +:+ "[🔍] Verifying import…")) ;;
  _ <~ lift (send E "GetInfo: Type=Tracks") ;;
  tracks <~ recv_m E fuel DEFAULT_TIMEOUT ;;
  _ <~ act (print (if contains (dq +:+ "name" +:+ dq) (lower tracks)
                   then "✅ Track loaded successfully."
                   else "❌ No track detected. Import may have failed.")) ;;
  act (print (newline +:+ "[🎉] Done! Check your output at:" +:+ newline +:+ out)).

(** The commands that went through the outbound pipe, oldest first. *)
Definition written (tr : list event) : list string :=
  flat_map (fun e => match e with Wrote b => [b] | _ => [] end) tr.

(** The time slept, oldest first. *)
Definition sleeps (tr : list event) : list Z :=
  flat_map (fun e => match e with Slept d => [d] | _ => [] end) tr.

(** *** The pipe test: [somthing.py] *)

(** The script of [somthing.py]: one attempt to write the probe command to
    the outbound pipe, and a line that says how it went. *)
Definition pipe_test (E : Env) (w : World) : World :=
  match to_pipe E (to_n w) with
  | ToWritten =>
      print "✅ Pipe test successful!"
        (emit (Wrote ("GetInfo: Type=Commands" +:+ newline)) (tick_to E w))
  | ToRaise exc =>
      print ("❌ Pipe test failed: " +:+ exn_msg exc) (tick_to E w)
  end.

(** *** What [recv] gathers *)

(** The chunks read by the [k] attempts on the inbound pipe from the
    [i]-th on, one after the other; an attempt that raises gives none. *)
Fixpoint chunks (E : Env) (i k : nat) : string :=
  match k with
  | O => EmptyString
  | S k' =>
      match fr_pipe E i with
      | FrPart part => part +:+ chunks E (S i) k'
      | FrRaise => chunks E (S i) k'
      end
  end.

(** The attempts from the [i]-th on, [k] of them, give no newline. *)
Definition no_newline_in (E : Env) (i k : nat) : Prop :=
  forall j part, (j < k)%nat -> fr_pipe E (i + j) = FrPart part ->
                 contains newline part = false.

(** The message of [ensure_pipes] when the pipes do not show up. *)
Definition pipes_missing : exn :=
  Exn RuntimeError
    ("❌ Cannot find pipes. Make sure:" +:+ newline +:+
     "  1) Audacity is running" +:+ newline +:+
     "  2) mod-script-pipe is enabled" +:+ newline +:+
     "  3) You restarted Audacity after enabling it").

(** *** Assumptions on the pipes *)

(** Every poll of the first twenty fails. *)
Definition pipes_never_show (E : Env) (w : World) : Prop :=
  forall j, (j < 20)%nat -> pipes_visible E (polls w + j) = false.


(** The exception of the [i]-th attempt on the outbound pipe, if it raised. *)
Definition raised_at (E : Env) (i : nat) : option exn :=
  match to_pipe E i with ToRaise exc => Some exc | ToWritten => None end.

Definition send_error (last_exc : option exn) : exn :=
  Exn RuntimeError ("❌ Unable to write to " +:+ TO_PIPE +:+ ": " +:+ str_opt last_exc).

(** Time passes: an attempt on the inbound pipe takes no negative time,
    and one that returns data takes at least a microsecond. *)
Definition fr_progress (E : Env) : Prop :=
  forall k,
    match fr_pipe E k with
    | FrRaise => 0 <= fr_cost E k
    | FrPart _ => 1 <= fr_cost E k
    end.

(** The inbound pipe never yields a chunk with a newline. *)
Definition never_newline (E : Env) : Prop :=
  forall k part, fr_pipe E k = FrPart part -> contains newline part = false.

(** One iteration of the loop of [recv] takes at most [D] microseconds. *)
Definition iteration_within (E : Env) (D : Z) : Prop :=
  forall k,
    match fr_pipe E k with
    | FrRaise => fr_cost E k + 100000 <= D
    | FrPart _ => fr_cost E k <= D
    end.

(** No five attempts in a row fail on the outbound pipe, so that every
    [send] gets through. *)
Definition sends_get_through (E : Env) : Prop :=
  forall i, exists j, (j < 5)%nat /\ to_pipe E (i + j) = ToWritten.

End Audacity.

(** ** [random.choices] with weights

    [random.choices(population, weights)] accumulates the weights, draws
    [random() * total] and bisects the cumulative weights. The algorithm is
    written once over the number type, and used with rationals in the
    executable model and with real numbers where the exact weight
    [x ** 1.5] is needed. *)

Section Choices.

Context {F : Type}.
Variable fzero : F.
Variable fadd fmul : F -> F -> F.
Variable fltb : F -> F -> bool.

(** [itertools.accumulate(weights)], after the first element. *)
Fixpoint accumulate_from (acc : F) (ws : list F) : list F :=
  match ws with
  | [] => []
  | x :: r => fadd acc x :: accumulate_from (fadd acc x) r
  end.

Definition accumulate (ws : list F) : list F :=
  match ws with
  | [] => []
  | x :: r => x :: accumulate_from x r
  end.

(** [bisect.bisect_right(a, x, 0, hi)] on a sorted [a]: the first index
    below [hi] whose entry is greater than [x], or [hi]. *)
Fixpoint bisect (a : list F) (x : F) (hi : nat) : nat :=
  match hi, a with
  | S hi', c :: a' => if fltb x c then O else S (bisect a' x hi')
  | _, _ => O
  end.

(** [total = cum_weights[-1]]; [None] when there is no weight. *)
Definition total_weight (ws : list F) : option F := last (accumulate ws).

(** The index chosen by [random.choices] when [random()] returns [u];
    [None] when it raises instead: [IndexError] without weights,
    [ValueError] when the total weight is not positive. *)
Definition choices_index (ws : list F) (u : F) : option nat :=
  match total_weight ws with
  | None => None
  | Some total =>
      if fltb fzero total
      then Some (bisect (accumulate ws) (fmul u total) (Nat.pred (List.length ws)))
      else None
  end.

(** The sum of the first [i] weights. *)
Fixpoint sum_first (i : nat) (ws : list F) : F :=
  match i, ws with
  | S i', x :: r => fadd x (sum_first i' r)
  | _, _ => fzero
  end.

End Choices.

(** ** The conversation generator: [bark/run.py] *)

Module Bark.

Local Open Scope Z_scope.

(** Audio as the script holds it: a numpy array of samples (24000 per
    second) out of the speech model and in wav files, and a pydub
    [AudioSegment], which is addressed in milliseconds: one list element
    per millisecond, [len] the length of the list, slices and [+] those of
    lists. *)
Definition ndarray : Type := list Z.
Definition AudioSegment : Type := list Z.

Definition len (a : AudioSegment) : Z := Z.of_nat (List.length a).

(** pydub turns a negative position into one counted from the end and
    clips a position beyond the end. *)
Definition parse_position (a : AudioSegment) (ms : Z) : nat :=
  Z.to_nat (if ms <? 0 then len a + ms else Z.min ms (len a)).

(** [a[:ms]] and [a[ms:]] *)
Definition seg_to (a : AudioSegment) (ms : Z) : AudioSegment :=
  firstn (parse_position a ms) a.
Definition seg_from (a : AudioSegment) (ms : Z) : AudioSegment :=
  skipn (parse_position a ms) a.

(** [AudioSegment.silent(duration=ms)] *)
Definition silent (ms : Z) : AudioSegment := repeat 0 (Z.to_nat ms).

(** [audio[:samples]] on a numpy array. *)
Definition array_to (audio : ndarray) (samples : Z) : ndarray :=
  if samples <? 0
  then firstn (Z.to_nat (Z.of_nat (List.length audio) + samples)) audio
  else firstn (Z.to_nat samples) audio.

(** [int(x)] on a float: truncation towards zero. *)
Definition Qint (x : Q) : Z :=
  if Qle_bool 0 x then Qfloor x else Qceiling x.

Definition Qltb (x y : Q) : bool := negb (Qle_bool y x).

(** *** Configuration *)

Definition VOICES : list (string * string) :=
  [ ("sandip", "voice_clone_of_sandip.npz");
    ("yash", "voice_clone_of_yash.npz") ].

Definition TEXT_TEMP : Q := 0.65.
Definition WAVEFORM_TEMP : Q := 0.65.

Record ScriptLine := { line_speaker : string; line_text : string }.

Definition BASE_SCRIPT : list ScriptLine :=
  [ {| line_speaker := "sandip"; line_text := "Hey Yash, I was reviewing our podcast analytics from last month" |};
    {| line_speaker := "yash"; line_text := "Yeah, what were the numbers looking like?" |};
    {| line_speaker := "sandip"; line_text := "We got about 15% more listens compared to the previous month" |};
    {| line_speaker := "yash"; line_text := "That's really encouraging growth actually" |};
    {| line_speaker := "sandip"; line_text := "Right? And the engagement metrics were particularly strong" |};
    {| line_speaker := "yash"; line_text := "Which episodes performed the best?" |};
    {| line_speaker := "sandip"; line_text := "The one about AI tools and the interview with the startup founder" |};
    {| line_speaker := "yash"; line_text := "Makes sense, those were really in-depth discussions" |};
    {| line_speaker := "sandip"; line_text := "Exactly, listeners seem to prefer our longer format content" |};
    {| line_speaker := "yash"; line_text := "We should plan more of those then" |};
    {| line_speaker := "sandip"; line_text := "Definitely, I was thinking we could do a series" |};
    {| line_speaker := "yash"; line_text := "That's a great idea, maybe three parts?" |};
    {| line_speaker := "sandip"; line_text := "Yeah, we could cover different aspects each week" |};
    {| line_speaker := "yash"; line_text := "Should we start planning the topics?" |};
    {| line_speaker := "sandip"; line_text := "Let's schedule a brainstorming session for tomorrow" |};
    {| line_speaker := "yash"; line_text := "Perfect, I'll bring some research to the meeting" |} ].

Record Filler := {
  f_text : string;
  f_duration_range : Q * Q;
  f_speaker : string;
  f_type : string
}.

Definition FILLERS : list Filler :=
  [ {| f_text := "hmm"; f_duration_range := (0.3, 0.6)%Q; f_speaker := "any"; f_type := "acknowledgment" |};
    {| f_text := "yeah"; f_duration_range := (0.4, 0.7)%Q; f_speaker := "any"; f_type := "acknowledgment" |};
    {| f_text := "right"; f_duration_range := (0.4, 0.6)%Q; f_speaker := "any"; f_type := "acknowledgment" |};
    {| f_text := "yes"; f_duration_range := (0.4, 0.6)%Q; f_speaker := "any"; f_type := "acknowledgment" |};
    {| f_text := "aha"; f_duration_range := (0.3, 0.5)%Q; f_speaker := "any"; f_type := "acknowledgment" |};
    {| f_text := "mm-hmm"; f_duration_range := (0.4, 0.7)%Q; f_speaker := "any"; f_type := "acknowledgment" |};
    {| f_text := "got it"; f_duration_range := (0.5, 0.8)%Q; f_speaker := "any"; f_type := "acknowledgment" |};
    {| f_text := "I see"; f_duration_range := (0.6, 0.9)%Q; f_speaker := "any"; f_type := "acknowledgment" |};
    {| f_text := "that's true"; f_duration_range := (0.8, 1.0)%Q; f_speaker := "any"; f_type := "agreement" |};
    {| f_text := "exactly"; f_duration_range := (0.6, 0.9)%Q; f_speaker := "any"; f_type := "agreement" |} ].

Definition ACKNOWLEDGMENT_PROBABILITY : Q := 0.8.
Definition MIN_SILENCE_FOR_FILLER : Z := 300.
Definition PAUSE_BETWEEN_LINES : Z := 500.
Definition FILLER_VOLUME_REDUCTION : Z := -8.

(** *** The world of the script *)

Record Env := {
  (* bark.generate_audio(text, history_prompt), k-th call *)
  generate_audio : nat -> string -> string -> result ndarray;
  (* the k-th variate of the random generator; its fractional part is used *)
  rand : nat -> Q;
  (* scipy write_wav, k-th call: the error it raises, if any *)
  write_wav_error : nat -> string -> option exn;
  (* what a k-th call that raises leaves in the file: scipy opens the file
     for writing, which empties it, before it writes; [None] when the file
     could not be opened *)
  write_wav_leaves : nat -> string -> ndarray -> option ndarray;
  (* os.makedirs(name, exist_ok=True): the error it raises, if any *)
  makedirs_error : option exn;
  (* pydub decoding the content of a wav file *)
  decode_wav : ndarray -> result AudioSegment;
  (* pydub silence.detect_silence(audio, min_silence_len, silence_thresh, seek_step) *)
  detect_silence : AudioSegment -> Z -> Z -> Z -> list (Z * Z);
  (* AudioSegment + dB *)
  apply_gain : Z -> AudioSegment -> AudioSegment;
  (* float x ** 1.5 *)
  pow15 : Z -> Q;
  (* AudioSegment.normalize() *)
  normalize : AudioSegment -> AudioSegment;
  (* what [+] makes of the segment of AudioSegment.silent, which is at
     11025 Hz: pydub converts it to the frame rate of the conversation *)
  sync_silence : AudioSegment -> AudioSegment;
  (* the format specification .2f *)
  format_2f : Q -> string
}.

Inductive event :=
| Synth (text voice : string)     (* generate_audio was called *)
| WroteWav (filename : string)    (* write_wav wrote the file *)
| Removed (filename : string)     (* os.remove *)
| MakeDirs (name : string)        (* os.makedirs(name, exist_ok=True) *)
| LogInfo (msg : string)
| LogError (msg : string).

Record World := {
  rand_n : nat;                 (* variates drawn *)
  gen_n : nat;                  (* calls of generate_audio *)
  wr_n : nat;                   (* calls of write_wav *)
  fs : gmap string ndarray;     (* wav files on disk *)
  log : list event
}.

(** The registry of filler clips: a dict, in insertion order, from
    (text, speaker) to (path, type, duration). *)
Definition registry : Type := list ((string * string) * (string * string * Q)).

(** Computations of the script: they may raise, and they change the world. *)
Definition M (A : Type) : Type := World -> result A * World.

Definition ret {A} (a : A) : M A := fun w => (Ok a, w).

Definition raise {A} (e : exn) : M A := fun w => (Raise e, w).

Definition bind {A B} (c : M A) (k : A -> M B) : M B :=
  fun w =>
    match c w with
    | (Ok a, w') => k a w'
    | (Raise e, w') => (Raise e, w')
    end.

Notation "x <~ c ;; k" := (bind c (fun x => k))
  (at level 100, c at next level, right associativity).

(** [try: c  except Exception as e: h e] *)
Definition try_except {A} (c : M A) (h : exn -> M A) : M A :=
  fun w =>
    match c w with
    | (Ok a, w') => (Ok a, w')
    | (Raise e, w') => h e w'
    end.

Definition emit (e : event) : M unit :=
  fun w => (Ok tt, {| rand_n := rand_n w; gen_n := gen_n w; wr_n := wr_n w;
                      fs := fs w; log := log w ++ [e] |}).

Definition logger_info (msg : string) : M unit := emit (LogInfo msg).
Definition logger_error (msg : string) : M unit := emit (LogError msg).

(** [random.random()]: a variate in [0, 1). *)
Definition random (E : Env) : M Q :=
  fun w =>
    let x := rand E (rand_n w) in
    (Ok (x - inject_Z (Qfloor x))%Q,
     {| rand_n := S (rand_n w); gen_n := gen_n w; wr_n := wr_n w;
        fs := fs w; log := log w |}).

(** [random.uniform(a, b)]: [a + (b - a) * random()], taken exactly. In
    binary64 the result is rounded and can be [b] itself. *)
Definition uniform (E : Env) (a b : Q) : M Q :=
  u <~ random E ;; ret (a + (b - a) * u)%Q.

(** An integer below [n], from one variate. CPython draws it from random
    bits instead; what is meant is the range of the result. *)
Definition randbelow (E : Env) (n : Z) : M Z :=
  u <~ random E ;; ret (Qfloor (u * inject_Z n)).

(** [random.randint(a, b)] *)
Definition randint (E : Env) (a b : Z) : M Z :=
  k <~ randbelow E (b - a + 1) ;; ret (a + k).

(** [random.choice(seq)] *)
Definition choice {A} (E : Env) (seq : list A) : M A :=
  match seq with
  | [] => raise (Exn IndexError "Cannot choose from an empty sequence")
  | _ =>
      k <~ randbelow E (Z.of_nat (List.length seq)) ;;
      match nth_error seq (Z.to_nat k) with
      | Some x => ret x
      | None => raise (Exn IndexError "list index out of range")
      end
  end.

(** [random.choices(population, weights=weights)[0]]; the total weight is
    checked before the variate is drawn. At its only call [weights] has the
    length of [population]. *)
Definition choices {A} (E : Env) (population : list A) (weights : list Q) : M A :=
  match total_weight Qplus weights with
  | None => raise (Exn IndexError "list index out of range")
  | Some total =>
      if Qltb 0 total then
        u <~ random E ;;
        match nth_error population
                (bisect Qltb (accumulate Qplus weights) (u * total)%Q
                   (Nat.pred (List.length population))) with
        | Some x => ret x
        | None => raise (Exn IndexError "list index out of range")
        end
      else raise (Exn ValueError "Total of weights must be greater than zero")
  end.

(** [VOICES[speaker]] *)
Fixpoint dict_get {V} (d : list (string * V)) (k : string) : M V :=
  match d with
  | [] => raise (Exn KeyError (repr k))
  | (k', v) :: d' => if String.eqb k k' then ret v else dict_get d' k
  end.

Definition call_generate_audio (E : Env) (text voice : string) : M ndarray :=
  fun w =>
    (generate_audio E (gen_n w) text voice,
     {| rand_n := rand_n w; gen_n := S (gen_n w); wr_n := wr_n w;
        fs := fs w; log := log w ++ [Synth text voice] |}).

(** [write_wav(filename, 24000, audio)] *)
Definition write_wav (E : Env) (filename : string) (audio : ndarray) : M unit :=
  fun w =>
    match write_wav_error E (wr_n w) filename with
    | Some e =>
        (Raise e,
         {| rand_n := rand_n w; gen_n := gen_n w; wr_n := S (wr_n w);
            fs := match write_wav_leaves E (wr_n w) filename audio with
                  | Some partial => <[filename := partial]> (fs w)
                  | None => fs w
                  end;
            log := log w |})
    | None =>
        (Ok tt,
         {| rand_n := rand_n w; gen_n := gen_n w; wr_n := S (wr_n w);
            fs := <[filename := audio]> (fs w);
            log := log w ++ [WroteWav filename] |})
    end.

(** [AudioSegment.from_wav(path)] *)
Definition from_wav (E : Env) (path : string) : M AudioSegment :=
  fun w =>
    match fs w !! path with
    | None => (Raise (Exn FileNotFoundError (no_such_file path)), w)
    | Some content => (decode_wav E content, w)
    end.

(** [os.remove(path)] *)
Definition os_remove (path : string) : M unit :=
  fun w =>
    match fs w !! path with
    | None => (Raise (Exn FileNotFoundError (no_such_file path)), w)
    | Some _ =>
        (Ok tt,
         {| rand_n := rand_n w; gen_n := gen_n w; wr_n := wr_n w;
            fs := delete path (fs w); log := log w ++ [Removed path] |})
    end.

(** *** Audio generation *)

Definition generate_audio_clip (E : Env) (text speaker : string)
  (duration : option Q) : M ndarray :=
  try_except
    (voice <~ dict_get VOICES speaker ;;
     audio <~ call_generate_audio E text voice ;;
     ret (match duration with
          | Some d =>
              if Qeq_bool d 0 then audio
              else array_to audio (Qint (d * 24000))
          | None => audio
          end))
    (fun e =>
       _ <~ logger_error ("Failed to generate '" +:+ text +:+ "' by " +:+ speaker
                          +:+ ": " +:+ exn_msg e) ;;
       raise e).

(** [key in filler_clips] *)
Definition key_eqb (k1 k2 : string * string) : bool :=
  String.eqb (fst k1) (fst k2) && String.eqb (snd k1) (snd k2).

Definition has_key (clips : registry) (key : string * string) : bool :=
  existsb (fun kv => key_eqb key (fst kv)) clips.

(** [filler_clips[key] = value] *)
Fixpoint dict_set (clips : registry) (key : string * string)
  (value : string * string * Q) : registry :=
  match clips with
  | [] => [(key, value)]
  | (k, v) :: rest =>
      if key_eqb key k then (k, value) :: rest
      else (k, v) :: dict_set rest key value
  end.

(** [text.replace(' ', '')] *)
Fixpoint remove_spaces (s : string) : string :=
  match s with
  | EmptyString => EmptyString
  | String c s' =>
      if Ascii.eqb c " "%char then remove_spaces s'
      else String c (remove_spaces s')
  end.

Definition filler_filename (speaker text : string) : string :=
  "fillers/" +:+ speaker +:+ remove_spaces text +:+ ".wav".

(** A [for] loop whose body cannot raise, carrying the loop state [S]. *)
Fixpoint for_each {A S} (xs : list A) (body : A -> S -> World -> S * World)
  (s : S) (w : World) : S * World :=
  match xs with
  | [] => (s, w)
  | x :: rest => let '(s', w') := body x s w in for_each rest body s' w'
  end.

(** The body of the inner loop of [ensure_filler_clips]: the [try] block
    and its handler. [None] stands for [continue] without a new clip. *)
Definition filler_try (E : Env) (filler : Filler) (speaker : string)
  (filler_clips : registry) : M (option (string * string * Q)) :=
  try_except
    (duration <~ uniform E (fst (f_duration_range filler))
                           (snd (f_duration_range filler)) ;;
     let key := (f_text filler, speaker) in
     if has_key filler_clips key then ret None
     else
       _ <~ logger_info ("Creating " +:+ format_2f E duration +:+ "s '"
                         +:+ f_text filler +:+ "' by " +:+ speaker) ;;
       audio <~ generate_audio_clip E (f_text filler) speaker (Some duration) ;;
       let filename := filler_filename speaker (f_text filler) in
       _ <~ write_wav E filename audio ;;
       ret (Some (filename, f_type filler, duration)))
    (fun e =>
       _ <~ logger_error ("Failed to create filler: " +:+ exn_msg e) ;;
       ret None).

Definition filler_step (E : Env) (filler : Filler) (speaker : string)
  (filler_clips : registry) (w : World) : registry * World :=
  match filler_try E filler speaker filler_clips w with
  | (Ok (Some value), w') =>
      (dict_set filler_clips (f_text filler, speaker) value, w')
  | (_, w') => (filler_clips, w')
  end.

Definition speakers_of (filler : Filler) : list string :=
  if String.eqb (f_speaker filler) "any" then map fst VOICES
  else [f_speaker filler].

Definition ensure_filler_clips (E : Env) (w : World) : registry * World :=
  let '(_, w1) := logger_info (newline +:+ "Generating filler clips...") w in
  let '(_, w2) := emit (MakeDirs "fillers") w1 in
  for_each FILLERS
    (fun filler => for_each (speakers_of filler) (filler_step E filler))
    [] w2.

(** *** Listener responses *)

Definition find_conversation_pauses (E : Env) (audio : AudioSegment) : list (Z * Z) :=
  detect_silence E audio MIN_SILENCE_FOR_FILLER (-40) 50.

Definition other_speaker_of (main_speaker : string) : string :=
  if String.eqb main_speaker "sandip" then "yash" else "sandip".

(** The condition of the comprehension that filters the pauses; the
    products by 0.1 and 0.9 are taken exactly. *)
Definition is_suitable (main_audio : AudioSegment) (p : Z * Z) : bool :=
  Qltb (inject_Z (len main_audio) * 0.1) (inject_Z (fst p))
  && Qltb (inject_Z (snd p)) (inject_Z (len main_audio) * 0.9)
  && (MIN_SILENCE_FOR_FILLER <? snd p - fst p).

Definition suitable_pauses_of (main_audio : AudioSegment) (pauses : list (Z * Z))
  : list (Z * Z) :=
  List.filter (is_suitable main_audio) pauses.

Definition pause_weights (E : Env) (pauses : list (Z * Z)) : list Q :=
  map (fun p => pow15 E (snd p - fst p)) pauses.

Definition available_fillers_of (other_speaker : string) (filler_clips : registry)
  : list (string * Q) :=
  flat_map
    (fun kv =>
       let '((text, spkr), (path, typ, dur)) := kv in
       if String.eqb spkr other_speaker && String.eqb typ "acknowledgment"
       then [(path, dur)] else [])
    filler_clips.

Definition is_nil {A} (l : list A) : bool :=
  match l with [] => true | _ => false end.

(** The first part of [add_listener_responses], up to [random.choice]:
    [None] when it returns [main_audio] early, or the pause selected and
    the path and duration of the filler chosen. *)
Definition select_pause_and_filler (E : Env) (main_audio : AudioSegment)
  (main_speaker : string) (filler_clips : registry)
  : M (option ((Z * Z) * string * Q)) :=
  let other_speaker := other_speaker_of main_speaker in
  let pauses := find_conversation_pauses E main_audio in
  skip <~ (if is_nil pauses then ret true
           else u <~ random E ;; ret (Qltb ACKNOWLEDGMENT_PROBABILITY u)) ;;
  if skip : bool then ret None
  else
    let suitable_pauses := suitable_pauses_of main_audio pauses in
    if is_nil suitable_pauses then ret None
    else
      pause <~ choices E suitable_pauses (pause_weights E suitable_pauses) ;;
      let available_fillers := available_fillers_of other_speaker filler_clips in
      if is_nil available_fillers then ret None
      else
        chosen <~ choice E available_fillers ;;
        ret (Some (pause, fst chosen, snd chosen)).

Definition filler_ms_of (filler_duration : Q) : Z := Qint (filler_duration * 1000).

Definition insert_pos_of (pause : Z * Z) (filler_ms : Z) : Z :=
  fst pause + Z.div (snd pause - fst pause - filler_ms) 2.

(** [main_audio[:insert_pos] + filler + main_audio[insert_pos:]] *)
Definition splice (main_audio : AudioSegment) (insert_pos : Z)
  (filler : AudioSegment) : AudioSegment :=
  seg_to main_audio insert_pos ++ filler ++ seg_from main_audio insert_pos.

(** [AudioSegment.from_wav(filler_path) + FILLER_VOLUME_REDUCTION] *)
Definition load_filler (E : Env) (filler_path : string) : M AudioSegment :=
  loaded <~ from_wav E filler_path ;;
  ret (apply_gain E FILLER_VOLUME_REDUCTION loaded).

Definition add_listener_responses (E : Env) (main_audio : AudioSegment)
  (main_speaker : string) (filler_clips : registry) : M AudioSegment :=
  selection <~ select_pause_and_filler E main_audio main_speaker filler_clips ;;
  match selection with
  | None => ret main_audio
  | Some (pause, filler_path, filler_duration) =>
      let filler_ms := filler_ms_of filler_duration in
      if snd pause - fst pause <? filler_ms + 200 then ret main_audio
      else
        try_except
          (filler <~ load_filler E filler_path ;;
           let insert_pos := insert_pos_of pause filler_ms in
           ret (splice main_audio insert_pos filler))
          (fun e =>
             _ <~ logger_error ("Failed to insert filler: " +:+ exn_msg e) ;;
             ret main_audio)
  end.

(** *** The conversation *)

Definition line_eqb (a b : ScriptLine) : bool :=
  String.eqb (line_speaker a) (line_speaker b)
  && String.eqb (line_text a) (line_text b).

(** [line != BASE_SCRIPT[-1]] *)
Definition not_last_line (line : ScriptLine) : bool :=
  match last BASE_SCRIPT with
  | Some l => negb (line_eqb line l)
  | None => true
  end.

(** The [try] block of [generate_conversation] for one line; it returns
    the conversation with the line appended. *)
Definition line_try (E : Env) (filler_clips : registry) (line : ScriptLine)
  (conversation : AudioSegment) : M AudioSegment :=
  _ <~ logger_info ("Processing: " +:+ line_speaker line +:+ " - '"
                    +:+ line_text line +:+ "'") ;;
  audio_array <~ generate_audio_clip E (line_text line) (line_speaker line) None ;;
  let temp_wav := "temp_line.wav" in
  _ <~ write_wav E temp_wav audio_array ;;
  line_audio <~ from_wav E temp_wav ;;
  _ <~ os_remove temp_wav ;;
  enhanced_audio <~ add_listener_responses E line_audio (line_speaker line)
                      filler_clips ;;
  let conversation := conversation ++ enhanced_audio in
  if not_last_line line then
    jitter <~ randint E (-100) 200 ;;
    ret (conversation ++ sync_silence E (silent (PAUSE_BETWEEN_LINES + jitter)))
  else ret conversation.

Definition line_step (E : Env) (filler_clips : registry) (line : ScriptLine)
  (conversation : AudioSegment) (w : World) : AudioSegment * World :=
  match line_try E filler_clips line conversation w with
  | (Ok conversation', w') => (conversation', w')
  | (Raise e, w') =>
      let '(_, w'') := logger_error ("Failed to process line: " +:+ exn_msg e) w' in
      (conversation, w'')
  end.

Definition generate_conversation (E : Env) (filler_clips : registry) (w : World)
  : AudioSegment * World :=
  let '(_, w1) := logger_info (newline +:+ "Building conversation...") w in
  for_each BASE_SCRIPT (line_step E filler_clips) (silent 0) w1.

(** The script run as a program: fillers, conversation, normalization;
    the export is left to the caller. *)
Definition run (E : Env) (w : World) : AudioSegment * World :=
  let '(fillers, w1) := ensure_filler_clips E w in
  let '(podcast, w2) := generate_conversation E fillers w1 in
  (normalize E podcast, w2).




(** The events of one kind in a log, oldest first. *)
Definition synth_calls (tr : list event) : list (string * string) :=
  flat_map (fun e => match e with Synth t v => [(t, v)] | _ => [] end) tr.

Definition wav_writes (tr : list event) : list string :=
  flat_map (fun e => match e with WroteWav f => [f] | _ => [] end) tr.

Definition errors (tr : list event) : list string :=
  flat_map (fun e => match e with LogError m => [m] | _ => [] end) tr.

(** The number of fillers given up: the errors logged by the handler of
    [ensure_filler_clips]. *)
Definition failed_fillers (tr : list event) : nat :=
  List.length (List.filter (String.prefix "Failed to create filler: ") (errors tr)).

(** The calls of the speech model that a run of [ensure_filler_clips]
    makes: every filler text in every voice. *)
Definition filler_requests : list (string * string) :=
  flat_map (fun filler => map (fun v => (f_text filler, snd v)) VOICES) FILLERS.

(** The pairs of a filler and a speaker, in the order of the two loops of
    [ensure_filler_clips]. *)
Definition jobs_of (fillers : list Filler) : list (Filler * string) :=
  flat_map (fun filler => map (fun s => (filler, s)) (speakers_of filler)) fillers.

Definition job_key (j : Filler * string) : string * string := (f_text (fst j), snd j).

(** [VOICES.get(speaker)] *)
Definition voice_of (speaker : string) : option string :=
  snd <$> find (fun kv => String.eqb speaker (fst kv)) VOICES.

(** The calls of the speech model that [generate_conversation] makes. *)
Definition line_request (line : ScriptLine) : string * string :=
  (line_text line,
   match voice_of (line_speaker line) with Some v => v | None => EmptyString end).

Definition line_requests : list (string * string) := map line_request BASE_SCRIPT.

(** A pause in the central 80% of the segment and of filler-worthy length. *)
Definition central_and_long (main_audio : AudioSegment) (p : Z * Z) : Prop :=
  (0.1 * inject_Z (len main_audio) <= inject_Z (fst p))%Q /\
  (inject_Z (snd p) <= 0.9 * inject_Z (len main_audio))%Q /\
  MIN_SILENCE_FOR_FILLER <= snd p - fst p.

(** The file of an acknowledgment is never the file of an agreement. *)
Definition distinct_files : bool :=
  List.forallb
    (fun j =>
       negb (String.eqb (f_type (fst j)) "acknowledgment") ||
       List.forallb
         (fun j' =>
            negb (String.eqb (f_type (fst j')) "agreement") ||
            negb (String.eqb (filler_filename (snd j) (f_text (fst j)))
                    (filler_filename (snd j') (f_text (fst j')))))
         (jobs_of FILLERS))
    (jobs_of FILLERS).

(** A computation that does not call the speech model. *)
Definition quiet {A} (c : M A) : Prop :=
  forall w, synth_calls (log (snd (c w))) = synth_calls (log w).

Definition job_request (j : Filler * string) : string * string :=
  (f_text (fst j), match voice_of (snd j) with Some v => v | None => EmptyString end).

Definition clip_path (kv : (string * string) * (string * string * Q)) : string :=
  fst (fst (snd kv)).

Definition clip_type (kv : (string * string) * (string * string * Q)) : string :=
  snd (fst (snd kv)).

(** A registry entry made for one of the [jobs], with its file on [disk]. *)
Definition clip_ok (jobs : list (Filler * string)) (disk : gmap string ndarray)
  (kv : (string * string) * (string * string * Q)) : Prop :=
  exists j,
    In j jobs /\ fst kv = job_key j /\
    clip_path kv = filler_filename (snd j) (f_text (fst j)) /\
    clip_type kv = f_type (fst j) /\
    is_Some (disk !! clip_path kv).

(** The state of [ensure_filler_clips] after the jobs [done], started in
    the world [w0]. *)
Definition filler_inv (w0 : World) (done : list (Filler * string))
  (clips : registry) (w : World) : Prop :=
  synth_calls (log w) = synth_calls (log w0) ++ map job_request done /\
  wav_writes (log w) = wav_writes (log w0) ++ map clip_path clips /\
  (failed_fillers (log w) + List.length clips
   = failed_fillers (log w0) + List.length done)%nat /\
  NoDup (map fst clips) /\
  Forall (clip_ok done (fs w)) clips.


(** *** More on the registry *)

Definition clip_duration (kv : (string * string) * (string * string * Q)) : Q :=
  snd (snd kv).

(** The duration of a clip lies in the range of a filler of its text, ends
    included, and its file on [disk] holds that duration of samples at
    most, to within one sample: the bounds that hold of the rounded
    floating-point computation as well as of the exact one. *)
Definition clip_within (fillers : list Filler) (disk : gmap string ndarray)
  (kv : (string * string) * (string * string * Q)) : Prop :=
  (exists f, In f fillers /\ f_text f = fst (fst kv) /\
             (fst (f_duration_range f) <= clip_duration kv)%Q /\
             (clip_duration kv <= snd (f_duration_range f))%Q) /\
  exists content,
    disk !! clip_path kv = Some content /\
    (inject_Z (Z.of_nat (List.length content)) < clip_duration kv * 24000 + 1)%Q.

(** Two jobs with the same file have the same key, and every range of
    durations is a proper range of positive numbers. *)
Definition jobs_well_formed (jobs : list (Filler * string)) : bool :=
  List.forallb
    (fun j =>
       Qltb 0 (fst (f_duration_range (fst j)))
       && Qltb (fst (f_duration_range (fst j))) (snd (f_duration_range (fst j)))
       && List.forallb
            (fun j' =>
               negb (String.eqb (filler_filename (snd j) (f_text (fst j)))
                       (filler_filename (snd j') (f_text (fst j'))))
               || key_eqb (job_key j) (job_key j'))
            jobs)
    jobs.

(** The world after [n] more variates were drawn. *)
Definition advance (n : nat) (w : World) : World :=
  {| rand_n := rand_n w + n; gen_n := gen_n w; wr_n := wr_n w;
     fs := fs w; log := log w |}.

(** A computation that changes no file but [temp_line.wav]. *)
Definition keeps_files {A} (c : M A) : Prop :=
  forall w path, path <> "temp_line.wav" -> fs (snd (c w)) !! path = fs w !! path.

End Bark.

(** ** Pause selection with exact weights

    [random.choices] on the suitable pauses with the weights
    [(p[1] - p[0]) ** 1.5] as real numbers, [u] being the value of
    [random()]. *)

Module Exact.

Definition Rltb (x y : R) : bool := if Rlt_dec x y then true else false.

Definition weight (p : Z * Z) : R := Rpower (IZR (snd p - fst p)) 1.5.

Definition weights (suitable_pauses : list (Z * Z)) : list R :=
  map weight suitable_pauses.

Definition choose_pause (suitable_pauses : list (Z * Z)) (u : R) : option (Z * Z) :=
  match choices_index 0%R Rplus Rmult Rltb (weights suitable_pauses) u with
  | Some i => nth_error suitable_pauses i
  | None => None
  end.

(** The total weight, and the share of the first [i] pauses in it. *)
Definition total (suitable_pauses : list (Z * Z)) : R :=
  sum_first 0%R Rplus (List.length suitable_pauses) (weights suitable_pauses).

Definition share_before (suitable_pauses : list (Z * Z)) (i : nat) : R :=
  (sum_first 0%R Rplus i (weights suitable_pauses) / total suitable_pauses)%R.

(** *** The script against the exact weights *)

(** The variate that the [k]-th call of [random.random()] returns. *)
Definition variate (E : Bark.Env) (k : nat) : Q :=
  (Bark.rand E k - inject_Z (Qfloor (Bark.rand E k)))%Q.

(** The index that [random.choices] picks among the pauses, with the
    weights that the script computes, when [random()] returns [u]. *)
Definition chosen_index (E : Bark.Env) (suitable_pauses : list (Z * Z)) (u : Q)
  : option nat :=
  choices_index 0%Q Qplus Qmult Bark.Qltb (Bark.pause_weights E suitable_pauses) u.

(** The weights that the script computes, their total, and the share of
    the first [i] pauses in it. *)
Definition float_weights (E : Bark.Env) (suitable_pauses : list (Z * Z)) : list R :=
  map Q2R (Bark.pause_weights E suitable_pauses).

Definition float_total (E : Bark.Env) (suitable_pauses : list (Z * Z)) : R :=
  sum_first 0%R Rplus (List.length suitable_pauses) (float_weights E suitable_pauses).

Definition float_share_before (E : Bark.Env) (suitable_pauses : list (Z * Z))
  (i : nat) : R :=
  (sum_first 0%R Rplus i (float_weights E suitable_pauses)
   / float_total E suitable_pauses)%R.

(** The margin left at the ends of a share for the rounding of the sums
    and of the product in [random.choices]: with 1000 weights at most, the
    53-bit sums and the product are within 2^-42 of the exact ones,
    relative to the total. *)
Definition rounding_margin : R := (/ 2 ^ 40)%R.

(** The floating-point power [x ** 1.5] is within the relative error
    [eps] of the real power, at the lengths of the pauses. *)
Definition pow15_within (E : Bark.Env) (eps : R) (suitable_pauses : list (Z * Z))
  : Prop :=
  forall q, In q suitable_pauses ->
    (Rabs (Q2R (Bark.pow15 E (snd q - fst q)) - weight q) <= eps * weight q)%R.

End Exact.

(** ** Scenarios *)

Module PipeScenario.

Import Audacity.
Local Open Scope Z_scope.

Definition w0 : World :=
  {| now := 0; to_n := 0; fr_n := 0; polls := 0; out := [] |}.

Definition pipe_busy : exn :=
  Exn OSError "(231, 'CreateFile', 'All pipe instances are busy.')".

(** The outbound pipe refuses the first [n] attempts; Audacity answers
    every command at once. *)
Definition env_refusing (n : nat) : Env :=
  {| to_pipe := fun k => if Nat.ltb k n then ToRaise pipe_busy else ToWritten;
     to_cost := fun _ => 1000;
     fr_pipe := fun _ => FrPart ("BatchCommand finished: OK" +:+ newline);
     fr_cost := fun _ => 1000;
     pipes_visible := fun _ => true;
     input_exists := true |}.

(** Audacity takes the commands and never answers: the inbound pipe cannot
    be opened. *)
Definition env_silent : Env :=
  {| to_pipe := fun _ => ToWritten;
     to_cost := fun _ => 0;
     fr_pipe := fun _ => FrRaise;
     fr_cost := fun _ => 0;
     pipes_visible := fun _ => true;
     input_exists := true |}.

(** The pipes show up at the poll [n]; the outbound pipe takes every
    command and Audacity answers [reply] to each. *)
Definition env_late (n : nat) (reply : string) : Env :=
  {| to_pipe := fun _ => ToWritten;
     to_cost := fun _ => 1000;
     fr_pipe := fun _ => FrPart (reply +:+ newline);
     fr_cost := fun _ => 1000;
     pipes_visible := fun k => Nat.leb n k;
     input_exists := true |}.

(** The same, where the input file is missing. *)
Definition env_no_input : Env :=
  {| to_pipe := fun _ => ToWritten;
     to_cost := fun _ => 1000;
     fr_pipe := fun _ => FrPart ("BatchCommand finished: OK" +:+ newline);
     fr_cost := fun _ => 1000;
     pipes_visible := fun _ => true;
     input_exists := false |}.

(** Audacity answers in three reads: two chunks without a newline, then
    the end of the line; the second attempt fails. *)
Definition env_chunked : Env :=
  {| to_pipe := fun _ => ToWritten;
     to_cost := fun _ => 1000;
     fr_pipe := fun k =>
       match k with
       | O => FrPart "  Batch"
       | 1%nat => FrRaise
       | 2%nat => FrPart "Command finished: "
       | _ => FrPart ("OK " +:+ newline)
       end;
     fr_cost := fun _ => 1000;
     pipes_visible := fun _ => true;
     input_exists := true |}.

(** Audacity answers with a no-break space before [OK], then a byte that
    is no UTF-8 and a next-line character, U+0085, before the newline. *)
Definition env_latin : Env :=
  {| to_pipe := fun _ => ToWritten;
     to_cost := fun _ => 1000;
     fr_pipe := fun _ =>
       FrPart (string_of_list_ascii
                 (map ascii_of_nat [194; 160; 79; 75; 255; 194; 133; 10]%nat));
     fr_cost := fun _ => 1000;
     pipes_visible := fun _ => true;
     input_exists := true |}.

End PipeScenario.

Module BarkScenario.

Import Bark.
Local Open Scope Z_scope.

Definition w0 : World :=
  {| rand_n := 0; gen_n := 0; wr_n := 0; fs := ∅; log := [] |}.

(** A studio where everything works: the [k]-th call of the speech model
    returns one second of audio of level [k], every variate is 1/2, and
    silence is detected from 150 ms to 850 ms in any segment of a second
    or more. *)
Definition studio : Env :=
  {| generate_audio := fun k _ _ => Ok (repeat (Z.of_nat k) (Z.to_nat 24000));
     rand := fun _ => (1 # 2)%Q;
     write_wav_error := fun _ _ => None;
     write_wav_leaves := fun _ _ _ => None;
     makedirs_error := None;
     decode_wav := fun content => Ok (firstn (List.length content / 24) content);
     detect_silence := fun audio _ _ _ =>
       if 1000 <=? len audio then [(150, 850)] else [];
     apply_gain := fun db audio => map (fun x => Z.div (x * 2) 5) audio;
     pow15 := fun x => inject_Z (x * Z.sqrt x);
     normalize := fun audio => audio;
     sync_silence := fun gap => gap;
     format_2f := fun _ => "0.45" |}.

Definition out_of_memory : exn := Exn ModelError "CUDA out of memory".

(** The same studio, where the speech model fails at its calls 3 and 21
    and the disk is full at the sixth write. *)
Definition flaky_studio : Env :=
  {| generate_audio := fun k _ _ =>
       if Nat.eqb k 3 || Nat.eqb k 21 then Raise out_of_memory
       else Ok (repeat (Z.of_nat k) (Z.to_nat 24000));
     rand := rand studio;
     write_wav_error := fun k _ =>
       if Nat.eqb k 5 then Some (Exn OSError "No space left on device") else None;
     write_wav_leaves := write_wav_leaves studio;
     makedirs_error := makedirs_error studio;
     decode_wav := decode_wav studio;
     detect_silence := detect_silence studio;
     apply_gain := apply_gain studio;
     pow15 := pow15 studio;
     normalize := normalize studio;
     sync_silence := sync_silence studio;
     format_2f := format_2f studio |}.

(** A line of one second, a small registry, and the file of the listener's
    acknowledgment on disk. *)
Definition one_second : AudioSegment := repeat 5 (Z.to_nat 1000).

Definition aha_clips : registry :=
  [ (("aha", "yash"), ("fillers/yashaha.wav", "acknowledgment", 0.4%Q));
    (("exactly", "yash"), ("fillers/yashexactly.wav", "agreement", 0.4%Q));
    (("aha", "sandip"), ("fillers/sandipaha.wav", "acknowledgment", 0.4%Q)) ].

Definition aha_disk : World :=
  {| rand_n := 0; gen_n := 0; wr_n := 0;
     fs := <["fillers/yashaha.wav" := repeat 10 (Z.to_nat 9600)]> ∅;
     log := [] |}.

(** The studio where the speech model fails at every call. *)
Definition dead_studio : Env :=
  {| generate_audio := fun _ _ _ => Raise out_of_memory;
     rand := rand studio;
     write_wav_error := write_wav_error studio;
     write_wav_leaves := write_wav_leaves studio;
     makedirs_error := makedirs_error studio;
     decode_wav := decode_wav studio;
     detect_silence := detect_silence studio;
     apply_gain := apply_gain studio;
     pow15 := pow15 studio;
     normalize := normalize studio;
     sync_silence := sync_silence studio;
     format_2f := format_2f studio |}.

(** The first line of the script. *)
Definition first_line : ScriptLine :=
  {| line_speaker := "sandip";
     line_text := "Hey Yash, I was reviewing our podcast analytics from last month" |}.

(** The studio with a full disk: every write opens its file, which
    empties it, and fails. *)
Definition full_disk : Env :=
  {| generate_audio := generate_audio studio;
     rand := rand studio;
     write_wav_error := fun _ _ => Some (Exn OSError "[Errno 28] No space left on device");
     write_wav_leaves := fun _ _ _ => Some [];
     makedirs_error := makedirs_error studio;
     decode_wav := decode_wav studio;
     detect_silence := detect_silence studio;
     apply_gain := apply_gain studio;
     pow15 := pow15 studio;
     normalize := normalize studio;
     sync_silence := sync_silence studio;
     format_2f := format_2f studio |}.


(** A studio where two pauses are detected, of 400 ms and of 900 ms, and
    every variate is 1/5; three seconds of audio, in which both pauses are
    suitable. *)
Definition two_pauses : Env :=
  {| generate_audio := generate_audio studio;
     rand := fun _ => (1 # 5)%Q;
     write_wav_error := write_wav_error studio;
     write_wav_leaves := write_wav_leaves studio;
     makedirs_error := makedirs_error studio;
     decode_wav := decode_wav studio;
     detect_silence := fun _ _ _ _ => [(400, 800); (1000, 1900)];
     apply_gain := apply_gain studio;
     pow15 := pow15 studio;
     normalize := normalize studio;
     sync_silence := sync_silence studio;
     format_2f := format_2f studio |}.

Definition three_seconds : AudioSegment := repeat 5 (Z.to_nat 3000).

End BarkScenario.

(** ** Properties of the Audacity controller *)

Module AudacityProps.

Import Audacity.
Local Open Scope Z_scope.

Lemma written_app (a b : list event) : written (a ++ b) = written a ++ written b.
Proof. unfold written. apply flat_map_app. Qed.

Lemma sleeps_app (a b : list event) : sleeps (a ++ b) = sleeps a ++ sleeps b.
Proof. unfold sleeps. apply flat_map_app. Qed.

Lemma repeat_snoc {A} (x : A) (n : nat) : x :: repeat x n = repeat x n ++ [x].
Proof. induction n as [|n IH]; simpl; [reflexivity | now rewrite <- IH]. Qed.

(** [send_loop] with [n] attempts left: it fails [k] times, then either
    writes the command or has used up its attempts. *)
Lemma send_loop_spec (E : Env) (cmd : string) (n : nat) :
  forall (last_exc : option exn) (w : World),
  exists k : nat,
    (k <= n)%nat /\
    (forall j, (j < k)%nat -> raised_at E (to_n w + j) <> None) /\
    let r := send_loop E n cmd last_exc w in
    to_n (snd r) = (to_n w + Nat.min (S k) n)%nat /\
    fr_n (snd r) = fr_n w /\
    sleeps (out (snd r)) = sleeps (out w) ++ repeat 200000 k /\
    ((k < n)%nat ->
       to_pipe E (to_n w + k) = ToWritten /\
       fst r = Ok tt /\
       written (out (snd r)) = written (out w) ++ [cmd +:+ newline]) /\
    (k = n ->
       fst r = Raise (send_error
                        (match n with
                         | O => last_exc
                         | S m => raised_at E (to_n w + m)
                         end)) /\
       written (out (snd r)) = written (out w)).
Proof.
  induction n as [|n IH]; intros last_exc w.
  - exists O. simpl. split; [lia|]. split; [intros j Hj; lia|].
    split; [lia|]. split; [reflexivity|]. split; [now rewrite app_nil_r|].
    split; [intros Hlt; lia|]. intros _. split; reflexivity.
  - simpl. destruct (to_pipe E (to_n w)) as [exc|] eqn:Hw.
    + destruct (IH (Some exc) (sleep 200000 (tick_to E w))) as
        (k & Hk & Hfail & Hn & Hfr & Hsl & Hok & Hraise).
      cbn [sleep emit elapse tick_to to_n fr_n out] in *.
      exists (S k). split; [lia|]. split.
      { intros j Hj. destruct j as [|j].
        - rewrite Nat.add_0_r. unfold raised_at. now rewrite Hw.
        - replace (to_n w + S j)%nat with (S (to_n w) + j)%nat by lia.
          apply Hfail. lia. }
      cbn zeta in *. split; [rewrite Hn; lia|]. split; [exact Hfr|]. split.
      { rewrite Hsl, sleeps_app. simpl. rewrite <- app_assoc. simpl.
        now rewrite repeat_snoc. }
      split.
      { intros Hlt. destruct Hok as (H1 & H2 & H3); [lia|].
        replace (to_n w + S k)%nat with (S (to_n w) + k)%nat by lia.
        rewrite H3, written_app. simpl. now rewrite app_nil_r. }
      { intros Heq. destruct Hraise as (H1 & H2); [lia|]. split.
        - rewrite H1. destruct n as [|m].
          + rewrite Nat.add_0_r. unfold raised_at. now rewrite Hw.
          + now replace (S (to_n w) + m)%nat with (to_n w + S m)%nat by lia.
        - rewrite H2, written_app. simpl. now rewrite app_nil_r. }
    + exists O. split; [lia|]. split; [intros j Hj; lia|].
      cbn [print emit tick_to to_n fr_n out fst snd]. cbn zeta.
      cbn [print emit tick_to to_n fr_n out fst snd].
      split; [destruct n; simpl; lia|]. split; [reflexivity|]. split.
      { rewrite !sleeps_app. simpl. now rewrite !app_nil_r. }
      split.
      { intros _. rewrite Nat.add_0_r. split; [exact Hw|]. split; [reflexivity|].
        rewrite !written_app. simpl. now rewrite app_nil_r. }
      { intros Heq. discriminate. }
Qed.

(** C3: [send] makes at most 5 attempts on the outbound pipe and sleeps
    0.2 s after each failed one. With [k] the number of failed attempts
    before the first successful one (5 when there is none): if [k < 5] the
    command and a newline are written once and [send] returns; if all 5
    attempts fail, [send] raises a [RuntimeError] whose message carries
    the error of the last attempt. *)
Theorem send_retries (E : Env) (cmd : string) (w : World) :
  exists k : nat,
    (k <= 5)%nat /\
    (forall j, (j < k)%nat -> exists exc, to_pipe E (to_n w + j) = ToRaise exc) /\
    to_n (snd (send E cmd w)) = (to_n w + Nat.min (S k) 5)%nat /\
    sleeps (out (snd (send E cmd w))) = sleeps (out w) ++ repeat 200000 k /\
    ((k < 5)%nat ->
       to_pipe E (to_n w + k) = ToWritten /\
       fst (send E cmd w) = Ok tt /\
       written (out (snd (send E cmd w))) = written (out w) ++ [cmd +:+ newline]) /\
    (k = 5%nat ->
       exists exc,
         to_pipe E (to_n w + 4) = ToRaise exc /\
         fst (send E cmd w) =
           Raise (Exn RuntimeError
                    ("❌ Unable to write to " +:+ TO_PIPE +:+ ": " +:+ exn_msg exc)) /\
         written (out (snd (send E cmd w))) = written (out w)).
Proof.
  destruct (send_loop_spec E cmd 5 None w) as
    (k & Hk & Hfail & Hn & _ & Hsl & Hok & Hraise).
  cbn zeta in *. fold (send E cmd w) in *.
  exists k. split; [exact Hk|]. split.
  { intros j Hj. specialize (Hfail j Hj). unfold raised_at in Hfail.
    destruct (to_pipe E (to_n w + j)) as [exc|]; [now exists exc | congruence]. }
  split; [exact Hn|]. split; [exact Hsl|]. split; [exact Hok|].
  intros Heq. destruct (Hraise Heq) as [Hr Hw].
  assert (H4 : raised_at E (to_n w + 4) <> None) by (apply Hfail; lia).
  unfold raised_at in *.
  destruct (to_pipe E (to_n w + 4)) as [exc|]; [|congruence].
  exists exc. split; [reflexivity|]. split; [exact Hr | exact Hw].
Qed.

(** The outbound pipe refuses two attempts and takes the third. *)
Lemma send_retries_witness :
  exists k : nat,
    (k <= 5)%nat /\
    (forall j, (j < k)%nat ->
       exists exc, to_pipe (PipeScenario.env_refusing 2) (to_n PipeScenario.w0 + j) = ToRaise exc) /\
    to_n (snd (send (PipeScenario.env_refusing 2) "SelectAll:" PipeScenario.w0))
      = (to_n PipeScenario.w0 + Nat.min (S k) 5)%nat /\
    sleeps (out (snd (send (PipeScenario.env_refusing 2) "SelectAll:" PipeScenario.w0)))
      = sleeps (out PipeScenario.w0) ++ repeat 200000 k /\
    ((k < 5)%nat ->
       to_pipe (PipeScenario.env_refusing 2) (to_n PipeScenario.w0 + k) = ToWritten /\
       fst (send (PipeScenario.env_refusing 2) "SelectAll:" PipeScenario.w0) = Ok tt /\
       written (out (snd (send (PipeScenario.env_refusing 2) "SelectAll:" PipeScenario.w0)))
         = written (out PipeScenario.w0) ++ ["SelectAll:" +:+ newline]) /\
    (k = 5%nat ->
       exists exc,
         to_pipe (PipeScenario.env_refusing 2) (to_n PipeScenario.w0 + 4) = ToRaise exc /\
         fst (send (PipeScenario.env_refusing 2) "SelectAll:" PipeScenario.w0) =
           Raise (Exn RuntimeError
                    ("❌ Unable to write to " +:+ TO_PIPE +:+ ": " +:+ exn_msg exc)) /\
         written (out (snd (send (PipeScenario.env_refusing 2) "SelectAll:" PipeScenario.w0)))
           = written (out PipeScenario.w0)).
Proof. exact (send_retries (PipeScenario.env_refusing 2) "SelectAll:" PipeScenario.w0). Defined.

Example send_third_attempt :
  send (PipeScenario.env_refusing 2) "SelectAll:" PipeScenario.w0 =
  (Ok tt,
   {| now := 403000; to_n := 3; fr_n := 0; polls := 0;
      out := [Slept 200000; Slept 200000; Wrote ("SelectAll:" +:+ newline);
              Printed "[>] SelectAll:"] |}).
Proof. reflexivity. Qed.

Example send_gives_up :
  fst (send (PipeScenario.env_refusing 7) "SelectAll:" PipeScenario.w0) =
  Raise (Exn RuntimeError
           ("❌ Unable to write to " +:+ TO_PIPE +:+ ": " +:+ exn_msg PipeScenario.pipe_busy))
  /\ to_n (snd (send (PipeScenario.env_refusing 7) "SelectAll:" PipeScenario.w0)) = 5%nat.
Proof. split; reflexivity. Qed.

(** *** [recv] *)

Lemma recv_loop_returns (E : Env) (timeout start : Z) :
  fr_progress E ->
  forall (fuel : nat) (buffer : string) (w : World),
    (Z.to_nat (timeout - (now w - start)) < fuel)%nat ->
    exists msg w',
      recv_loop E fuel timeout start buffer w = Some (msg, w') /\
      to_n w' = to_n w /\
      written (out w') = written (out w).
Proof.
  intros Hprog. induction fuel as [|fuel IH]; intros buffer w Hfuel; [lia|].
  simpl. destruct (Z.ltb_spec (now w - start) timeout) as [Hlt|Hge].
  - pose proof (Hprog (fr_n w)) as Hc.
    destruct (fr_pipe E (fr_n w)) as [|part].
    + destruct (IH buffer (sleep 100000 (tick_fr E w))) as (msg & w' & Hr & Hn & Hw).
      { cbn [sleep emit elapse tick_fr now]. lia. }
      exists msg, w'. split; [exact Hr|]. split; [exact Hn|].
      rewrite Hw. cbn [sleep emit elapse tick_fr out]. rewrite written_app.
      simpl. now rewrite app_nil_r.
    + destruct (contains newline part).
      * eexists _, _. split; [reflexivity|]. split; [reflexivity|].
        cbn [print emit tick_fr out]. rewrite written_app. simpl.
        now rewrite app_nil_r.
      * destruct (IH (buffer +:+ part) (tick_fr E w)) as (msg & w' & Hr & Hn & Hw).
        { cbn [tick_fr now]. lia. }
        exists msg, w'. split; [exact Hr|]. split; [exact Hn | exact Hw].
  - eexists _, _. split; [reflexivity|]. split; [reflexivity|].
    cbn [print emit out]. rewrite written_app. simpl. now rewrite app_nil_r.
Qed.

Lemma recv_loop_silent (E : Env) (timeout start : Z) :
  never_newline E ->
  forall (fuel : nat) (buffer : string) (w : World) msg w',
    recv_loop E fuel timeout start buffer w = Some (msg, w') ->
    msg = EmptyString /\ timeout <= now w' - start /\
    (now w - start >= timeout -> now w' = now w).
Proof.
  intros Hnn. induction fuel as [|fuel IH]; intros buffer w msg w' Hr; [discriminate|].
  simpl in Hr. destruct (Z.ltb_spec (now w - start) timeout) as [Hlt|Hge].
  - destruct (fr_pipe E (fr_n w)) as [|part] eqn:Hp.
    + destruct (IH _ _ _ _ Hr) as (H1 & H2 & _). repeat split; auto; lia.
    + rewrite (Hnn _ _ Hp) in Hr.
      destruct (IH _ _ _ _ Hr) as (H1 & H2 & _). repeat split; auto; lia.
  - injection Hr as <- <-. cbn [print emit now]. repeat split; auto; lia.
Qed.

Lemma recv_loop_overshoot (E : Env) (timeout start D : Z) :
  iteration_within E D ->
  forall (fuel : nat) (buffer : string) (w : World) msg w',
    recv_loop E fuel timeout start buffer w = Some (msg, w') ->
    now w - start < timeout + D ->
    now w' - start < timeout + D.
Proof.
  intros HD. induction fuel as [|fuel IH]; intros buffer w msg w' Hr Hw; [discriminate|].
  simpl in Hr. destruct (Z.ltb_spec (now w - start) timeout) as [Hlt|Hge].
  - pose proof (HD (fr_n w)) as Hc.
    destruct (fr_pipe E (fr_n w)) as [|part].
    + apply (IH _ _ _ _ Hr). cbn [sleep emit elapse tick_fr now]. lia.
    + destruct (contains newline part).
      * injection Hr as <- <-. cbn [print emit tick_fr now]. lia.
      * apply (IH _ _ _ _ Hr). cbn [tick_fr now]. lia.
  - injection Hr as <- <-. cbn [print emit now]. exact Hw.
Qed.

(** C4, amended: when the inbound pipe never yields a chunk with a
    newline, [recv] returns the empty string and does not raise. It returns
    once the time elapsed has reached the timeout, not before: the time
    elapsed at the return is at least [timeout] (none when [timeout] is not
    positive) and less than [timeout] plus the duration of one iteration
    of its loop. *)
Theorem recv_empty_once_timeout_elapsed (E : Env) (timeout : Z) (w : World)
  (fuel : nat) :
  never_newline E -> fr_progress E -> (Z.to_nat timeout < fuel)%nat ->
  exists w',
    recv E fuel timeout w = Some (EmptyString, w') /\
    timeout <= now w' - now w /\
    (timeout <= 0 -> now w' = now w) /\
    (forall D, 0 < timeout -> iteration_within E D -> now w' - now w < timeout + D).
Proof.
  intros Hnn Hprog Hfuel. unfold recv.
  destruct (recv_loop_returns E timeout (now w) Hprog fuel EmptyString w)
    as (msg & w' & Hr & _); [lia|].
  destruct (recv_loop_silent E timeout (now w) Hnn _ _ _ _ _ Hr) as (-> & Hge & Hsame).
  exists w'. split; [exact Hr|]. split; [exact Hge|]. split.
  - intros Hle. apply Hsame. lia.
  - intros D Hpos HD.
    apply (recv_loop_overshoot E timeout (now w) D HD _ _ _ _ _ Hr).
    pose proof (HD O) as H0. pose proof (Hprog O) as H1.
    destruct (fr_pipe E 0); lia.
Qed.

Lemma env_silent_never_newline : never_newline PipeScenario.env_silent.
Proof. intros k part H. discriminate H. Qed.

Lemma env_silent_progress : fr_progress PipeScenario.env_silent.
Proof. intros k. simpl. lia. Qed.

Lemma recv_empty_once_timeout_elapsed_witness :
  exists w',
    recv PipeScenario.env_silent (S (Z.to_nat 250000)) 250000 PipeScenario.w0
      = Some (EmptyString, w') /\
    250000 <= now w' - now PipeScenario.w0 /\
    (250000 <= 0 -> now w' = now PipeScenario.w0) /\
    (forall D, 0 < 250000 -> iteration_within PipeScenario.env_silent D ->
               now w' - now PipeScenario.w0 < 250000 + D).
Proof.
  apply (recv_empty_once_timeout_elapsed PipeScenario.env_silent 250000 PipeScenario.w0).
  - exact env_silent_never_newline.
  - exact env_silent_progress.
  - lia.
Defined.

(** C4 as stated fails: with a timeout of 0.25 s and an inbound pipe that
    cannot be opened, [recv] sleeps three times 0.1 s and returns the empty
    string 0.3 s after the call, later than the timeout. *)
Lemma recv_returns_later_than_timeout :
  exists w',
    recv PipeScenario.env_silent 4 250000 PipeScenario.w0 = Some (EmptyString, w') /\
    now w' - now PipeScenario.w0 = 300000 /\
    ~ now w' - now PipeScenario.w0 <= 250000.
Proof.
  eexists. split; [reflexivity|]. split; [reflexivity|]. simpl. lia.
Qed.

(** *** The loop of [main] *)

Lemma run_pipeline_app (E : Env) (fuel : nat) (a b : list string) (w : World) :
  run_pipeline E fuel (a ++ b) w =
  bind (run_pipeline E fuel a) (fun _ => run_pipeline E fuel b) w.
Proof.
  revert w. induction a as [|cmd a IH]; intros w; [reflexivity|].
  simpl. unfold bind, lift, recv_m, act in *.
  destruct (send E cmd w) as [[[]|e] w1]; [|reflexivity].
  destruct (recv E fuel DEFAULT_TIMEOUT w1) as [[msg w2]|]; [|reflexivity].
  apply IH.
Qed.

Lemma send_gets_through (E : Env) (cmd : string) (w : World) :
  sends_get_through E ->
  fst (send E cmd w) = Ok tt /\
  written (out (snd (send E cmd w))) = written (out w) ++ [cmd +:+ newline].
Proof.
  intros Hthrough. destruct (send_loop_spec E cmd 5 None w) as
    (k & Hk & Hfail & _ & _ & _ & Hok & _).
  cbn zeta in *. fold (send E cmd w) in *.
  destruct (Nat.eq_dec k 5%nat) as [->|Hne].
  - destruct (Hthrough (to_n w)) as (j & Hj & Hw).
    specialize (Hfail j Hj). unfold raised_at in Hfail. rewrite Hw in Hfail.
    congruence.
  - destruct Hok as (_ & H1 & H2); [lia|]. now split.
Qed.

Lemma send_raise_writes_nothing (E : Env) (cmd : string) (w w' : World) (e : exn) :
  send E cmd w = (Raise e, w') -> written (out w') = written (out w).
Proof.
  intros Hs. destruct (send_loop_spec E cmd 5 None w) as
    (k & Hk & _ & _ & _ & _ & Hok & Hraise).
  cbn zeta in *. fold (send E cmd w) in *.
  rewrite Hs in *. cbn [fst snd] in *.
  destruct (Nat.eq_dec k 5%nat) as [->|Hne].
  - destruct Hraise as (_ & H); [reflexivity | exact H].
  - destruct Hok as (_ & H & _); [lia | discriminate H].
Qed.

Lemma run_pipeline_all_sent (E : Env) (fuel : nat) :
  fr_progress E -> (Z.to_nat DEFAULT_TIMEOUT < fuel)%nat -> sends_get_through E ->
  forall (cmds : list string) (w : World),
  exists w',
    run_pipeline E fuel cmds w = Some (Ok tt, w') /\
    written (out w') = written (out w) ++ map (fun c => c +:+ newline) cmds.
Proof.
  intros Hprog Hfuel Hthrough. induction cmds as [|cmd cmds IH]; intros w.
  - exists w. split; [reflexivity|]. simpl. now rewrite app_nil_r.
  - simpl. unfold bind at 1. unfold lift.
    destruct (send_gets_through E cmd w Hthrough) as [Hok Hwr].
    destruct (send E cmd w) as [r w1]. cbn [fst snd] in *. subst r.
    unfold bind at 1. unfold recv_m, recv.
    destruct (recv_loop_returns E DEFAULT_TIMEOUT (now w1) Hprog fuel EmptyString w1)
      as (msg & w2 & Hr & _ & Hwr2); [lia|].
    rewrite Hr. unfold bind at 1. unfold act.
    destruct (IH (sleep 200000 w2)) as (w' & Hrun & Hwr').
    exists w'. split; [exact Hrun|].
    rewrite Hwr'. cbn [sleep emit elapse out]. rewrite written_app. simpl.
    rewrite app_nil_r, Hwr2, Hwr, <- app_assoc. reflexivity.
Qed.

(** C1, amended: in the loop of [main] over the command list, a step that
    is not acknowledged does not stop the later steps: when every [send]
    gets through within its 5 attempts, every command of the list is
    written, in order, whatever [recv] returns, the empty result of a
    timeout included. A [send] that uses up its retries raises, the loop
    ends with that error, and no later command is written. *)
Theorem pipeline_goes_on_unless_send_raises (E : Env) (fuel : nat) :
  fr_progress E -> (Z.to_nat DEFAULT_TIMEOUT < fuel)%nat ->
  (sends_get_through E ->
   forall (cmds : list string) (w : World),
   exists w',
     run_pipeline E fuel cmds w = Some (Ok tt, w') /\
     written (out w') = written (out w) ++ map (fun c => c +:+ newline) cmds)
  /\
  (forall (sent : list string) (cmd : string) (rest : list string)
          (w w1 w2 : World) (e : exn),
   run_pipeline E fuel sent w = Some (Ok tt, w1) ->
   send E cmd w1 = (Raise e, w2) ->
   run_pipeline E fuel (sent ++ cmd :: rest) w = Some (Raise e, w2) /\
   written (out w2) = written (out w1)).
Proof.
  intros Hprog Hfuel. split.
  - intros Hthrough. apply run_pipeline_all_sent; assumption.
  - intros sent cmd rest w w1 w2 e Hrun Hsend. split.
    + rewrite run_pipeline_app. unfold bind at 1. rewrite Hrun.
      simpl. unfold bind at 1. unfold lift. now rewrite Hsend.
    + apply (send_raise_writes_nothing E cmd w1 w2 e Hsend).
Qed.

Lemma env_silent_sends : sends_get_through PipeScenario.env_silent.
Proof. intros i. exists O. split; [lia | reflexivity]. Qed.

(** Audacity takes the commands and acknowledges none. *)
Lemma pipeline_goes_on_unless_send_raises_witness :
  exists w',
    run_pipeline PipeScenario.env_silent (S (Z.to_nat DEFAULT_TIMEOUT))
      (pipeline "in.wav" "out.wav") PipeScenario.w0 = Some (Ok tt, w') /\
    written (out w') =
    written (out PipeScenario.w0)
    ++ map (fun c => c +:+ newline) (pipeline "in.wav" "out.wav").
Proof.
  refine (proj1 (pipeline_goes_on_unless_send_raises PipeScenario.env_silent
                   (S (Z.to_nat DEFAULT_TIMEOUT)) env_silent_progress _)
            env_silent_sends (pipeline "in.wav" "out.wav") PipeScenario.w0).
  lia.
Defined.

(** Audacity never answers: every [recv] times out after 50 attempts, and
    the twelve commands are written all the same. *)
Example unacknowledged_pipeline :
  exists w',
    run_pipeline PipeScenario.env_silent 51 (pipeline "in.wav" "out.wav") PipeScenario.w0
      = Some (Ok tt, w') /\
    written (out w') = map (fun c => c +:+ newline) (pipeline "in.wav" "out.wav").
Proof. eexists. split; vm_compute; reflexivity. Qed.

(** Without an answer the check of [main] on the tracks reports that no
    track was detected, and [main] ends normally. *)
Example main_without_answers :
  exists w',
    main PipeScenario.env_silent 51 "in.wav" "out.wav" PipeScenario.w0
      = Some (Ok tt, w') /\
    nth_error (rev (out w')) 1
      = Some (Printed "❌ No track detected. Import may have failed.") /\
    List.length (written (out w')) = 13%nat.
Proof. eexists. split; [|split]; vm_compute; reflexivity. Qed.

(** C1 as stated fails: the outbound pipe refuses the five attempts of the
    first [send] and would take every later one; [send] raises, the loop
    ends, and none of the eleven later commands is written. *)
Lemma pipeline_stops_when_send_raises :
  exists e w',
    run_pipeline (PipeScenario.env_refusing 5) 51 (pipeline "in.wav" "out.wav")
      PipeScenario.w0 = Some (Raise e, w') /\
    written (out w') = [] /\
    ~ In ("SelectAll:" +:+ newline) (written (out w')) /\
    to_n w' = 5%nat /\
    (forall k, (5 <= k)%nat -> to_pipe (PipeScenario.env_refusing 5) k = ToWritten).
Proof.
  eexists _, _. split; [vm_compute; reflexivity|].
  split; [reflexivity|]. split; [intros []|]. split; [reflexivity|].
  intros k Hk. simpl. destruct (Nat.ltb_spec k 5); [lia | reflexivity].
Qed.

End AudacityProps.

(** ** Properties of the conversation generator *)

Module BarkProps.

Import Bark.
Local Open Scope Z_scope.

(** *** Logs *)

Lemma synth_calls_app (a b : list event) :
  synth_calls (a ++ b) = synth_calls a ++ synth_calls b.
Proof. unfold synth_calls. apply flat_map_app. Qed.

Lemma wav_writes_app (a b : list event) :
  wav_writes (a ++ b) = wav_writes a ++ wav_writes b.
Proof. unfold wav_writes. apply flat_map_app. Qed.

Lemma errors_app (a b : list event) : errors (a ++ b) = errors a ++ errors b.
Proof. unfold errors. apply flat_map_app. Qed.

Lemma failed_fillers_app (a b : list event) :
  failed_fillers (a ++ b) = (failed_fillers a + failed_fillers b)%nat.
Proof.
  unfold failed_fillers. rewrite errors_app, List.filter_app, List.length_app.
  reflexivity.
Qed.

Lemma prefix_append (a b : string) : String.prefix a (a +:+ b) = true.
Proof.
  induction a as [|c a IH]; simpl.
  - now destruct b.
  - destruct (Ascii.ascii_dec c c) as [_|Hne]; [exact IH | now elim Hne].
Qed.

(** *** Dictionaries *)

Lemma key_eqb_eq (a b : string * string) : key_eqb a b = true <-> a = b.
Proof.
  destruct a as [a1 a2], b as [b1 b2]. unfold key_eqb. simpl.
  rewrite andb_true_iff, !String.eqb_eq. split.
  - intros [-> ->]. reflexivity.
  - intros H. injection H as -> ->. now split.
Qed.

Lemma has_key_false (clips : registry) (key : string * string) :
  has_key clips key = false <-> ~ In key (map fst clips).
Proof.
  unfold has_key. induction clips as [|[k v] clips IH]; simpl.
  - split; [intros _ [] | reflexivity].
  - rewrite orb_false_iff, IH. split.
    + intros [Hk Hn] [Heq|Hin]; [|now apply Hn].
      subst k. assert (key_eqb key key = true) by now apply key_eqb_eq.
      congruence.
    + intros Hn. split.
      * destruct (key_eqb key k) eqn:Hk; [|reflexivity].
        apply key_eqb_eq in Hk. subst. elim Hn. now left.
      * intros Hin. apply Hn. now right.
Qed.

Lemma dict_set_fresh (clips : registry) (key : string * string)
  (value : string * string * Q) :
  has_key clips key = false -> dict_set clips key value = clips ++ [(key, value)].
Proof.
  unfold has_key. induction clips as [|[k v] clips IH]; simpl; [reflexivity|].
  intros H. apply orb_false_iff in H as [Hk Hrest].
  rewrite Hk, (IH Hrest). reflexivity.
Qed.

Lemma dict_get_voice (speaker : string) (w : World) :
  dict_get VOICES speaker w =
  (match voice_of speaker with
   | Some v => Ok v
   | None => Raise (Exn KeyError (repr speaker))
   end, w).
Proof.
  unfold voice_of. simpl.
  destruct (String.eqb speaker "sandip"); [reflexivity|].
  destruct (String.eqb speaker "yash"); reflexivity.
Qed.

(** *** Loops *)

Lemma for_each_app {A S} (a b : list A) (body : A -> S -> World -> S * World)
  (s : S) (w : World) :
  for_each (a ++ b) body s w =
  let '(s1, w1) := for_each a body s w in for_each b body s1 w1.
Proof.
  revert s w. induction a as [|x a IH]; intros s w; simpl; [reflexivity|].
  destruct (body x s w) as [s' w']. apply IH.
Qed.

Lemma for_each_jobs (E : Env) (fillers : list Filler) (clips : registry) (w : World) :
  for_each fillers
    (fun filler => for_each (speakers_of filler) (filler_step E filler)) clips w =
  for_each (jobs_of fillers) (fun j => filler_step E (fst j) (snd j)) clips w.
Proof.
  revert clips w. induction fillers as [|f fillers IH]; intros clips w; [reflexivity|].
  simpl. rewrite for_each_app.
  assert (Hin : forall l c w0,
             for_each (map (fun s => (f, s)) l)
               (fun j => filler_step E (fst j) (snd j)) c w0 =
             for_each l (filler_step E f) c w0).
  { induction l as [|x l IHl]; intros c w0; simpl; [reflexivity|].
    destruct (filler_step E f x c w0) as [c' w']. apply IHl. }
  rewrite Hin. destruct (for_each (speakers_of f) (filler_step E f) clips w).
  apply IH.
Qed.

(** *** One filler *)

Lemma failed_fillers_create (m : string) :
  failed_fillers [LogError ("Failed to create filler: " +:+ m)] = 1%nat.
Proof.
  unfold failed_fillers. cbn [errors flat_map app List.filter].
  now rewrite prefix_append.
Qed.

Lemma failed_fillers_generate (m : string) :
  failed_fillers [LogError ("Failed to generate '" +:+ m)] = 0%nat.
Proof. reflexivity. Qed.

Lemma failed_fillers_info (m : string) : failed_fillers [LogInfo m] = 0%nat.
Proof. reflexivity. Qed.

Lemma failed_fillers_synth (t v : string) : failed_fillers [Synth t v] = 0%nat.
Proof. reflexivity. Qed.

Lemma failed_fillers_wrote (f : string) : failed_fillers [WroteWav f] = 0%nat.
Proof. reflexivity. Qed.

Ltac log_simpl :=
  rewrite ?synth_calls_app, ?wav_writes_app, ?failed_fillers_app,
    ?failed_fillers_create, ?failed_fillers_generate, ?failed_fillers_info,
    ?failed_fillers_synth, ?failed_fillers_wrote;
  cbn [synth_calls wav_writes flat_map app];
  rewrite ?app_nil_r.

Lemma filler_step_fresh (E : Env) (f : Filler) (sp v : string) (clips : registry)
  (w : World) :
  voice_of sp = Some v ->
  has_key clips (f_text f, sp) = false ->
  let r := filler_step E f sp clips w in
  synth_calls (log (snd r)) = synth_calls (log w) ++ [(f_text f, v)] /\
  ((exists d audio,
      fst r = clips ++ [((f_text f, sp), (filler_filename sp (f_text f), f_type f, d))] /\
      wav_writes (log (snd r)) = wav_writes (log w) ++ [filler_filename sp (f_text f)] /\
      failed_fillers (log (snd r)) = failed_fillers (log w) /\
      fs (snd r) = <[filler_filename sp (f_text f) := audio]> (fs w))
   \/
   (fst r = clips /\
    wav_writes (log (snd r)) = wav_writes (log w) /\
    failed_fillers (log (snd r)) = S (failed_fillers (log w)) /\
    (fs (snd r) = fs w \/
     exists partial,
       fs (snd r) = <[filler_filename sp (f_text f) := partial]> (fs w)))).
Proof.
  intros Hv Hkey r. subst r.
  unfold filler_step, filler_try, try_except, bind, uniform, random, ret.
  rewrite Hkey.
  unfold logger_info, emit, generate_audio_clip, try_except, bind.
  rewrite dict_get_voice, Hv.
  unfold call_generate_audio, write_wav, logger_error, emit, raise, ret.
  cbn [rand_n gen_n wr_n fs log].
  destruct (generate_audio E (gen_n w) (f_text f) v) as [audio|e].
  - cbn [rand_n gen_n wr_n fs log].
    destruct (write_wav_error E (wr_n w) (filler_filename sp (f_text f))) as [e|].
    + cbn [fst snd log fs rand_n gen_n wr_n]. split; [now log_simpl|].
      right. split; [reflexivity|]. split; [now log_simpl|].
      split; [log_simpl; lia|].
      destruct (write_wav_leaves E _ _ _) as [partial|]; [right; eauto | now left].
    + cbn [fst snd log fs rand_n gen_n wr_n]. rewrite (dict_set_fresh _ _ _ Hkey).
      split; [now log_simpl|].
      left. eexists _, _. split; [reflexivity|]. split; [now log_simpl|].
      split; [|reflexivity]. log_simpl. lia.
  - cbn [fst snd log fs rand_n gen_n wr_n]. split; [now log_simpl|].
    right. split; [reflexivity|]. split; [now log_simpl|].
    split; [log_simpl; lia | now left].
Qed.

Lemma clip_ok_mono (jobs jobs' : list (Filler * string))
  (disk disk' : gmap string ndarray) kv :
  (forall j, In j jobs -> In j jobs') ->
  (forall p, is_Some (disk !! p) -> is_Some (disk' !! p)) ->
  clip_ok jobs disk kv -> clip_ok jobs' disk' kv.
Proof.
  intros Hj Hd (j & Hin & Hk & Hp & Ht & Hs).
  exists j. repeat split; auto.
Qed.

Lemma filler_loop_inv (E : Env) (w0 : World) :
  forall (jobs done : list (Filler * string)) (clips : registry) (w : World),
    NoDup (map job_key (done ++ jobs)) ->
    Forall (fun j => is_Some (voice_of (snd j))) jobs ->
    filler_inv w0 done clips w ->
    filler_inv w0 (done ++ jobs)
      (fst (for_each jobs (fun j => filler_step E (fst j) (snd j)) clips w))
      (snd (for_each jobs (fun j => filler_step E (fst j) (snd j)) clips w)).
Proof.
  induction jobs as [|j jobs IH]; intros done clips w Hnd Hvoices Hinv.
  - simpl. now rewrite app_nil_r.
  - simpl. destruct (filler_step E (fst j) (snd j) clips w) as [clips1 w1] eqn:Hstep.
    replace (done ++ j :: jobs) with ((done ++ [j]) ++ jobs) in *
      by now rewrite <- app_assoc.
    apply Forall_cons_1 in Hvoices as [[v Hv] Hvoices].
    apply IH; [exact Hnd | exact Hvoices |].
    destruct Hinv as (Hsy & Hwr & Hff & Hkeys & Hok).
    assert (Hfresh : has_key clips (f_text (fst j), snd j) = false).
    { apply has_key_false. intros Hin.
      apply in_map_iff in Hin as (kv & Hkv & Hin).
      rewrite Forall_forall in Hok.
      apply list_elem_of_In in Hin.
      destruct (Hok kv Hin) as (j' & Hj' & Hk' & _).
      rewrite map_app, map_app in Hnd. simpl in Hnd.
      apply NoDup_app in Hnd as (Hnd & _ & _).
      apply NoDup_app in Hnd as (_ & Hdisj & _).
      apply (Hdisj (job_key j')).
      - apply list_elem_of_In, in_map. exact Hj'.
      - rewrite <- Hk', Hkv. unfold job_key. set_solver. }
    pose proof (filler_step_fresh E (fst j) (snd j) v clips w Hv Hfresh) as Hs.
    cbn zeta in Hs. rewrite Hstep in Hs. cbn [fst snd] in Hs.
    destruct Hs as (Hsy1 & [(d & audio & Hc & Hw1 & Hf1 & Hfs1) | (Hc & Hw1 & Hf1 & Hfs1)]).
    + subst clips1. unfold filler_inv. rewrite !map_app, !List.length_app. simpl.
      split. { rewrite Hsy1, Hsy, <- app_assoc. unfold job_request. now rewrite Hv. }
      split. { rewrite Hw1, Hwr, <- app_assoc. reflexivity. }
      split; [lia|]. split.
      { apply NoDup_app. split; [exact Hkeys|]. split.
        - intros k Hk Hk2. apply list_elem_of_singleton in Hk2. subst k.
          apply has_key_false in Hfresh. apply Hfresh.
          now apply list_elem_of_In.
        - apply NoDup_singleton. }
      apply Forall_app. split.
      * eapply Forall_impl; [exact Hok|]. intros kv. apply clip_ok_mono.
        -- intros j' Hj'. apply in_or_app. now left.
        -- intros p Hp. rewrite Hfs1. rewrite lookup_insert_is_Some.
           destruct (decide (filler_filename (snd j) (f_text (fst j)) = p)); auto.
      * apply Forall_singleton. exists j. split; [apply in_or_app; right; now left|].
        split; [reflexivity|]. split; [reflexivity|]. split; [reflexivity|].
        unfold clip_path. simpl. rewrite Hfs1, lookup_insert_eq. eauto.
    + subst clips1. unfold filler_inv. rewrite !map_app, !List.length_app. simpl.
      split. { rewrite Hsy1, Hsy, <- app_assoc. unfold job_request. now rewrite Hv. }
      split. { rewrite Hw1, Hwr. reflexivity. }
      split; [lia|]. split; [exact Hkeys|].
      eapply Forall_impl; [exact Hok|]. intros kv. apply clip_ok_mono.
      * intros j' Hj'. apply in_or_app. now left.
      * intros p Hp. destruct Hfs1 as [-> | [partial ->]]; [exact Hp|].
        rewrite lookup_insert_is_Some.
        destruct (decide (filler_filename (snd j) (f_text (fst j)) = p)); auto.
Qed.

(** *** The filler clips *)

Lemma jobs_keys_nodup : NoDup (map job_key (jobs_of FILLERS)).
Proof. apply (bool_decide_unpack _). vm_compute. exact I. Qed.

Lemma jobs_have_voices :
  Forall (fun j => is_Some (voice_of (snd j))) (jobs_of FILLERS).
Proof. repeat constructor; eexists; reflexivity. Qed.

Lemma filler_requests_nodup : NoDup filler_requests.
Proof. apply (bool_decide_unpack _). vm_compute. exact I. Qed.

(** A run of [ensure_filler_clips], whatever the world does. *)
Lemma ensure_filler_clips_spec (E : Env) (w : World) :
  filler_inv w (jobs_of FILLERS)
    (fst (ensure_filler_clips E w)) (snd (ensure_filler_clips E w)).
Proof.
  unfold ensure_filler_clips, logger_info, emit. cbn iota beta zeta.
  rewrite for_each_jobs.
  set (w2 := {| rand_n := _; gen_n := _; wr_n := _; fs := _; log := _ |}).
  pose proof (filler_loop_inv E w2 (jobs_of FILLERS) [] [] w2) as H.
  simpl app in H.
  assert (Hinv : filler_inv w2 (jobs_of FILLERS)
            (fst (for_each (jobs_of FILLERS) (fun j => filler_step E (fst j) (snd j)) [] w2))
            (snd (for_each (jobs_of FILLERS) (fun j => filler_step E (fst j) (snd j)) [] w2))).
  { apply H.
    - exact jobs_keys_nodup.
    - exact jobs_have_voices.
    - unfold filler_inv. simpl. rewrite !app_nil_r.
      repeat split; auto using NoDup_nil_2. }
  clear H. unfold filler_inv in *.
  assert (Hs : synth_calls (log w2) = synth_calls (log w)).
  { subst w2. simpl. rewrite !synth_calls_app. simpl. now rewrite !app_nil_r. }
  assert (Hw : wav_writes (log w2) = wav_writes (log w)).
  { subst w2. simpl. rewrite !wav_writes_app. simpl. now rewrite !app_nil_r. }
  assert (Hf : failed_fillers (log w2) = failed_fillers (log w)).
  { subst w2. simpl. rewrite !failed_fillers_app. simpl. unfold failed_fillers. simpl. lia. }
  rewrite Hs, Hw, Hf in Hinv. exact Hinv.
Qed.

(** A pair that is in the registry already is skipped: no call of the
    speech model, no file, no change of the registry. *)
Lemma filler_step_present (E : Env) (f : Filler) (sp : string) (clips : registry)
  (w : World) :
  has_key clips (f_text f, sp) = true ->
  fst (filler_step E f sp clips w) = clips /\
  log (snd (filler_step E f sp clips w)) = log w /\
  fs (snd (filler_step E f sp clips w)) = fs w.
Proof.
  intros Hkey.
  unfold filler_step, filler_try, try_except, bind, uniform, random, ret.
  rewrite Hkey. simpl. repeat split.
Qed.

(** C2, amended: within a run each (filler text, speaker) pair maps to at
    most one generated clip: the keys of the registry are distinct, the
    speech model is called once for each pair, one file is written for
    each clip registered, and a pair that is in the registry already is
    skipped. Generation is not idempotent across runs: every run starts
    from an empty registry and does not look at the files on disk, so a
    second run calls the speech model for every pair again and writes the
    file of every clip it registers again. *)
Theorem fillers_once_per_run_and_again_on_rerun (E : Env) (w : World) :
  let r1 := ensure_filler_clips E w in
  let r2 := ensure_filler_clips E (snd r1) in
  NoDup (map fst (fst r1)) /\
  NoDup filler_requests /\
  synth_calls (log (snd r1)) = synth_calls (log w) ++ filler_requests /\
  wav_writes (log (snd r1)) = wav_writes (log w) ++ map clip_path (fst r1) /\
  (forall (f : Filler) (sp : string) (clips : registry),
     has_key clips (f_text f, sp) = true ->
     fst (filler_step E f sp clips w) = clips /\
     log (snd (filler_step E f sp clips w)) = log w /\
     fs (snd (filler_step E f sp clips w)) = fs w) /\
  synth_calls (log (snd r2)) = synth_calls (log (snd r1)) ++ filler_requests /\
  wav_writes (log (snd r2)) = wav_writes (log (snd r1)) ++ map clip_path (fst r2).
Proof.
  intros r1 r2.
  destruct (ensure_filler_clips_spec E w) as (Hs1 & Hw1 & _ & Hk1 & _).
  destruct (ensure_filler_clips_spec E (snd r1)) as (Hs2 & Hw2 & _ & _ & _).
  fold r1 in Hs1, Hw1, Hk1. fold r2 in Hs2, Hw2.
  split; [exact Hk1|]. split; [exact filler_requests_nodup|].
  split; [exact Hs1|]. split; [exact Hw1|].
  split; [intros f sp clips; apply filler_step_present|].
  split; [exact Hs2 | exact Hw2].
Qed.

(** The clip [aha] of yash is in the registry: the turn of the loop for it
    leaves the registry, the log and the disk as they are. *)
Lemma fillers_once_per_run_and_again_on_rerun_witness :
  let f := {| f_text := "aha"; f_duration_range := (0.3, 0.5)%Q;
              f_speaker := "any"; f_type := "acknowledgment" |} in
  fst (filler_step BarkScenario.studio f "yash" BarkScenario.aha_clips BarkScenario.w0)
    = BarkScenario.aha_clips /\
  log (snd (filler_step BarkScenario.studio f "yash" BarkScenario.aha_clips
              BarkScenario.w0)) = log BarkScenario.w0 /\
  fs (snd (filler_step BarkScenario.studio f "yash" BarkScenario.aha_clips
             BarkScenario.w0)) = fs BarkScenario.w0.
Proof.
  intros f.
  apply (proj1 (proj2 (proj2 (proj2 (proj2
           (fillers_once_per_run_and_again_on_rerun BarkScenario.studio
              BarkScenario.w0))))) f "yash" BarkScenario.aha_clips).
  reflexivity.
Defined.

(** C2 as stated fails: in a studio where everything works, the first run
    registers a clip for each of the 20 pairs; the second run calls the
    speech model 20 more times and writes the 20 files again, with other
    content. *)
Lemma second_run_synthesizes_again :
  let r1 := ensure_filler_clips BarkScenario.studio BarkScenario.w0 in
  let r2 := ensure_filler_clips BarkScenario.studio (snd r1) in
  map fst (fst r1) = map job_key (jobs_of FILLERS) /\
  synth_calls (log (snd r1)) = filler_requests /\
  synth_calls (log (snd r2)) = filler_requests ++ filler_requests /\
  wav_writes (log (snd r2)) = wav_writes (log (snd r1)) ++ wav_writes (log (snd r1)) /\
  (fs (snd r1) !! "fillers/sandiphmm.wav") ≫= head = Some 0 /\
  (fs (snd r2) !! "fillers/sandiphmm.wav") ≫= head = Some 20.
Proof. vm_compute. repeat split; reflexivity. Qed.

(** *** Computations that do not call the speech model *)

Create HintDb quiet.

Lemma quiet_ret {A} (a : A) : quiet (ret a).
Proof. intros w. reflexivity. Qed.

Lemma quiet_raise {A} (e : exn) : quiet (@raise A e).
Proof. intros w. reflexivity. Qed.

Lemma quiet_bind {A B} (c : M A) (k : A -> M B) :
  quiet c -> (forall a, quiet (k a)) -> quiet (bind c k).
Proof.
  intros Hc Hk w. unfold bind. specialize (Hc w).
  destruct (c w) as [[a|e] w1]; simpl in *; [|exact Hc].
  now rewrite Hk.
Qed.

Lemma quiet_try_except {A} (c : M A) (h : exn -> M A) :
  quiet c -> (forall e, quiet (h e)) -> quiet (try_except c h).
Proof.
  intros Hc Hh w. unfold try_except. specialize (Hc w).
  destruct (c w) as [[a|e] w1]; simpl in *; [exact Hc|].
  now rewrite Hh.
Qed.

Lemma quiet_logger_info (m : string) : quiet (logger_info m).
Proof. intros w. simpl. rewrite synth_calls_app. simpl. now rewrite app_nil_r. Qed.

Lemma quiet_logger_error (m : string) : quiet (logger_error m).
Proof. intros w. simpl. rewrite synth_calls_app. simpl. now rewrite app_nil_r. Qed.

Lemma quiet_random (E : Env) : quiet (random E).
Proof. intros w. reflexivity. Qed.

#[local] Hint Resolve quiet_ret quiet_raise quiet_logger_info quiet_logger_error
  quiet_random : quiet.

Ltac quiet_step :=
  first [ solve [auto with quiet]
        | apply quiet_bind; [|intros ?] | apply quiet_try_except; [|intros ?] ].

Lemma quiet_uniform (E : Env) (a b : Q) : quiet (uniform E a b).
Proof. unfold uniform. repeat quiet_step. Qed.

Lemma quiet_randbelow (E : Env) (n : Z) : quiet (randbelow E n).
Proof. unfold randbelow. repeat quiet_step. Qed.

#[local] Hint Resolve quiet_uniform quiet_randbelow : quiet.

Lemma quiet_randint (E : Env) (a b : Z) : quiet (randint E a b).
Proof. unfold randint. repeat quiet_step. Qed.

Lemma quiet_choice {A} (E : Env) (seq : list A) : quiet (choice E seq).
Proof.
  unfold choice. destruct seq as [|x seq]; [auto with quiet|].
  quiet_step; [auto with quiet|]. destruct (nth_error _ _); auto with quiet.
Qed.

Lemma quiet_choices {A} (E : Env) (population : list A) (weights : list Q) :
  quiet (choices E population weights).
Proof.
  unfold choices. destruct (total_weight _ _); [|auto with quiet].
  destruct (Qltb _ _); [|auto with quiet].
  quiet_step; [auto with quiet|]. destruct (nth_error _ _); auto with quiet.
Qed.

Lemma quiet_write_wav (E : Env) (filename : string) (audio : ndarray) :
  quiet (write_wav E filename audio).
Proof.
  intros w. unfold write_wav. destruct (write_wav_error _ _ _); simpl; [reflexivity|].
  rewrite synth_calls_app. simpl. now rewrite app_nil_r.
Qed.

Lemma quiet_from_wav (E : Env) (path : string) : quiet (from_wav E path).
Proof. intros w. unfold from_wav. destruct (fs w !! path); reflexivity. Qed.

Lemma quiet_os_remove (path : string) : quiet (os_remove path).
Proof.
  intros w. unfold os_remove. destruct (fs w !! path); simpl; [|reflexivity].
  rewrite synth_calls_app. simpl. now rewrite app_nil_r.
Qed.

#[local] Hint Resolve quiet_randint quiet_choice quiet_choices quiet_write_wav
  quiet_from_wav quiet_os_remove : quiet.

Lemma quiet_select (E : Env) (main_audio : AudioSegment) (main_speaker : string)
  (filler_clips : registry) :
  quiet (select_pause_and_filler E main_audio main_speaker filler_clips).
Proof.
  unfold select_pause_and_filler. quiet_step.
  - destruct (is_nil _); repeat quiet_step.
  - destruct a; [auto with quiet|].
    destruct (is_nil _); [auto with quiet|]. quiet_step; [auto with quiet|].
    destruct (is_nil _); repeat quiet_step.
Qed.

Lemma quiet_load_filler (E : Env) (path : string) : quiet (load_filler E path).
Proof. unfold load_filler. repeat quiet_step. Qed.

#[local] Hint Resolve quiet_select quiet_load_filler : quiet.

Lemma quiet_add_listener_responses (E : Env) (main_audio : AudioSegment)
  (main_speaker : string) (filler_clips : registry) :
  quiet (add_listener_responses E main_audio main_speaker filler_clips).
Proof.
  unfold add_listener_responses. quiet_step; [auto with quiet|].
  destruct a as [[[pause path] dur]|]; [|auto with quiet].
  destruct (_ <? _); repeat quiet_step.
Qed.

#[local] Hint Resolve quiet_add_listener_responses : quiet.

Lemma generate_audio_clip_calls (E : Env) (text speaker v : string)
  (duration : option Q) (w : World) :
  voice_of speaker = Some v ->
  synth_calls (log (snd (generate_audio_clip E text speaker duration w)))
  = synth_calls (log w) ++ [(text, v)].
Proof.
  intros Hv. unfold generate_audio_clip, try_except, bind.
  rewrite dict_get_voice, Hv. unfold call_generate_audio.
  destruct (generate_audio E (gen_n w) text v); simpl.
  - rewrite synth_calls_app. reflexivity.
  - rewrite !synth_calls_app. simpl. now rewrite app_nil_r.
Qed.

Lemma line_step_calls (E : Env) (filler_clips : registry) (line : ScriptLine)
  (v : string) (conversation : AudioSegment) (w : World) :
  voice_of (line_speaker line) = Some v ->
  synth_calls (log (snd (line_step E filler_clips line conversation w)))
  = synth_calls (log w) ++ [(line_text line, v)].
Proof.
  intros Hv. unfold line_step, line_try.
  unfold bind at 1. unfold logger_info at 1, emit at 1.
  unfold bind at 1.
  pose proof (generate_audio_clip_calls E (line_text line) (line_speaker line) v None
    {| rand_n := rand_n w; gen_n := gen_n w; wr_n := wr_n w; fs := fs w;
       log := log w ++ [LogInfo ("Processing: " +:+ line_speaker line +:+ " - '"
                                 +:+ line_text line +:+ "'")] |} Hv) as Hg.
  cbn [log] in Hg. rewrite synth_calls_app in Hg. simpl in Hg.
  rewrite app_nil_r in Hg.
  destruct (generate_audio_clip _ _ _ _ _) as [[audio|e] w1]; cbn [snd] in Hg.
  - match goal with
    | |- context [bind ?c ?k w1] =>
        assert (Hq : quiet (bind c k))
    end.
    { repeat quiet_step. destruct (not_last_line line); repeat quiet_step. }
    specialize (Hq w1).
    destruct (bind _ _ w1) as [[c'|e] w2]; cbn [snd] in *.
    + congruence.
    + simpl. rewrite synth_calls_app. simpl. rewrite app_nil_r. congruence.
  - simpl. rewrite synth_calls_app. simpl. now rewrite app_nil_r.
Qed.

(** *** The conversation loop *)

Lemma conversation_loop_calls (E : Env) (filler_clips : registry) :
  forall (lines : list ScriptLine) (conversation : AudioSegment) (w : World),
    Forall (fun l => is_Some (voice_of (line_speaker l))) lines ->
    synth_calls (log (snd (for_each lines (line_step E filler_clips) conversation w)))
    = synth_calls (log w) ++ map line_request lines.
Proof.
  induction lines as [|line lines IH]; intros conversation w Hv.
  - simpl. now rewrite app_nil_r.
  - apply Forall_cons_1 in Hv as [[v Hv] Hrest]. simpl.
    pose proof (line_step_calls E filler_clips line v conversation w Hv) as Hs.
    destruct (line_step E filler_clips line conversation w) as [c1 w1].
    cbn [snd] in Hs. rewrite (IH c1 w1 Hrest), Hs, <- app_assoc.
    unfold line_request at 2. now rewrite Hv.
Qed.

Lemma script_has_voices :
  Forall (fun l => is_Some (voice_of (line_speaker l))) BASE_SCRIPT.
Proof. repeat constructor; eexists; reflexivity. Qed.

Lemma generate_conversation_calls (E : Env) (filler_clips : registry) (w : World) :
  synth_calls (log (snd (generate_conversation E filler_clips w)))
  = synth_calls (log w) ++ line_requests.
Proof.
  unfold generate_conversation, logger_info, emit. cbn iota beta zeta.
  rewrite (conversation_loop_calls E filler_clips BASE_SCRIPT _ _ script_has_voices).
  cbn [log]. rewrite synth_calls_app. simpl. now rewrite app_nil_r.
Qed.

(** C7: a failure on one filler clip or on one scripted line is logged
    and that item alone is skipped; the loop goes on with the items that
    remain. Whatever fails, [ensure_filler_clips] calls the speech model
    for each of the 20 pairs of a filler and a speaker, and each pair is
    either registered or counted by an error in the log;
    [generate_conversation] calls the speech model for each of the 16
    lines, and when the processing of a line raises, the result is that
    of processing the later lines from the conversation reached before
    that line, with the error logged. *)
Theorem one_failure_does_not_stop_the_batch (E : Env) (filler_clips : registry)
  (w : World) :
  (synth_calls (log (snd (ensure_filler_clips E w)))
     = synth_calls (log w) ++ filler_requests /\
   (failed_fillers (log (snd (ensure_filler_clips E w)))
      + List.length (fst (ensure_filler_clips E w))
    = failed_fillers (log w) + 20)%nat) /\
  (synth_calls (log (snd (generate_conversation E filler_clips w)))
     = synth_calls (log w) ++ line_requests /\
   forall (before : list ScriptLine) (line : ScriptLine) (after : list ScriptLine)
          (e : exn) (w2 : World),
     BASE_SCRIPT = before ++ line :: after ->
     let start := snd (logger_info (newline +:+ "Building conversation...") w) in
     let reached := for_each before (line_step E filler_clips) (silent 0) start in
     line_try E filler_clips line (fst reached) (snd reached) = (Raise e, w2) ->
     generate_conversation E filler_clips w =
     for_each after (line_step E filler_clips) (fst reached)
       (snd (logger_error ("Failed to process line: " +:+ exn_msg e) w2))).
Proof.
  split; [|split].
  - destruct (ensure_filler_clips_spec E w) as (Hs & _ & Hf & _). split.
    + exact Hs.
    + exact Hf.
  - apply generate_conversation_calls.
  - intros before line after e w2 Hsplit start reached Hraise.
    unfold generate_conversation. rewrite Hsplit.
    change (logger_info (newline +:+ "Building conversation...") w)
      with (Ok tt, start).
    cbn iota beta. rewrite for_each_app. fold reached.
    destruct reached as [c1 w1]. cbn [fst snd] in *. simpl.
    unfold line_step at 1. rewrite Hraise. reflexivity.
Qed.

(** The speech model fails on the fourth line: the line is skipped, the
    error is logged, and the twelve later lines are processed. *)
Lemma one_failure_does_not_stop_the_batch_witness :
  let E := BarkScenario.flaky_studio in
  let start := snd (logger_info (newline +:+ "Building conversation...") BarkScenario.w0) in
  let reached := for_each (firstn 3 BASE_SCRIPT) (line_step E []) (silent 0) start in
  let line :=
    {| line_speaker := "yash"; line_text := "That's really encouraging growth actually" |} in
  generate_conversation E [] BarkScenario.w0 =
  for_each (skipn 4 BASE_SCRIPT) (line_step E []) (fst reached)
    (snd (logger_error ("Failed to process line: " +:+ exn_msg BarkScenario.out_of_memory)
            (snd (line_try E [] line (fst reached) (snd reached))))).
Proof.
  intros E start reached line.
  apply (proj2 (proj2 (one_failure_does_not_stop_the_batch E [] BarkScenario.w0))
           (firstn 3 BASE_SCRIPT) line (skipn 4 BASE_SCRIPT)
           BarkScenario.out_of_memory
           (snd (line_try E [] line (fst reached) (snd reached)))).
  - reflexivity.
  - vm_compute. reflexivity.
Defined.

Example flaky_fillers :
  let r := ensure_filler_clips BarkScenario.flaky_studio BarkScenario.w0 in
  List.length (fst r) = 18%nat /\ failed_fillers (log (snd r)) = 2%nat /\
  synth_calls (log (snd r)) = filler_requests.
Proof. vm_compute. repeat split; reflexivity. Qed.

(** *** Numbers *)

Lemma Qltb_lt (x y : Q) : Qltb x y = true <-> (x < y)%Q.
Proof.
  unfold Qltb. rewrite negb_true_iff. split.
  - intros H. apply Qnot_le_lt. intros Hle.
    apply Qle_bool_iff in Hle. congruence.
  - intros H. destruct (Qle_bool y x) eqn:Hb; [|reflexivity].
    apply Qle_bool_iff in Hb. exfalso. exact (Qlt_not_le _ _ H Hb).
Qed.

Lemma frac_range (x : Q) :
  (0 <= x - inject_Z (Qfloor x))%Q /\ (x - inject_Z (Qfloor x) < 1)%Q.
Proof.
  pose proof (Qfloor_le x) as H1. pose proof (Qlt_floor x) as H2.
  rewrite inject_Z_plus in H2. change (inject_Z 1) with 1%Q in H2. split; lra.
Qed.

Lemma randbelow_range (u : Q) (n : Z) :
  (0 <= u)%Q -> (u < 1)%Q -> 0 < n -> 0 <= Qfloor (u * inject_Z n) < n.
Proof.
  intros H0 H1 Hn. split.
  - change 0 with (Qfloor 0). apply Qfloor_resp_le.
    apply Qmult_le_0_compat; [exact H0|].
    assert (Hq : (inject_Z 0 <= inject_Z n)%Q) by (rewrite <- Zle_Qle; lia).
    exact Hq.
  - rewrite Zlt_Qlt. eapply Qle_lt_trans; [apply Qfloor_le|].
    assert (Hq : (inject_Z 0 < inject_Z n)%Q) by (rewrite <- Zlt_Qlt; lia).
    change (inject_Z 0) with 0%Q in Hq.
    apply Qlt_le_trans with (1 * inject_Z n)%Q.
    + apply Qmult_lt_compat_r; assumption.
    + rewrite Qmult_1_l. apply Qle_refl.
Qed.

Lemma bisect_le {F} (fltb : F -> F -> bool) (a : list F) (x : F) (hi : nat) :
  (bisect fltb a x hi <= hi)%nat.
Proof.
  revert hi. induction a as [|c a IH]; intros hi; destruct hi as [|hi]; simpl;
    try lia.
  destruct (fltb x c); [lia|]. specialize (IH hi). lia.
Qed.

Lemma accumulate_from_positive (ws : list Q) :
  forall acc, (0 < acc)%Q -> Forall (fun x => (0 < x)%Q) ws ->
  forall t, last (accumulate_from Qplus acc ws) = Some t -> (0 < t)%Q.
Proof.
  induction ws as [|x ws IH]; intros acc Hacc Hws t Ht; [discriminate|].
  apply Forall_cons_1 in Hws as [Hx Hws]. simpl in Ht.
  destruct (accumulate_from Qplus (acc + x)%Q ws) as [|y l] eqn:Hl.
  - simpl in Ht. injection Ht as <-. lra.
  - apply (IH (acc + x)%Q); [lra | exact Hws |]. rewrite Hl.
    simpl in Ht. exact Ht.
Qed.

Lemma total_weight_positive (ws : list Q) :
  ws <> [] -> Forall (fun x => (0 < x)%Q) ws ->
  exists t, total_weight Qplus ws = Some t /\ (0 < t)%Q.
Proof.
  intros Hne Hws. destruct ws as [|x ws]; [congruence|].
  apply Forall_cons_1 in Hws as [Hx Hws]. unfold total_weight. simpl.
  destruct (accumulate_from Qplus x ws) as [|y l] eqn:Hl.
  - exists x. split; [reflexivity | exact Hx].
  - destruct (last (y :: l)) as [t|] eqn:Ht.
    + exists t. split; [exact Ht|].
      apply (accumulate_from_positive ws x Hx Hws). now rewrite Hl.
    + apply last_None in Ht. discriminate.
Qed.

(** *** Random choices *)

Lemma is_nil_true {A} (l : list A) : is_nil l = true <-> l = [].
Proof. destruct l; simpl; split; congruence. Qed.

Lemma random_spec (E : Env) (w : World) :
  exists u, (0 <= u)%Q /\ (u < 1)%Q /\
    random E w = (Ok u, {| rand_n := S (rand_n w); gen_n := gen_n w; wr_n := wr_n w;
                           fs := fs w; log := log w |}).
Proof.
  eexists. split; [|split; [|reflexivity]]; apply frac_range.
Qed.

Lemma choices_member {A} (E : Env) (population : list A) (weights : list Q)
  (w w' : World) (x : A) :
  choices E population weights w = (Ok x, w') ->
  In x population /\ log w' = log w /\ fs w' = fs w.
Proof.
  unfold choices, bind, ret, raise. destruct (total_weight Qplus weights) as [t|]; [|discriminate].
  destruct (Qltb 0 t); [|discriminate].
  destruct (random_spec E w) as (u & _ & _ & ->).
  destruct (nth_error population _) as [y|] eqn:Hn; [|discriminate].
  intros H. injection H as <- <-. split; [|split; reflexivity].
  eapply nth_error_In. exact Hn.
Qed.

Lemma choices_total {A} (E : Env) (population : list A) (weights : list Q) (w : World) :
  population <> [] -> Forall (fun x => (0 < x)%Q) weights ->
  List.length weights = List.length population ->
  exists x w', choices E population weights w = (Ok x, w').
Proof.
  intros Hne Hpos Hlen.
  destruct (total_weight_positive weights) as (t & Ht & Htpos); [|exact Hpos|].
  { intros ->. destruct population; [congruence | discriminate]. }
  unfold choices, bind, ret. rewrite Ht.
  apply Qltb_lt in Htpos. rewrite Htpos.
  destruct (random_spec E w) as (u & _ & _ & ->).
  destruct (nth_error population _) as [y|] eqn:Hn; [eauto|].
  apply nth_error_None in Hn.
  pose proof (bisect_le Qltb (accumulate Qplus weights) (u * t)%Q
                (Nat.pred (List.length population))) as Hb.
  destruct population; [congruence | simpl in *; lia].
Qed.

Lemma choice_member {A} (E : Env) (seq : list A) (w w' : World) (x : A) :
  choice E seq w = (Ok x, w') ->
  In x seq /\ log w' = log w /\ fs w' = fs w.
Proof.
  unfold choice. destruct seq as [|a seq]; [discriminate|].
  unfold randbelow, bind, ret, raise.
  destruct (random_spec E w) as (u & _ & _ & ->).
  destruct (nth_error (a :: seq) _) as [y|] eqn:Hn; [|discriminate].
  intros H. injection H as <- <-. split; [|split; reflexivity].
  eapply nth_error_In. exact Hn.
Qed.

Lemma choice_total {A} (E : Env) (seq : list A) (w : World) :
  seq <> [] -> exists x w', choice E seq w = (Ok x, w').
Proof.
  intros Hne. unfold choice. destruct seq as [|a seq]; [congruence|].
  unfold randbelow, bind, ret, raise.
  destruct (random_spec E w) as (u & Hu0 & Hu1 & ->).
  destruct (nth_error (a :: seq) _) as [y|] eqn:Hn; [eauto|].
  apply nth_error_None in Hn.
  pose proof (randbelow_range u (Z.of_nat (List.length (a :: seq))) Hu0 Hu1) as Hr.
  simpl List.length in *. lia.
Qed.

(** *** The selection of a pause and a filler *)

Lemma select_member (E : Env) (main_audio : AudioSegment) (main_speaker : string)
  (filler_clips : registry) (w w' : World) (pause : Z * Z) (path : string) (dur : Q) :
  select_pause_and_filler E main_audio main_speaker filler_clips w
    = (Ok (Some (pause, path, dur)), w') ->
  In pause (suitable_pauses_of main_audio (find_conversation_pauses E main_audio)) /\
  In (path, dur) (available_fillers_of (other_speaker_of main_speaker) filler_clips) /\
  log w' = log w /\ fs w' = fs w.
Proof.
  unfold select_pause_and_filler. unfold bind at 1.
  destruct (is_nil (find_conversation_pauses E main_audio)).
  { simpl. discriminate. }
  unfold bind at 1. destruct (random_spec E w) as (u & _ & _ & ->).
  unfold ret at 1. destruct (Qltb ACKNOWLEDGMENT_PROBABILITY u); [discriminate|].
  cbn zeta. destruct (is_nil (suitable_pauses_of _ _)); [discriminate|].
  unfold bind at 1.
  destruct (choices E _ _ _) as [[p|e] w1] eqn:Hc; [|discriminate].
  apply choices_member in Hc as (Hp & Hl1 & Hf1).
  destruct (is_nil (available_fillers_of _ _)); [discriminate|].
  unfold bind at 1.
  destruct (choice E _ w1) as [[c|e] w2] eqn:Hch; [|discriminate].
  apply choice_member in Hch as (Hc & Hl2 & Hf2).
  unfold ret. intros H. injection H as <- <- <- <-.
  split; [exact Hp|]. split; [now destruct c|].
  split; [now rewrite Hl2, Hl1 | now rewrite Hf2, Hf1].
Qed.

Lemma select_none (E : Env) (main_audio : AudioSegment) (main_speaker : string)
  (filler_clips : registry) (w : World) :
  suitable_pauses_of main_audio (find_conversation_pauses E main_audio) = [] ->
  exists w',
    select_pause_and_filler E main_audio main_speaker filler_clips w = (Ok None, w') /\
    log w' = log w /\ fs w' = fs w.
Proof.
  intros Hnone. unfold select_pause_and_filler. unfold bind at 1.
  destruct (is_nil (find_conversation_pauses E main_audio)).
  { simpl. eauto. }
  unfold bind at 1. destruct (random_spec E w) as (u & _ & _ & ->).
  unfold ret at 1. destruct (Qltb ACKNOWLEDGMENT_PROBABILITY u).
  { simpl. eauto. }
  cbn zeta. rewrite Hnone. simpl. eauto.
Qed.

Lemma pause_weights_positive (E : Env) (main_audio : AudioSegment)
  (pauses : list (Z * Z)) :
  (forall x, 0 < x -> (0 < pow15 E x)%Q) ->
  Forall (fun x => (0 < x)%Q) (pause_weights E (suitable_pauses_of main_audio pauses)).
Proof.
  intros Hpos. unfold pause_weights, suitable_pauses_of.
  apply Forall_forall. intros x Hx. apply list_elem_of_In in Hx.
  apply in_map_iff in Hx as (p & <- & Hp).
  apply filter_In in Hp as [_ Hs]. unfold is_suitable in Hs.
  apply andb_true_iff in Hs as [_ Hs]. apply Z.ltb_lt in Hs.
  apply Hpos. unfold MIN_SILENCE_FOR_FILLER in Hs. lia.
Qed.

Lemma select_total (E : Env) (main_audio : AudioSegment) (main_speaker : string)
  (filler_clips : registry) (w : World) :
  (forall x, 0 < x -> (0 < pow15 E x)%Q) ->
  exists o w',
    select_pause_and_filler E main_audio main_speaker filler_clips w = (Ok o, w').
Proof.
  intros Hpos. unfold select_pause_and_filler. unfold bind at 1.
  destruct (is_nil (find_conversation_pauses E main_audio)).
  { simpl. eauto. }
  unfold bind at 1. destruct (random_spec E w) as (u & _ & _ & ->).
  unfold ret at 1. destruct (Qltb ACKNOWLEDGMENT_PROBABILITY u); [simpl; eauto|].
  cbn zeta. destruct (is_nil (suitable_pauses_of _ _)) eqn:Hs; [simpl; eauto|].
  unfold bind at 1.
  match goal with
  | |- context [choices E ?pop ?ws ?w1] =>
      destruct (choices_total E pop ws w1) as (p & w2 & ->)
  end.
  - intros Hnil. apply is_nil_true in Hnil. congruence.
  - apply pause_weights_positive. exact Hpos.
  - unfold pause_weights. apply length_map.
  - destruct (is_nil (available_fillers_of _ _)) eqn:Ha; [simpl; eauto|].
    unfold bind at 1.
    match goal with
    | |- context [choice E ?seq ?w1] =>
        destruct (choice_total E seq w1) as (c & w3 & ->)
    end.
    + intros Hnil. apply is_nil_true in Hnil. congruence.
    + simpl. eauto.
Qed.

(** *** Pauses *)

Lemma is_suitable_Z (main_audio : AudioSegment) (p : Z * Z) :
  is_suitable main_audio p = true <->
  len main_audio < 10 * fst p /\ 10 * snd p < 9 * len main_audio /\
  MIN_SILENCE_FOR_FILLER < snd p - fst p.
Proof.
  unfold is_suitable. rewrite !andb_true_iff, !Qltb_lt, Z.ltb_lt.
  unfold Qlt. simpl.
  split; [intros [[H1 H2] H3] | intros (H1 & H2 & H3)]; repeat split; lia.
Qed.

Lemma suitable_is_central_and_long (main_audio : AudioSegment) (p : Z * Z) :
  is_suitable main_audio p = true -> central_and_long main_audio p.
Proof.
  intros H. apply is_suitable_Z in H as (H1 & H2 & H3).
  unfold central_and_long, Qle. simpl. repeat split; lia.
Qed.

Lemma not_central_not_suitable (E : Env) (main_audio : AudioSegment) :
  (forall p, In p (find_conversation_pauses E main_audio) ->
             ~ central_and_long main_audio p) ->
  suitable_pauses_of main_audio (find_conversation_pauses E main_audio) = [].
Proof.
  intros Hno. unfold suitable_pauses_of.
  destruct (List.filter _ _) as [|p l] eqn:Hf; [reflexivity|].
  assert (Hin : In p (List.filter (is_suitable main_audio)
                        (find_conversation_pauses E main_audio)))
    by (rewrite Hf; now left).
  apply filter_In in Hin as [Hin Hs].
  elim (Hno p Hin). now apply suitable_is_central_and_long.
Qed.

(** C5: every pause selected for the insertion of a filler starts no
    earlier than 0.1 L, ends no later than 0.9 L and is at least 300 ms
    long, L being the length of the segment; if no detected pause meets
    these constraints, the segment is returned as it is. *)
Theorem selected_pause_is_central_and_long (E : Env) (main_audio : AudioSegment)
  (main_speaker : string) (filler_clips : registry) (w : World) :
  (forall (pause : Z * Z) (path : string) (dur : Q) (w' : World),
     select_pause_and_filler E main_audio main_speaker filler_clips w
       = (Ok (Some (pause, path, dur)), w') ->
     central_and_long main_audio pause) /\
  ((forall p, In p (find_conversation_pauses E main_audio) ->
              ~ central_and_long main_audio p) ->
   exists w',
     add_listener_responses E main_audio main_speaker filler_clips w
       = (Ok main_audio, w') /\
     log w' = log w /\ fs w' = fs w).
Proof.
  split.
  - intros pause path dur w' Hsel.
    apply select_member in Hsel as (Hin & _).
    apply filter_In in Hin as [_ Hs]. now apply suitable_is_central_and_long.
  - intros Hno. apply not_central_not_suitable in Hno.
    destruct (select_none E main_audio main_speaker filler_clips w Hno)
      as (w' & Hsel & Hlog & Hfs).
    exists w'. unfold add_listener_responses, bind. rewrite Hsel.
    split; [reflexivity|]. now split.
Qed.

Lemma selected_pause_is_central_and_long_witness :
  central_and_long BarkScenario.one_second (150, 850).
Proof.
  apply (proj1 (selected_pause_is_central_and_long BarkScenario.studio
                  BarkScenario.one_second "sandip" BarkScenario.aha_clips
                  BarkScenario.aha_disk)
           (150, 850) "fillers/yashaha.wav" 0.4%Q
           (snd (select_pause_and_filler BarkScenario.studio
                   BarkScenario.one_second "sandip" BarkScenario.aha_clips
                   BarkScenario.aha_disk))).
  vm_compute. reflexivity.
Defined.

(** *** The splice *)

Lemma parse_position_nonneg (a : AudioSegment) (ms : Z) :
  0 <= ms -> parse_position a ms = Nat.min (Z.to_nat ms) (List.length a).
Proof.
  intros H. unfold parse_position, len.
  destruct (Z.ltb_spec ms 0); [lia|]. lia.
Qed.

Lemma seg_to_firstn (a : AudioSegment) (ms : Z) :
  0 <= ms -> seg_to a ms = firstn (Z.to_nat ms) a.
Proof.
  intros H. unfold seg_to. rewrite (parse_position_nonneg a ms H).
  destruct (Nat.le_ge_cases (Z.to_nat ms) (List.length a)) as [Hle|Hge].
  - now rewrite Nat.min_l.
  - rewrite Nat.min_r by exact Hge. now rewrite !firstn_all2 by lia.
Qed.

Lemma seg_from_skipn (a : AudioSegment) (ms : Z) :
  0 <= ms -> seg_from a ms = skipn (Z.to_nat ms) a.
Proof.
  intros H. unfold seg_from. rewrite (parse_position_nonneg a ms H).
  destruct (Nat.le_ge_cases (Z.to_nat ms) (List.length a)) as [Hle|Hge].
  - now rewrite Nat.min_l.
  - rewrite Nat.min_r by exact Hge. now rewrite !skipn_all2 by lia.
Qed.

Lemma insert_pos_centered (pause : Z * Z) (filler_ms : Z) :
  filler_ms + 200 <= snd pause - fst pause ->
  fst pause + 100 <= insert_pos_of pause filler_ms /\
  insert_pos_of pause filler_ms + filler_ms + 100 <= snd pause /\
  insert_pos_of pause filler_ms - fst pause
    <= snd pause - (insert_pos_of pause filler_ms + filler_ms)
    <= insert_pos_of pause filler_ms - fst pause + 1.
Proof.
  intros Hfit. unfold insert_pos_of.
  pose proof (Z.div_mod (snd pause - fst pause - filler_ms) 2 ltac:(lia)) as Hdm.
  pose proof (Z.mod_pos_bound (snd pause - fst pause - filler_ms) 2 ltac:(lia)) as Hm.
  lia.
Qed.

(** C6: once a pause and a filler are chosen, no filler is inserted when
    the pause is shorter than the duration of the filler in milliseconds
    plus 200: the segment is returned as it is. Otherwise, when the clip
    loads, the result is the part of the segment before the insertion
    point, the clip attenuated by [FILLER_VOLUME_REDUCTION] and the part
    after it, and the filler sits in the middle of the pause: at least
    100 ms from each end, with the margin before it and the margin after
    it equal up to the millisecond lost by the integer division. *)
Theorem filler_must_fit_and_is_centered (E : Env) (main_audio : AudioSegment)
  (main_speaker : string) (filler_clips : registry) (w w1 : World)
  (pause : Z * Z) (path : string) (dur : Q) :
  select_pause_and_filler E main_audio main_speaker filler_clips w
    = (Ok (Some (pause, path, dur)), w1) ->
  let filler_ms := filler_ms_of dur in
  let insert_pos := insert_pos_of pause filler_ms in
  (snd pause - fst pause < filler_ms + 200 ->
   add_listener_responses E main_audio main_speaker filler_clips w
     = (Ok main_audio, w1)) /\
  (forall loaded : AudioSegment,
     filler_ms + 200 <= snd pause - fst pause ->
     from_wav E path w1 = (Ok loaded, w1) ->
     add_listener_responses E main_audio main_speaker filler_clips w
       = (Ok (firstn (Z.to_nat insert_pos) main_audio
              ++ apply_gain E FILLER_VOLUME_REDUCTION loaded
              ++ skipn (Z.to_nat insert_pos) main_audio), w1) /\
     fst pause + 100 <= insert_pos /\
     insert_pos + filler_ms + 100 <= snd pause /\
     insert_pos - fst pause
       <= snd pause - (insert_pos + filler_ms)
       <= insert_pos - fst pause + 1).
Proof.
  intros Hsel filler_ms insert_pos. split.
  - intros Hshort. unfold add_listener_responses, bind. rewrite Hsel.
    cbn zeta. fold filler_ms.
    destruct (Z.ltb_spec (snd pause - fst pause) (filler_ms + 200)); [reflexivity | lia].
  - intros loaded Hfit Hload.
    pose proof (insert_pos_centered pause filler_ms Hfit) as (Hlow & Hhigh & Hmid).
    fold insert_pos in Hlow, Hhigh, Hmid.
    split; [|split; [exact Hlow | split; [exact Hhigh | exact Hmid]]].
    apply select_member in Hsel as Hmem. destruct Hmem as (Hin & _).
    apply filter_In in Hin as [_ Hs]. apply is_suitable_Z in Hs as (Hs1 & _).
    assert (Hpos : 0 <= insert_pos) by (unfold len in Hs1; lia).
    unfold add_listener_responses, bind at 1. rewrite Hsel.
    cbn zeta. fold filler_ms. fold insert_pos.
    destruct (Z.ltb_spec (snd pause - fst pause) (filler_ms + 200)); [lia|].
    unfold try_except, load_filler, bind. rewrite Hload. unfold ret, splice.
    now rewrite (seg_to_firstn _ _ Hpos), (seg_from_skipn _ _ Hpos).
Qed.

Lemma filler_must_fit_and_is_centered_witness :
  add_listener_responses BarkScenario.studio BarkScenario.one_second "sandip"
    BarkScenario.aha_clips BarkScenario.aha_disk
  = (Ok (firstn 300 BarkScenario.one_second
         ++ apply_gain BarkScenario.studio FILLER_VOLUME_REDUCTION
              (repeat 10 400)
         ++ skipn 300 BarkScenario.one_second),
     snd (select_pause_and_filler BarkScenario.studio BarkScenario.one_second
            "sandip" BarkScenario.aha_clips BarkScenario.aha_disk)).
Proof.
  refine (proj1 (proj2 (filler_must_fit_and_is_centered BarkScenario.studio
                   BarkScenario.one_second "sandip" BarkScenario.aha_clips
                   BarkScenario.aha_disk _ (150, 850) "fillers/yashaha.wav" 0.4%Q _)
                   (repeat 10 400) _ _)).
  - vm_compute. reflexivity.
  - vm_compute. discriminate.
  - vm_compute. reflexivity.
Defined.

(** *** One clip at most *)

Lemma splice_shape (main_audio filler : AudioSegment) (insert_pos : Z) :
  0 < insert_pos -> 0 < len main_audio ->
  exists pos : nat,
    (0 < pos <= List.length main_audio)%nat /\
    splice main_audio insert_pos filler
      = firstn pos main_audio ++ filler ++ skipn pos main_audio /\
    List.length (splice main_audio insert_pos filler)
      = (List.length main_audio + List.length filler)%nat /\
    firstn pos (splice main_audio insert_pos filler) = firstn pos main_audio /\
    skipn (pos + List.length filler) (splice main_audio insert_pos filler)
      = skipn pos main_audio.
Proof.
  intros Hpos Hlen. exists (parse_position main_audio insert_pos).
  assert (Hp : (0 < parse_position main_audio insert_pos <= List.length main_audio)%nat).
  { rewrite parse_position_nonneg by lia. unfold len in Hlen. lia. }
  unfold splice, seg_to, seg_from.
  set (pos := parse_position main_audio insert_pos) in *.
  assert (Hfl : List.length (firstn pos main_audio) = pos)
    by (rewrite firstn_length_le; lia).
  split; [exact Hp|]. split; [reflexivity|]. split; [|split].
  - rewrite !List.length_app, Hfl, List.length_skipn. lia.
  - rewrite firstn_app, Hfl, Nat.sub_diag. simpl. rewrite app_nil_r.
    now rewrite firstn_firstn, Nat.min_id.
  - rewrite skipn_app, Hfl.
    rewrite (skipn_all2 (firstn pos main_audio)) by lia. simpl.
    replace (pos + List.length filler - pos)%nat with (List.length filler) by lia.
    rewrite skipn_app, Nat.sub_diag. simpl.
    now rewrite skipn_all2 by lia.
Qed.

(** C9: [add_listener_responses] returns, and its result is either the
    input segment or the input segment with one filler clip spliced in:
    the samples before the insertion point, the clip, the samples after
    it, so that the length is that of the input plus that of the clip. If
    loading the chosen filler raises, the input is returned. *)
Theorem at_most_one_clip_spliced_in (E : Env) (main_audio : AudioSegment)
  (main_speaker : string) (filler_clips : registry) (w : World) :
  (forall x, 0 < x -> (0 < pow15 E x)%Q) ->
  exists (r : AudioSegment) (w' : World),
    add_listener_responses E main_audio main_speaker filler_clips w = (Ok r, w') /\
    (r = main_audio \/
     exists (pos : nat) (filler : AudioSegment),
       (0 < pos <= List.length main_audio)%nat /\
       r = firstn pos main_audio ++ filler ++ skipn pos main_audio /\
       List.length r = (List.length main_audio + List.length filler)%nat /\
       firstn pos r = firstn pos main_audio /\
       skipn (pos + List.length filler) r = skipn pos main_audio) /\
    (forall (pause : Z * Z) (path : string) (dur : Q) (w1 w2 : World) (e : exn),
       select_pause_and_filler E main_audio main_speaker filler_clips w
         = (Ok (Some (pause, path, dur)), w1) ->
       load_filler E path w1 = (Raise e, w2) ->
       r = main_audio).
Proof.
  intros Hpow.
  destruct (select_total E main_audio main_speaker filler_clips w Hpow)
    as (o & w1 & Hsel).
  unfold add_listener_responses, bind at 1. rewrite Hsel.
  destruct o as [[[pause path] dur]|].
  2:{ exists main_audio, w1. split; [reflexivity|]. split; [now left|].
      intros ? ? ? ? ? ? H. discriminate H. }
  cbn zeta.
  destruct (Z.ltb_spec (snd pause - fst pause) (filler_ms_of dur + 200)) as [Hshort|Hfit].
  { exists main_audio, w1. split; [reflexivity|]. split; [now left|]. reflexivity. }
  unfold try_except, bind at 1.
  destruct (load_filler E path w1) as [[filler|e] w2] eqn:Hload.
  - eexists _, _. split; [reflexivity|]. split.
    + right.
      apply select_member in Hsel as (Hin & _).
      apply filter_In in Hin as [_ Hs]. apply is_suitable_Z in Hs as (Hs1 & Hs2 & Hs3).
      pose proof (insert_pos_centered pause (filler_ms_of dur) Hfit) as (Hlow & _).
      unfold MIN_SILENCE_FOR_FILLER in Hs3.
      destruct (splice_shape main_audio filler
                  (insert_pos_of pause (filler_ms_of dur))) as (pos & H);
        [unfold len in *; lia | lia |].
      exists pos, filler. exact H.
    + intros pause' path' dur' w1' w2' e' H. injection H as <- <- <- <-.
      rewrite Hload. discriminate.
  - eexists _, _. unfold bind, logger_error, emit, ret.
    split; [reflexivity|]. split; [now left | reflexivity].
Qed.

Lemma studio_pow15_positive :
  forall x, 0 < x -> (0 < pow15 BarkScenario.studio x)%Q.
Proof.
  intros x Hx. simpl. unfold Qlt. simpl.
  pose proof (Z.sqrt_pos x) as [_ Hs]. specialize (Hs Hx). nia.
Qed.

Lemma at_most_one_clip_spliced_in_witness :
  exists (r : AudioSegment) (w' : World),
    add_listener_responses BarkScenario.studio BarkScenario.one_second "sandip"
      BarkScenario.aha_clips BarkScenario.aha_disk = (Ok r, w') /\
    (r = BarkScenario.one_second \/
     exists (pos : nat) (filler : AudioSegment),
       (0 < pos <= List.length BarkScenario.one_second)%nat /\
       r = firstn pos BarkScenario.one_second ++ filler
           ++ skipn pos BarkScenario.one_second /\
       List.length r = (List.length BarkScenario.one_second + List.length filler)%nat /\
       firstn pos r = firstn pos BarkScenario.one_second /\
       skipn (pos + List.length filler) r = skipn pos BarkScenario.one_second) /\
    (forall (pause : Z * Z) (path : string) (dur : Q) (w1 w2 : World) (e : exn),
       select_pause_and_filler BarkScenario.studio BarkScenario.one_second "sandip"
         BarkScenario.aha_clips BarkScenario.aha_disk
         = (Ok (Some (pause, path, dur)), w1) ->
       load_filler BarkScenario.studio path w1 = (Raise e, w2) ->
       r = BarkScenario.one_second).
Proof.
  apply (at_most_one_clip_spliced_in BarkScenario.studio BarkScenario.one_second
           "sandip" BarkScenario.aha_clips BarkScenario.aha_disk).
  exact studio_pow15_positive.
Defined.

(** *** Who answers *)

Lemma other_speaker_differs (main_speaker : string) :
  other_speaker_of main_speaker <> main_speaker.
Proof.
  unfold other_speaker_of.
  destruct (String.eqb_spec main_speaker "sandip") as [->|Hne]; [discriminate|].
  congruence.
Qed.

Lemma available_fillers_member (other_speaker : string) (filler_clips : registry)
  (path : string) (dur : Q) :
  In (path, dur) (available_fillers_of other_speaker filler_clips) ->
  exists text, In ((text, other_speaker), (path, "acknowledgment", dur)) filler_clips.
Proof.
  unfold available_fillers_of. intros H. apply in_flat_map in H as (kv & Hin & Hkv).
  destruct kv as [[text spkr] [[p typ] d]].
  destruct (String.eqb_spec spkr other_speaker) as [->|]; [|destruct Hkv].
  destruct (String.eqb_spec typ "acknowledgment") as [->|]; [|destruct Hkv].
  destruct Hkv as [Heq|[]]. injection Heq as -> ->. now exists text.
Qed.

Lemma acknowledgment_files_apart (j j' : Filler * string) :
  In j (jobs_of FILLERS) -> In j' (jobs_of FILLERS) ->
  f_type (fst j) = "acknowledgment" -> f_type (fst j') = "agreement" ->
  filler_filename (snd j) (f_text (fst j)) <> filler_filename (snd j') (f_text (fst j')).
Proof.
  intros Hj Hj' Ht Ht'.
  assert (H : distinct_files = true) by (vm_compute; reflexivity).
  unfold distinct_files in H.
  pose proof (proj1 (List.forallb_forall _ _) H j Hj) as H1.
  cbv beta in H1. rewrite Ht, String.eqb_refl in H1. cbn [negb orb] in H1.
  pose proof (proj1 (List.forallb_forall _ _) H1 j' Hj') as H2.
  cbv beta in H2. rewrite Ht', String.eqb_refl in H2. cbn [negb orb] in H2.
  clear H H1. rename H2 into H.
  apply negb_true_iff in H. now apply String.eqb_neq in H.
Qed.

Lemma agreement_job (f : Filler) (sp : string) :
  In f FILLERS -> f_type f = "agreement" -> In sp (map fst VOICES) ->
  In (f, sp) (jobs_of FILLERS) /\
  exists v, voice_of sp = Some v /\ In (f_text f, v) filler_requests.
Proof.
  intros Hf Ht Hsp.
  assert (Hany : f_speaker f = "any").
  { simpl in Hf. repeat (destruct Hf as [<-|Hf]; [reflexivity|]). destruct Hf. }
  split.
  - unfold jobs_of. apply in_flat_map. exists f. split; [exact Hf|].
    apply in_map. unfold speakers_of. now rewrite Hany.
  - simpl in Hsp. destruct Hsp as [<-|[<-|[]]].
    + exists "voice_clone_of_sandip.npz". split; [reflexivity|].
      unfold filler_requests. apply in_flat_map. exists f. split; [exact Hf|].
      simpl. now left.
    + exists "voice_clone_of_yash.npz". split; [reflexivity|].
      unfold filler_requests. apply in_flat_map. exists f. split; [exact Hf|].
      simpl. right. now left.
Qed.

(** C10: a filler chosen for insertion is a clip of type acknowledgment
    registered for the speaker other than the one of the line. The fillers
    of type agreement are [that's true] and [exactly]; the speech model is
    called for each of them in each voice, a clip registered for one has
    its file on disk, and no filler chosen for insertion is that file. *)
Theorem only_acknowledgments_of_the_listener (E : Env) :
  (forall (main_audio : AudioSegment) (main_speaker : string)
          (filler_clips : registry) (w w1 : World)
          (pause : Z * Z) (path : string) (dur : Q),
     select_pause_and_filler E main_audio main_speaker filler_clips w
       = (Ok (Some (pause, path, dur)), w1) ->
     other_speaker_of main_speaker <> main_speaker /\
     exists text,
       In ((text, other_speaker_of main_speaker), (path, "acknowledgment", dur))
          filler_clips) /\
  map f_text (List.filter (fun f => String.eqb (f_type f) "agreement") FILLERS)
    = ["that's true"; "exactly"] /\
  (forall (w : World) (f : Filler) (sp : string),
     In f FILLERS -> f_type f = "agreement" -> In sp (map fst VOICES) ->
     let clips := fst (ensure_filler_clips E w) in
     let w1 := snd (ensure_filler_clips E w) in
     (exists v, voice_of sp = Some v /\ In (f_text f, v) (synth_calls (log w1))) /\
     (forall value, In ((f_text f, sp), value) clips ->
        snd (fst value) = "agreement" /\
        fst (fst value) = filler_filename sp (f_text f) /\
        is_Some (fs w1 !! filler_filename sp (f_text f))) /\
     (forall (main_audio : AudioSegment) (main_speaker : string) (w2 w3 : World)
             (pause : Z * Z) (path : string) (dur : Q),
        select_pause_and_filler E main_audio main_speaker clips w2
          = (Ok (Some (pause, path, dur)), w3) ->
        path <> filler_filename sp (f_text f))).
Proof.
  split; [|split; [reflexivity|]].
  - intros main_audio main_speaker filler_clips w w1 pause path dur Hsel.
    split; [apply other_speaker_differs|].
    apply select_member in Hsel as (_ & Hav & _).
    now apply available_fillers_member.
  - intros w f sp Hf Ht Hsp clips w1.
    destruct (agreement_job f sp Hf Ht Hsp) as (Hjob & v & Hv & Hreq).
    destruct (ensure_filler_clips_spec E w) as (Hs & _ & _ & _ & Hok).
    fold clips in Hok. fold w1 in Hs, Hok. rewrite Forall_forall in Hok.
    split; [|split].
    + exists v. split; [exact Hv|]. rewrite Hs. apply in_or_app. now right.
    + intros value Hin. apply list_elem_of_In in Hin.
      destruct (Hok _ Hin) as (j & Hj & Hk & Hp & Hty & Hfile).
      destruct j as [f' sp']. unfold job_key in Hk. simpl in Hk, Hp, Hty.
      injection Hk as Htext ->.
      assert (f' = f) as ->.
      { clear - Hf Hj Htext. unfold jobs_of in Hj.
        apply in_flat_map in Hj as (g & Hg & Hin).
        apply in_map_iff in Hin as (s & Heq & _). injection Heq as -> _.
        simpl in Hf, Hg.
        repeat (destruct Hf as [<-|Hf];
                [repeat (destruct Hg as [<-|Hg]; [first [reflexivity|discriminate]|]);
                 destruct Hg |]).
        destruct Hf. }
      unfold clip_path, clip_type in *. simpl in *.
      split; [congruence|]. split; [exact Hp|]. now rewrite <- Hp.
    + intros main_audio main_speaker w2 w3 pause path dur Hsel.
      apply select_member in Hsel as (_ & Hav & _).
      apply available_fillers_member in Hav as (text & Hin).
      apply list_elem_of_In in Hin.
      destruct (Hok _ Hin) as (j & Hj & Hk & Hp & Hty & _).
      unfold clip_path, clip_type in *. simpl in Hp, Hty. subst path.
      apply (acknowledgment_files_apart j (f, sp)); auto.
Qed.

Lemma only_acknowledgments_of_the_listener_witness :
  other_speaker_of "sandip" <> "sandip" /\
  exists text,
    In ((text, other_speaker_of "sandip"),
        ("fillers/yashaha.wav", "acknowledgment", 0.4%Q))
       BarkScenario.aha_clips.
Proof.
  refine (proj1 (only_acknowledgments_of_the_listener BarkScenario.studio)
            BarkScenario.one_second "sandip" BarkScenario.aha_clips
            BarkScenario.aha_disk
            (snd (select_pause_and_filler BarkScenario.studio
                    BarkScenario.one_second "sandip" BarkScenario.aha_clips
                    BarkScenario.aha_disk))
            (150, 850) "fillers/yashaha.wav" 0.4%Q _).
  vm_compute. reflexivity.
Defined.

(** In the studio the agreement clips are made and never chosen: the
    listener of a line of sandip answers [aha]. *)
Example studio_agreements :
  let r := ensure_filler_clips BarkScenario.studio BarkScenario.w0 in
  List.filter (fun kv => String.eqb (clip_type kv) "agreement") (fst r)
  = [ (("that's true", "sandip"), ("fillers/sandipthat'strue.wav", "agreement", (1800 # 2000)%Q));
      (("that's true", "yash"), ("fillers/yashthat'strue.wav", "agreement", (1800 # 2000)%Q));
      (("exactly", "sandip"), ("fillers/sandipexactly.wav", "agreement", (1500 # 2000)%Q));
      (("exactly", "yash"), ("fillers/yashexactly.wav", "agreement", (1500 # 2000)%Q)) ] /\
  fst (select_pause_and_filler BarkScenario.studio BarkScenario.one_second "sandip"
         (fst r) (snd r))
  = Ok (Some ((150, 850), "fillers/yashaha.wav", (800 # 2000)%Q)).
Proof. vm_compute. split; reflexivity. Qed.

End BarkProps.

(** ** Properties of the weighted choice of a pause *)

Module ExactProps.

Import Bark BarkProps Exact.
Local Open Scope R_scope.

Lemma Rltb_lt (x y : R) : Rltb x y = true <-> x < y.
Proof. unfold Rltb. destruct (Rlt_dec x y); split; intros; auto; discriminate. Qed.

Lemma Rltb_ge (x y : R) : Rltb x y = false <-> y <= x.
Proof.
  unfold Rltb. destruct (Rlt_dec x y); split; intros; auto; try discriminate; lra.
Qed.

Lemma sum_first_nonneg (ws : list R) :
  Forall (fun x => 0 < x) ws -> forall i, 0 <= sum_first 0 Rplus i ws.
Proof.
  induction ws as [|x ws IH]; intros Hpos i.
  - destruct i; simpl; lra.
  - apply Forall_cons_1 in Hpos as [Hx Hpos]. destruct i as [|i]; simpl; [lra|].
    specialize (IH Hpos i). lra.
Qed.

(** The chunk of the cumulative weights where [x] falls. *)
Lemma bisect_accumulate_from (ws : list R) :
  Forall (fun x => 0 < x) ws ->
  forall (acc x : R) (hi i : nat),
    acc <= x -> (hi <= List.length ws)%nat ->
    (bisect Rltb (accumulate_from Rplus acc ws) x hi = i <->
     (i <= hi)%nat /\ acc + sum_first 0 Rplus i ws <= x /\
     ((i < hi)%nat -> x < acc + sum_first 0 Rplus (S i) ws)).
Proof.
  induction ws as [|w0 ws IH]; intros Hpos acc x hi i Hacc Hhi.
  - simpl in Hhi. assert (hi = O) as -> by lia. simpl. split.
    + intros <-. simpl. repeat split; [lia | lra | lia].
    + intros (Hi & _). lia.
  - apply Forall_cons_1 in Hpos as [Hw0 Hpos].
    destruct hi as [|hi].
    + simpl. split.
      * intros <-. simpl. repeat split; [lia | lra | lia].
      * intros (Hi & _). lia.
    + simpl. destruct (Rltb x (acc + w0)) eqn:Hcmp.
      * apply Rltb_lt in Hcmp. split.
        -- intros <-. simpl. repeat split; [lia | lra | intros _; lra].
        -- intros (Hi & Hlow & _). destruct i as [|i]; [reflexivity|].
           simpl in Hlow. pose proof (sum_first_nonneg ws Hpos i). lra.
      * apply Rltb_ge in Hcmp. simpl in Hhi.
        destruct i as [|i].
        -- split; [discriminate|]. intros (_ & _ & Hup). simpl in Hup.
           specialize (Hup ltac:(lia)). lra.
        -- specialize (IH Hpos (acc + w0) x hi i Hcmp ltac:(lia)).
           split.
           ++ intros H. injection H as H. apply IH in H as (H1 & H2 & H3).
              simpl. repeat split; [lia | lra |]. intros Hlt.
              specialize (H3 ltac:(lia)). simpl in H3. lra.
           ++ intros (H1 & H2 & H3). f_equal. apply IH.
              simpl in H2. repeat split; [lia | lra |]. intros Hlt.
              specialize (H3 ltac:(lia)). simpl in H3. simpl. lra.
Qed.

Lemma accumulate_from_zero (ws : list R) :
  accumulate Rplus ws = accumulate_from Rplus 0 ws.
Proof. destruct ws as [|x ws]; simpl; [reflexivity|]. now rewrite Rplus_0_l. Qed.

Lemma last_accumulate_from (ws : list R) :
  ws <> [] ->
  forall acc,
    last (accumulate_from Rplus acc ws)
    = Some (acc + sum_first 0 Rplus (List.length ws) ws).
Proof.
  induction ws as [|x ws IH]; intros Hne acc; [congruence|].
  destruct ws as [|y ws].
  - simpl. f_equal. ring.
  - specialize (IH ltac:(discriminate) (acc + x)).
    change (accumulate_from Rplus acc (x :: y :: ws))
      with ((acc + x) :: accumulate_from Rplus (acc + x) (y :: ws)).
    change (accumulate_from Rplus (acc + x) (y :: ws))
      with ((acc + x + y) :: accumulate_from Rplus (acc + x + y) ws) in *.
    rewrite last_cons_cons, IH. f_equal.
    change (sum_first 0 Rplus (List.length (x :: y :: ws)) (x :: y :: ws))
      with (x + sum_first 0 Rplus (List.length (y :: ws)) (y :: ws)).
    ring.
Qed.

Lemma weights_positive (ps : list (Z * Z)) : Forall (fun x => 0 < x) (weights ps).
Proof.
  unfold weights. apply Forall_forall. intros x Hx. apply list_elem_of_In in Hx.
  apply in_map_iff in Hx as (p & <- & _). unfold weight, Rpower. apply exp_pos.
Qed.

Lemma sum_first_step (ws : list R) :
  forall (i : nat) (x : R),
    nth_error ws i = Some x ->
    sum_first 0 Rplus (S i) ws = sum_first 0 Rplus i ws + x.
Proof.
  induction ws as [|y ws IH]; intros i x Hn; [destruct i; discriminate|].
  destruct i as [|i].
  - simpl in *. injection Hn as <-. destruct ws; ring.
  - simpl in Hn. specialize (IH i x Hn).
    change (sum_first 0 Rplus (S (S i)) (y :: ws))
      with (y + sum_first 0 Rplus (S i) ws).
    rewrite IH. simpl. ring.
Qed.

Lemma sum_first_le_total (ws : list R) :
  Forall (fun x => 0 < x) ws ->
  forall i, (i <= List.length ws)%nat ->
  sum_first 0 Rplus i ws <= sum_first 0 Rplus (List.length ws) ws.
Proof.
  induction ws as [|x ws IH]; intros Hpos i Hi.
  - destruct i; simpl; lra.
  - apply Forall_cons_1 in Hpos as [Hx Hpos]. destruct i as [|i].
    + simpl. pose proof (sum_first_nonneg ws Hpos (List.length ws)). lra.
    + simpl in *. specialize (IH Hpos i ltac:(lia)). lra.
Qed.

Lemma total_positive (ps : list (Z * Z)) : ps <> [] -> 0 < total ps.
Proof.
  intros Hne. unfold total. pose proof (weights_positive ps) as Hpos.
  unfold weights in *. destruct ps as [|p ps]; [congruence|].
  simpl in *. apply Forall_cons_1 in Hpos as [Hp Hpos].
  pose proof (sum_first_nonneg _ Hpos (List.length ps)). lra.
Qed.


Lemma div_le_iff (a b c : R) : 0 < c -> (a / c <= b <-> a <= b * c).
Proof.
  intros Hc. split; intros H.
  - replace a with (a / c * c) by (field; lra). apply Rmult_le_compat_r; lra.
  - replace b with (b * c / c) by (field; lra).
    unfold Rdiv. apply Rmult_le_compat_r; [|exact H].
    left. now apply Rinv_0_lt_compat.
Qed.

Lemma lt_div_iff (a b c : R) : 0 < c -> (a < b / c <-> a * c < b).
Proof.
  intros Hc. split; intros H.
  - replace b with (b / c * c) by (field; lra). apply Rmult_lt_compat_r; lra.
  - replace a with (a * c / c) by (field; lra).
    unfold Rdiv. apply Rmult_lt_compat_r; [|exact H].
    now apply Rinv_0_lt_compat.
Qed.

(** The draws [u] for which [random.choices] returns the index [i]. *)
Lemma choices_index_interval (ps : list (Z * Z)) (u : R) (i : nat) :
  0 <= u < 1 -> (i < List.length ps)%nat ->
  (choices_index 0 Rplus Rmult Rltb (weights ps) u = Some i <->
   sum_first 0 Rplus i (weights ps) <= u * total ps
   /\ u * total ps < sum_first 0 Rplus (S i) (weights ps)).
Proof.
  intros Hu Hi.
  assert (Hne : ps <> []) by (intros ->; simpl in Hi; lia).
  pose proof (total_positive ps Hne) as HT.
  pose proof (weights_positive ps) as Hpos.
  assert (Hlen : List.length (weights ps) = List.length ps)
    by (unfold weights; apply length_map).
  assert (Hwne : weights ps <> []) by (intros H; rewrite H in Hlen; simpl in Hlen; lia).
  unfold choices_index, total_weight.
  rewrite accumulate_from_zero, (last_accumulate_from _ Hwne 0), Rplus_0_l, Hlen.
  fold (total ps). apply Rltb_lt in HT as HTb. rewrite HTb.
  pose proof (bisect_accumulate_from (weights ps) Hpos 0 (u * total ps)
                (Nat.pred (List.length ps)) i) as Hb.
  rewrite !Rplus_0_l in Hb.
  assert (H0 : 0 <= u * total ps) by nra.
  specialize (Hb H0 ltac:(lia)).
  assert (Hlast : (i = Nat.pred (List.length ps))%nat ->
                  u * total ps < sum_first 0 Rplus (S i) (weights ps)).
  { intros ->. replace (S (Nat.pred (List.length ps))) with (List.length ps) by lia.
    fold (total ps). nra. }
  split.
  - intros H. injection H as H. apply Hb in H as (H1 & H2 & H3).
    split; [exact H2|].
    destruct (Nat.eq_dec i (Nat.pred (List.length ps))) as [Heq|Hneq].
    + now apply Hlast.
    + apply H3. lia.
  - intros [H1 H2]. f_equal. apply Hb. repeat split; [lia | exact H1 | intros _; exact H2].
Qed.

Lemma weight_superlinear (a b : Z) :
  (0 < a < b)%Z ->
  Rpower (IZR b) 1.5 / Rpower (IZR a) 1.5 > IZR b / IZR a.
Proof.
  intros [Ha Hab].
  assert (HA : 0 < IZR a) by now apply IZR_lt.
  assert (HAB : IZR a < IZR b) by now apply IZR_lt.
  assert (Hsplit : forall x, 0 < x -> Rpower x 1.5 = x * Rpower x 0.5).
  { intros x Hx. replace 1.5 with (1 + 0.5) by lra.
    now rewrite Rpower_plus, Rpower_1. }
  rewrite (Hsplit (IZR a) HA), (Hsplit (IZR b)) by lra.
  assert (Hroot : Rpower (IZR a) 0.5 < Rpower (IZR b) 0.5)
    by (apply Rlt_Rpower_l; lra).
  assert (Hra : 0 < Rpower (IZR a) 0.5) by (unfold Rpower; apply exp_pos).
  unfold Rdiv. rewrite Rinv_mult.
  assert (Hia : 0 < / IZR a) by now apply Rinv_0_lt_compat.
  assert (Hira : 0 < / Rpower (IZR a) 0.5) by now apply Rinv_0_lt_compat.
  assert (Hratio : 1 < Rpower (IZR b) 0.5 * / Rpower (IZR a) 0.5).
  { apply (Rmult_lt_reg_r (Rpower (IZR a) 0.5)); [exact Hra|].
    rewrite Rmult_assoc, Rinv_l by lra. lra. }
  assert (Hba : 0 < IZR b * / IZR a) by (apply Rmult_lt_0_compat; lra).
  nra.
Qed.

(** The choice with the exact weights [(end - start) ** 1.5], over the
    reals: with [u] the value that [random()] returns, the candidate of
    index [i] is chosen exactly when [u] falls in an interval whose length
    is the weight of that candidate divided by the total weight; and the
    longer of two pauses is favoured more than in proportion to the
    lengths. *)
Lemma exact_choice_in_proportion (ps : list (Z * Z)) (u : R) (i : nat)
  (p : Z * Z) :
  0 <= u < 1 -> nth_error ps i = Some p ->
  (choices_index 0 Rplus Rmult Rltb (weights ps) u = Some i <->
   share_before ps i <= u < share_before ps (S i)) /\
  (choices_index 0 Rplus Rmult Rltb (weights ps) u = Some i ->
   choose_pause ps u = Some p) /\
  share_before ps (S i) - share_before ps i
    = Rpower (IZR (snd p - fst p)) 1.5 / total ps /\
  (forall q, In q ps -> (0 < snd p - fst p < snd q - fst q)%Z ->
             weight q / weight p > IZR (snd q - fst q) / IZR (snd p - fst p)).
Proof.
  intros Hu Hp.
  assert (Hi : (i < List.length ps)%nat) by (apply nth_error_Some; congruence).
  assert (Hne : ps <> []) by (intros ->; simpl in Hi; lia).
  pose proof (total_positive ps Hne) as HT.
  split; [|split; [|split]].
  - rewrite (choices_index_interval ps u i Hu Hi). unfold share_before.
    rewrite (div_le_iff _ _ _ HT), (lt_div_iff _ _ _ HT). reflexivity.
  - intros H. unfold choose_pause. now rewrite H.
  - unfold share_before.
    rewrite (sum_first_step (weights ps) i (weight p)).
    + unfold weight. field. lra.
    + unfold weights. rewrite nth_error_map, Hp. reflexivity.
  - intros q _ Hlen. unfold weight. now apply weight_superlinear.
Qed.

Lemma Rpower_three_halves (r : R) : 0 < r -> Rpower (r * r) 1.5 = r * r * r.
Proof.
  intros Hr. replace 1.5 with (1 + / 2) by lra.
  rewrite Rpower_plus, Rpower_1, Rpower_sqrt by nra.
  rewrite sqrt_square by lra. ring.
Qed.

(** Two candidates of 400 ms and 900 ms have the weights 8000 and 27000:
    the second, 2.25 times as long, is chosen 3.375 times as often. *)
Example shares_of_two_pauses :
  share_before [(100, 500); (600, 1500)]%Z 1 = 8 / 35 /\
  share_before [(100, 500); (600, 1500)]%Z 2 = 1.
Proof.
  unfold share_before, total, weights, weight. simpl.
  change (500 - 100)%Z with 400%Z. change (1500 - 600)%Z with 900%Z.
  replace (IZR 400) with (20 * 20) by lra.
  replace (IZR 900) with (30 * 30) by lra.
  rewrite !Rpower_three_halves by lra. split; field.
Qed.

(** *** The choice of the script *)

Lemma Qltb_Rltb (x y : Q) : Qltb x y = Rltb (Q2R x) (Q2R y).
Proof.
  destruct (Rltb (Q2R x) (Q2R y)) eqn:H.
  - apply Rltb_lt in H. apply Qltb_lt. now apply Rlt_Qlt.
  - apply Rltb_ge in H. destruct (Qltb x y) eqn:Hq; [|reflexivity].
    apply Qltb_lt, Qlt_Rlt in Hq. lra.
Qed.

Lemma accumulate_from_Q2R (ws : list Q) :
  forall acc : Q,
    map Q2R (accumulate_from Qplus acc ws)
    = accumulate_from Rplus (Q2R acc) (map Q2R ws).
Proof.
  induction ws as [|x ws IH]; intros acc; [reflexivity|].
  simpl. now rewrite IH, Q2R_plus.
Qed.

Lemma accumulate_Q2R (ws : list Q) :
  map Q2R (accumulate Qplus ws) = accumulate Rplus (map Q2R ws).
Proof. destruct ws as [|x ws]; simpl; [reflexivity|]. now rewrite accumulate_from_Q2R. Qed.

Lemma last_map_Q2R (l : list Q) : last (map Q2R l) = Q2R <$> last l.
Proof.
  induction l as [|x l IH]; [reflexivity|].
  destruct l as [|y l]; [reflexivity|].
  change (map Q2R (x :: y :: l)) with (Q2R x :: Q2R y :: map Q2R l).
  rewrite !last_cons_cons. exact IH.
Qed.

Lemma bisect_Q2R (a : list Q) :
  forall (x : Q) (hi : nat),
    bisect Qltb a x hi = bisect Rltb (map Q2R a) (Q2R x) hi.
Proof.
  induction a as [|c a IH]; intros x hi; destruct hi as [|hi]; try reflexivity.
  simpl. rewrite Qltb_Rltb, IH. reflexivity.
Qed.

Lemma Q2R_zero : Q2R 0 = 0.
Proof. unfold Q2R. simpl. lra. Qed.

(** The choice among rational weights is the choice among their reals. *)
Lemma choices_index_Q2R (ws : list Q) (u : Q) :
  choices_index 0%Q Qplus Qmult Qltb ws u
  = choices_index 0 Rplus Rmult Rltb (map Q2R ws) (Q2R u).
Proof.
  unfold choices_index, total_weight.
  rewrite <- accumulate_Q2R, last_map_Q2R.
  destruct (last (accumulate Qplus ws)) as [total|]; [|reflexivity].
  cbn [fmap option_fmap option_map]. rewrite Qltb_Rltb, Q2R_zero.
  destruct (Rltb 0 (Q2R total)); [|reflexivity].
  now rewrite bisect_Q2R, Q2R_mult, length_map.
Qed.

Lemma sum_first_all_positive (ws : list R) :
  Forall (fun x => 0 < x) ws -> ws <> [] ->
  0 < sum_first 0 Rplus (List.length ws) ws.
Proof.
  intros Hpos Hne. destruct ws as [|x ws]; [congruence|].
  apply Forall_cons_1 in Hpos as [Hx Hpos]. simpl.
  pose proof (sum_first_nonneg ws Hpos (List.length ws)). lra.
Qed.

(** The draws for which [random.choices] returns the index [i], for any
    positive weights. *)
Lemma choices_index_interval_pos (ws : list R) (u : R) (i : nat) :
  Forall (fun x => 0 < x) ws -> 0 <= u < 1 -> (i < List.length ws)%nat ->
  (choices_index 0 Rplus Rmult Rltb ws u = Some i <->
   sum_first 0 Rplus i ws <= u * sum_first 0 Rplus (List.length ws) ws
   /\ u * sum_first 0 Rplus (List.length ws) ws < sum_first 0 Rplus (S i) ws).
Proof.
  intros Hpos Hu Hi.
  assert (Hne : ws <> []) by (intros ->; simpl in Hi; lia).
  pose proof (sum_first_all_positive ws Hpos Hne) as HT.
  set (T := sum_first 0 Rplus (List.length ws) ws) in *.
  unfold choices_index, total_weight.
  rewrite accumulate_from_zero, (last_accumulate_from _ Hne 0), Rplus_0_l.
  fold T. apply Rltb_lt in HT as HTb. rewrite HTb.
  pose proof (bisect_accumulate_from ws Hpos 0 (u * T)
                (Nat.pred (List.length ws)) i) as Hb.
  rewrite !Rplus_0_l in Hb.
  assert (H0 : 0 <= u * T) by nra.
  specialize (Hb H0 ltac:(lia)).
  assert (Hlast : (i = Nat.pred (List.length ws))%nat ->
                  u * T < sum_first 0 Rplus (S i) ws).
  { intros ->. replace (S (Nat.pred (List.length ws))) with (List.length ws) by lia.
    fold T. nra. }
  split.
  - intros H. injection H as H. apply Hb in H as (H1 & H2 & H3).
    split; [exact H2|].
    destruct (Nat.eq_dec i (Nat.pred (List.length ws))) as [Heq|Hneq].
    + now apply Hlast.
    + apply H3. lia.
  - intros [H1 H2]. f_equal. apply Hb. repeat split; [lia | exact H1 | intros _; exact H2].
Qed.

(** *** The weights of the script against the real powers *)

Lemma within_bounds (E : Env) (eps : R) (ps : list (Z * Z)) (q : Z * Z) :
  pow15_within E eps ps -> In q ps ->
  (1 - eps) * weight q <= Q2R (pow15 E (snd q - fst q)) <= (1 + eps) * weight q.
Proof.
  intros Hw Hq. specialize (Hw q Hq).
  unfold Rabs in Hw. destruct (Rcase_abs _) in Hw; lra.
Qed.

Lemma weight_positive (q : Z * Z) : 0 < weight q.
Proof. unfold weight, Rpower. apply exp_pos. Qed.

Lemma float_weights_positive (E : Env) (eps : R) (ps : list (Z * Z)) :
  0 <= eps < 1 -> pow15_within E eps ps ->
  Forall (fun x => 0 < x) (float_weights E ps).
Proof.
  intros Heps Hw. unfold float_weights, pause_weights. rewrite map_map.
  apply Forall_forall. intros x Hx. apply list_elem_of_In in Hx.
  apply in_map_iff in Hx as (q & <- & Hq).
  pose proof (within_bounds E eps ps q Hw Hq) as [Hlo _].
  pose proof (weight_positive q). nra.
Qed.

(** The partial sums of the script's weights are within the same relative
    error of those of the real powers. *)
Lemma sum_first_within (E : Env) (eps : R) :
  forall (ps : list (Z * Z)) (i : nat),
    (forall q, In q ps ->
       (1 - eps) * weight q <= Q2R (pow15 E (snd q - fst q)) <= (1 + eps) * weight q) ->
    (1 - eps) * sum_first 0 Rplus i (weights ps)
    <= sum_first 0 Rplus i (float_weights E ps)
    <= (1 + eps) * sum_first 0 Rplus i (weights ps).
Proof.
  induction ps as [|p ps IH]; intros i Hw.
  - destruct i; simpl; lra.
  - destruct i as [|i]; [simpl; lra|].
    assert (Hp := Hw p (or_introl eq_refl)).
    assert (Hrest : forall q, In q ps ->
              (1 - eps) * weight q <= Q2R (pow15 E (snd q - fst q))
              <= (1 + eps) * weight q).
    { intros q Hq. apply Hw. now right. }
    specialize (IH i Hrest).
    unfold float_weights, pause_weights, weights in *. simpl. lra.
Qed.

(** *** [random.choices] in the script *)

(** What [random.choices] returns is the element at the index chosen for
    the variate it draws. *)
Lemma choices_at_chosen_index (E : Env) (ps : list (Z * Z)) (w : World) (j : nat)
  (q : Z * Z) :
  chosen_index E ps (variate E (rand_n w)) = Some j ->
  nth_error ps j = Some q ->
  fst (choices E ps (pause_weights E ps) w) = Ok q.
Proof.
  unfold chosen_index, choices_index, choices.
  destruct (total_weight Qplus (pause_weights E ps)) as [total|]; [|discriminate].
  destruct (Qltb 0 total); [|discriminate].
  intros H Hq. injection H as H. unfold bind, random. cbn zeta.
  fold (variate E (rand_n w)).
  assert (Hlen : List.length (pause_weights E ps) = List.length ps)
    by apply length_map.
  rewrite Hlen in H. rewrite H, Hq. reflexivity.
Qed.

Lemma choices_gives_chosen_index (E : Env) (ps : list (Z * Z)) (w w' : World)
  (q : Z * Z) :
  choices E ps (pause_weights E ps) w = (Ok q, w') ->
  exists j, chosen_index E ps (variate E (rand_n w)) = Some j /\
            nth_error ps j = Some q.
Proof.
  unfold chosen_index, choices_index, choices.
  destruct (total_weight Qplus (pause_weights E ps)) as [total|]; [|discriminate].
  destruct (Qltb 0 total); [|discriminate].
  unfold bind, random. cbn zeta.
  fold (variate E (rand_n w)).
  assert (Hlen : List.length (pause_weights E ps) = List.length ps)
    by apply length_map.
  rewrite Hlen.
  destruct (nth_error ps _) as [x|] eqn:Hn; [|discriminate].
  unfold ret. intros H. injection H as <- _. eauto.
Qed.

(** The pause that [add_listener_responses] selects is the one that
    [random.choices] picks with the second variate drawn. *)
Lemma select_uses_choices (E : Env) (main_audio : AudioSegment)
  (main_speaker : string) (filler_clips : registry) (w w' : World)
  (pause : Z * Z) (path : string) (dur : Q) :
  select_pause_and_filler E main_audio main_speaker filler_clips w
    = (Ok (Some (pause, path, dur)), w') ->
  exists j,
    chosen_index E (suitable_pauses_of main_audio (find_conversation_pauses E main_audio))
      (variate E (S (rand_n w))) = Some j /\
    nth_error (suitable_pauses_of main_audio (find_conversation_pauses E main_audio)) j
      = Some pause.
Proof.
  unfold select_pause_and_filler. unfold bind at 1.
  destruct (is_nil (find_conversation_pauses E main_audio)).
  { simpl. discriminate. }
  unfold bind at 1. destruct (random_spec E w) as (u & _ & _ & ->).
  unfold ret at 1. destruct (Qltb ACKNOWLEDGMENT_PROBABILITY u); [discriminate|].
  cbn zeta. destruct (is_nil (suitable_pauses_of _ _)); [discriminate|].
  unfold bind at 1.
  destruct (choices E _ _ _) as [[p|e] w1] eqn:Hc; [|discriminate].
  apply choices_gives_chosen_index in Hc. cbn [rand_n] in Hc.
  destruct (is_nil (available_fillers_of _ _)); [discriminate|].
  unfold bind at 1.
  destruct (choice E _ w1) as [[c|e] w2]; [|discriminate].
  unfold ret. intros H. injection H as <- _ _ _. exact Hc.
Qed.

Lemma float_share_step (E : Env) (ps : list (Z * Z)) (i : nat) (p : Z * Z) :
  nth_error ps i = Some p -> float_total E ps <> 0 ->
  float_share_before E ps (S i) - float_share_before E ps i
  = Q2R (pow15 E (snd p - fst p)) / float_total E ps.
Proof.
  intros Hp HT. unfold float_share_before.
  rewrite (sum_first_step (float_weights E ps) i (Q2R (pow15 E (snd p - fst p)))).
  - field. exact HT.
  - unfold float_weights, pause_weights. rewrite !nth_error_map, Hp. reflexivity.
Qed.

Lemma ratio_within (a b x y eps : R) :
  0 <= eps < 1 -> 0 < x -> 0 < y ->
  (1 - eps) * x <= a <= (1 + eps) * x ->
  (1 - eps) * y <= b <= (1 + eps) * y ->
  (1 - eps) / (1 + eps) * (x / y) <= a / b <= (1 + eps) / (1 - eps) * (x / y).
Proof.
  intros Heps Hx Hy Ha Hb.
  assert (Hb0 : 0 < b) by nra.
  split.
  - apply (Rmult_le_reg_r b); [exact Hb0|].
    replace (a / b * b) with a by (field; lra).
    apply Rle_trans with ((1 - eps) / (1 + eps) * (x / y) * ((1 + eps) * y)).
    + apply Rmult_le_compat_l; [|lra].
      apply Rmult_le_pos.
      * apply Rmult_le_pos; [lra|]. left. apply Rinv_0_lt_compat. lra.
      * apply Rmult_le_pos; [lra|]. left. now apply Rinv_0_lt_compat.
    + replace ((1 - eps) / (1 + eps) * (x / y) * ((1 + eps) * y))
        with ((1 - eps) * x) by (field; lra).
      lra.
  - apply (Rmult_le_reg_r b); [exact Hb0|].
    replace (a / b * b) with a by (field; lra).
    apply Rle_trans with ((1 + eps) / (1 - eps) * (x / y) * ((1 - eps) * y)).
    + replace ((1 + eps) / (1 - eps) * (x / y) * ((1 - eps) * y))
        with ((1 + eps) * x) by (field; lra).
      lra.
    + apply Rmult_le_compat_l; [|lra].
      apply Rmult_le_pos.
      * apply Rmult_le_pos; [lra|]. left. apply Rinv_0_lt_compat. lra.
      * apply Rmult_le_pos; [lra|]. left. now apply Rinv_0_lt_compat.
Qed.

Lemma rounding_margin_nonneg : 0 <= rounding_margin.
Proof. unfold rounding_margin. left. apply Rinv_0_lt_compat, pow_lt. lra. Qed.

Lemma variate_range (E : Env) (k : nat) : 0 <= Q2R (variate E k) < 1.
Proof.
  destruct (frac_range (rand E k)) as [H0 H1]. fold (variate E k) in H0, H1. split.
  - rewrite <- Q2R_zero. now apply Qle_Rle.
  - replace 1 with (Q2R 1) by (unfold Q2R; simpl; lra). now apply Qlt_Rlt.
Qed.

(** The index chosen for a variate is the one whose share holds it. *)
Lemma chosen_index_interval (E : Env) (eps : R) (ps : list (Z * Z)) (u : Q) (i : nat) :
  0 <= eps < 1 -> pow15_within E eps ps ->
  0 <= Q2R u < 1 -> (i < List.length ps)%nat ->
  (chosen_index E ps u = Some i <->
   float_share_before E ps i <= Q2R u < float_share_before E ps (S i)).
Proof.
  intros Heps Hw HuR Hi.
  pose proof (float_weights_positive E eps ps Heps Hw) as Hpos.
  assert (Hlen : List.length (float_weights E ps) = List.length ps).
  { unfold float_weights, pause_weights. now rewrite !length_map. }
  assert (Hfne : float_weights E ps <> []).
  { intros H. rewrite H in Hlen. simpl in Hlen. lia. }
  pose proof (sum_first_all_positive _ Hpos Hfne) as HT.
  rewrite Hlen in HT. fold (float_total E ps) in HT.
  unfold chosen_index. rewrite choices_index_Q2R. fold (float_weights E ps).
  rewrite (choices_index_interval_pos _ _ i Hpos HuR) by lia.
  rewrite Hlen. fold (float_total E ps). unfold float_share_before.
  rewrite (div_le_iff _ _ _ HT), (lt_div_iff _ _ _ HT). reflexivity.
Qed.

(** C8: the pause that [add_listener_responses] selects is the one that
    [random.choices] picks, with the weights the script computes, for the
    second variate it draws. Each candidate has a share of [0, 1), whose
    length is its weight divided by the total weight: a candidate is
    selected only when the variate, uniform in [0, 1), falls in its share,
    and it is picked whenever the variate does; both to within a margin of
    2^-40 at the ends of the share, which covers the rounding of the sums
    and of the product with 1000 candidates at most. With the
    floating-point power within the relative error [eps] of the real
    power [(end - start) ** 1.5], the length of the share, which is the
    probability of the candidate, is the share of [(end - start) ** 1.5]
    in the total of these powers, to within the factor
    [(1 + eps) / (1 - eps)]; and the longer of two pauses is favoured more
    than in proportion to the lengths. *)
Theorem pause_chosen_in_proportion_to_weight (E : Env) (main_audio : AudioSegment)
  (main_speaker : string) (filler_clips : registry) (w : World) (eps : R)
  (i : nat) (p : Z * Z) :
  let ps := suitable_pauses_of main_audio (find_conversation_pauses E main_audio) in
  0 <= eps < 1 -> pow15_within E eps ps -> (List.length ps <= 1000)%nat ->
  nth_error ps i = Some p ->
  (forall pause path dur w',
     select_pause_and_filler E main_audio main_speaker filler_clips w
       = (Ok (Some (pause, path, dur)), w') ->
     exists j,
       nth_error ps j = Some pause /\
       float_share_before E ps j - rounding_margin
         <= Q2R (variate E (S (rand_n w)))
         < float_share_before E ps (S j) + rounding_margin) /\
  (forall w0,
     float_share_before E ps i + rounding_margin
       <= Q2R (variate E (rand_n w0))
       < float_share_before E ps (S i) - rounding_margin ->
     fst (choices E ps (pause_weights E ps) w0) = Ok p) /\
  float_share_before E ps (S i) - float_share_before E ps i
    = Q2R (pow15 E (snd p - fst p)) / float_total E ps /\
  (1 - eps) / (1 + eps) * (weight p / total ps)
    <= float_share_before E ps (S i) - float_share_before E ps i
    <= (1 + eps) / (1 - eps) * (weight p / total ps) /\
  (forall q, In q ps -> (0 < snd p - fst p < snd q - fst q)%Z ->
     weight q / weight p > IZR (snd q - fst q) / IZR (snd p - fst p) /\
     (1 - eps) / (1 + eps) * (weight q / weight p)
       <= Q2R (pow15 E (snd q - fst q)) / Q2R (pow15 E (snd p - fst p))).
Proof.
  intros ps Heps Hw _ Hp.
  assert (Hi : (i < List.length ps)%nat) by (apply nth_error_Some; congruence).
  assert (Hin : In p ps) by (eapply nth_error_In; exact Hp).
  assert (Hne : ps <> []) by (intros H; rewrite H in Hi; simpl in Hi; lia).
  pose proof (float_weights_positive E eps ps Heps Hw) as Hpos.
  assert (Hlen : List.length (float_weights E ps) = List.length ps).
  { unfold float_weights, pause_weights. now rewrite !length_map. }
  assert (Hfne : float_weights E ps <> []).
  { intros H. rewrite H in Hlen. simpl in Hlen. lia. }
  pose proof (sum_first_all_positive _ Hpos Hfne) as HT.
  rewrite Hlen in HT. fold (float_total E ps) in HT.
  pose proof (total_positive ps Hne) as HTe.
  pose proof rounding_margin_nonneg as Hm.
  assert (Hbounds : forall q, In q ps ->
            (1 - eps) * weight q <= Q2R (pow15 E (snd q - fst q))
            <= (1 + eps) * weight q).
  { intros q Hq. now apply (within_bounds E eps ps). }
  split; [|split; [|split; [|split]]].
  - intros pause path dur w' Hsel.
    destruct (select_uses_choices _ _ _ _ _ _ _ _ _ Hsel) as (j & Hc & Hj).
    exists j. split; [exact Hj|].
    assert (Hjl : (j < List.length ps)%nat).
    { apply nth_error_Some. unfold ps. rewrite Hj. discriminate. }
    apply (chosen_index_interval E eps ps _ j Heps Hw (variate_range E _) Hjl) in Hc.
    lra.
  - intros w0 Hu. apply (choices_at_chosen_index E ps w0 i p); [|exact Hp].
    apply (chosen_index_interval E eps ps _ i Heps Hw (variate_range E _) Hi). lra.
  - apply float_share_step; [exact Hp | lra].
  - rewrite (float_share_step E ps i p Hp) by lra.
    apply ratio_within; [exact Heps | apply weight_positive | exact HTe | now apply Hbounds |].
    unfold float_total, total. apply sum_first_within. exact Hbounds.
  - intros q Hq Hlenq. split.
    + unfold weight. now apply weight_superlinear.
    + apply ratio_within; [exact Heps | apply weight_positive | apply weight_positive
                           | now apply Hbounds | now apply Hbounds].
Qed.

Lemma two_pauses_pow15_exact :
  pow15_within BarkScenario.two_pauses 0
    (suitable_pauses_of BarkScenario.three_seconds
       (find_conversation_pauses BarkScenario.two_pauses BarkScenario.three_seconds)).
Proof.
  intros q Hq.
  assert (Hq' : q = (400, 800)%Z \/ q = (1000, 1900)%Z).
  { vm_compute in Hq. destruct Hq as [<- | [<- | []]]; auto. }
  assert (H400 : Rpower (IZR 400) 1.5 = 8000).
  { replace (IZR 400) with (20 * 20) by lra. rewrite Rpower_three_halves; lra. }
  assert (H900 : Rpower (IZR 900) 1.5 = 27000).
  { replace (IZR 900) with (30 * 30) by lra. rewrite Rpower_three_halves; lra. }
  destruct Hq' as [-> | ->]; unfold weight; cbn [fst snd].
  - change (800 - 400)%Z with 400%Z. rewrite H400.
    replace (Q2R (pow15 BarkScenario.two_pauses 400)) with 8000
      by (vm_compute; lra).
    rewrite Rabs_right; lra.
  - change (1900 - 1000)%Z with 900%Z. rewrite H900.
    replace (Q2R (pow15 BarkScenario.two_pauses 900)) with 27000
      by (vm_compute; lra).
    rewrite Rabs_right; lra.
Qed.

(** The shorter of two pauses, of 400 ms against 900 ms: its share is
    8000 / 35000 with the exact powers, and the longer pause is favoured
    more than 2.25 times. *)
Lemma pause_chosen_in_proportion_to_weight_witness :
  let E := BarkScenario.two_pauses in
  let ps := suitable_pauses_of BarkScenario.three_seconds
              (find_conversation_pauses E BarkScenario.three_seconds) in
  let p := (400, 800)%Z in
  (forall pause path dur w',
     select_pause_and_filler E BarkScenario.three_seconds "sandip"
       BarkScenario.aha_clips BarkScenario.aha_disk
       = (Ok (Some (pause, path, dur)), w') ->
     exists j,
       nth_error ps j = Some pause /\
       float_share_before E ps j - rounding_margin
         <= Q2R (variate E (S (rand_n BarkScenario.aha_disk)))
         < float_share_before E ps (S j) + rounding_margin) /\
  (forall w0,
     float_share_before E ps 0 + rounding_margin
       <= Q2R (variate E (rand_n w0))
       < float_share_before E ps 1 - rounding_margin ->
     fst (choices E ps (pause_weights E ps) w0) = Ok p) /\
  float_share_before E ps 1 - float_share_before E ps 0
    = Q2R (pow15 E (snd p - fst p)) / float_total E ps /\
  (1 - 0) / (1 + 0) * (weight p / total ps)
    <= float_share_before E ps 1 - float_share_before E ps 0
    <= (1 + 0) / (1 - 0) * (weight p / total ps) /\
  (forall q, In q ps -> (0 < snd p - fst p < snd q - fst q)%Z ->
     weight q / weight p > IZR (snd q - fst q) / IZR (snd p - fst p) /\
     (1 - 0) / (1 + 0) * (weight q / weight p)
       <= Q2R (pow15 E (snd q - fst q)) / Q2R (pow15 E (snd p - fst p))).
Proof.
  intros E ps p.
  apply (pause_chosen_in_proportion_to_weight BarkScenario.two_pauses
           BarkScenario.three_seconds "sandip" BarkScenario.aha_clips
           BarkScenario.aha_disk 0 0 (400, 800)%Z).
  - lra.
  - exact two_pauses_pow15_exact.
  - vm_compute. lia.
  - reflexivity.
Defined.

(** In that studio the variate 1/5 falls in the share 8/35 of the shorter
    pause, which is selected; a variate of 1/4 selects the longer pause,
    (1000, 1900), which has the rest. *)
Example shorter_pause_selected :
  fst (select_pause_and_filler BarkScenario.two_pauses BarkScenario.three_seconds
         "sandip" BarkScenario.aha_clips BarkScenario.aha_disk)
  = Ok (Some ((400, 800)%Z, "fillers/yashaha.wav", 0.4%Q)) /\
  chosen_index BarkScenario.two_pauses [(400, 800); (1000, 1900)]%Z (1 # 5)
    = Some 0%nat /\
  chosen_index BarkScenario.two_pauses [(400, 800); (1000, 1900)]%Z (1 # 4)
    = Some 1%nat.
Proof. vm_compute. repeat split; reflexivity. Qed.

Example shares_of_the_script :
  float_share_before BarkScenario.two_pauses [(400, 800); (1000, 1900)]%Z 1 = 8 / 35.
Proof.
  unfold float_share_before, float_total, float_weights, pause_weights.
  cbn [map sum_first List.length fst snd].
  replace (Q2R (pow15 BarkScenario.two_pauses (800 - 400))) with 8000
    by (vm_compute; lra).
  replace (Q2R (pow15 BarkScenario.two_pauses (1900 - 1000))) with 27000
    by (vm_compute; lra).
  lra.
Qed.

End ExactProps.

(** ** More on the Audacity controller *)

Module AudacityMore.

Import Audacity AudacityProps.
Local Open Scope Z_scope.

(** *** [ensure_pipes] *)

Lemma ensure_pipes_loop_spec (E : Env) (n : nat) :
  forall w : World,
  exists k : nat,
    (k <= n)%nat /\
    (forall j, (j < k)%nat -> pipes_visible E (polls w + j) = false) /\
    let r := ensure_pipes_loop E n w in
    polls (snd r) = (polls w + Nat.min (S k) n)%nat /\
    to_n (snd r) = to_n w /\
    written (out (snd r)) = written (out w) /\
    sleeps (out (snd r)) = sleeps (out w) ++ repeat 300000 k /\
    now (snd r) = now w + 300000 * Z.of_nat k /\
    ((k < n)%nat -> pipes_visible E (polls w + k) = true /\ fst r = Ok tt) /\
    (k = n -> fst r = Raise pipes_missing).
Proof.
  induction n as [|n IH]; intros w.
  - exists O. simpl. split; [lia|]. split; [intros j Hj; lia|].
    split; [lia|]. split; [reflexivity|]. split; [reflexivity|].
    split; [now rewrite app_nil_r|]. split; [lia|].
    split; [intros H; lia | intros _; reflexivity].
  - simpl. destruct (pipes_visible E (polls w)) eqn:Hv.
    + exists O. split; [lia|]. split; [intros j Hj; lia|].
      cbn [print emit tick_poll polls to_n out now fst snd]. cbn zeta.
      cbn [print emit tick_poll polls to_n out now fst snd].
      split; [destruct n; simpl; lia|]. split; [reflexivity|].
      split; [rewrite written_app; simpl; now rewrite app_nil_r|].
      split; [rewrite sleeps_app; simpl; now rewrite !app_nil_r|].
      split; [lia|]. split.
      * intros _. rewrite Nat.add_0_r. now split.
      * intros H. discriminate H.
    + destruct (IH (sleep 300000 (tick_poll w))) as
        (k & Hk & Hfalse & Hp & Ht & Hw & Hs & Hn & Hok & Hraise).
      cbn [sleep emit elapse tick_poll polls to_n out now] in *. cbn zeta in *.
      exists (S k). split; [lia|]. split.
      { intros j Hj. destruct j as [|j].
        - now rewrite Nat.add_0_r.
        - replace (polls w + S j)%nat with (S (polls w) + j)%nat by lia.
          apply Hfalse. lia. }
      split; [rewrite Hp; lia|]. split; [exact Ht|]. split.
      { rewrite Hw, written_app. simpl. now rewrite app_nil_r. }
      split.
      { rewrite Hs, sleeps_app. simpl. rewrite <- app_assoc. simpl.
        now rewrite repeat_snoc. }
      split; [rewrite Hn; lia|]. split.
      * intros Hlt. replace (polls w + S k)%nat with (S (polls w) + k)%nat by lia.
        apply Hok. lia.
      * intros Heq. apply Hraise. lia.
Qed.

Lemma ensure_pipes_loop_fr_n (E : Env) (n : nat) :
  forall w : World, fr_n (snd (ensure_pipes_loop E n w)) = fr_n w.
Proof.
  induction n as [|n IH]; intros w; simpl; [reflexivity|].
  destruct (pipes_visible E (polls w)); [reflexivity|]. now rewrite IH.
Qed.

(** X1: [ensure_pipes] polls at most 20 times and sleeps 0.3 s after each
    poll that does not see both pipes, the twentieth included. It returns
    at the first poll that sees them and raises a [RuntimeError] when none
    of the 20 does; it waits 6 s at most and makes no attempt on either
    pipe, outbound or inbound, and writes nothing. *)
Theorem ensure_pipes_polls_twenty_times (E : Env) (w : World) :
  exists k : nat,
    (k <= 20)%nat /\
    (forall j, (j < k)%nat -> pipes_visible E (polls w + j) = false) /\
    ((k < 20)%nat ->
       pipes_visible E (polls w + k) = true /\
       fst (ensure_pipes E w) = Ok tt) /\
    (k = 20%nat -> fst (ensure_pipes E w) = Raise pipes_missing) /\
    polls (snd (ensure_pipes E w)) = (polls w + Nat.min (S k) 20)%nat /\
    sleeps (out (snd (ensure_pipes E w))) = sleeps (out w) ++ repeat 300000 k /\
    now (snd (ensure_pipes E w)) - now w = 300000 * Z.of_nat k /\
    now (snd (ensure_pipes E w)) - now w <= 6000000 /\
    to_n (snd (ensure_pipes E w)) = to_n w /\
    fr_n (snd (ensure_pipes E w)) = fr_n w /\
    written (out (snd (ensure_pipes E w))) = written (out w).
Proof.
  unfold ensure_pipes.
  pose proof (ensure_pipes_loop_fr_n E 20
                (print "[🔍] Waiting for Audacity pipes…" w)) as Hfr.
  destruct (ensure_pipes_loop_spec E 20
              (print "[🔍] Waiting for Audacity pipes…" w))
    as (k & Hk & Hfalse & Hp & Ht & Hw & Hs & Hn & Hok & Hraise).
  cbn [print emit polls to_n fr_n out now] in *. cbn zeta in *.
  exists k. split; [exact Hk|]. split; [exact Hfalse|].
  split; [exact Hok|]. split; [exact Hraise|]. split; [exact Hp|].
  split; [rewrite Hs, sleeps_app; simpl; now rewrite app_nil_r|].
  split; [lia|]. split; [lia|]. split; [exact Ht|]. split; [exact Hfr|].
  rewrite Hw, written_app. simpl. now rewrite app_nil_r.
Qed.

Lemma ensure_pipes_polls_twenty_times_witness :
  exists k : nat,
    (k <= 20)%nat /\
    (forall j, (j < k)%nat ->
       pipes_visible (PipeScenario.env_late 3 "OK") (polls PipeScenario.w0 + j) = false) /\
    ((k < 20)%nat ->
       pipes_visible (PipeScenario.env_late 3 "OK") (polls PipeScenario.w0 + k) = true /\
       fst (ensure_pipes (PipeScenario.env_late 3 "OK") PipeScenario.w0) = Ok tt) /\
    (k = 20%nat ->
       fst (ensure_pipes (PipeScenario.env_late 3 "OK") PipeScenario.w0)
         = Raise pipes_missing) /\
    polls (snd (ensure_pipes (PipeScenario.env_late 3 "OK") PipeScenario.w0))
      = (polls PipeScenario.w0 + Nat.min (S k) 20)%nat /\
    sleeps (out (snd (ensure_pipes (PipeScenario.env_late 3 "OK") PipeScenario.w0)))
      = sleeps (out PipeScenario.w0) ++ repeat 300000 k /\
    now (snd (ensure_pipes (PipeScenario.env_late 3 "OK") PipeScenario.w0))
      - now PipeScenario.w0 = 300000 * Z.of_nat k /\
    now (snd (ensure_pipes (PipeScenario.env_late 3 "OK") PipeScenario.w0))
      - now PipeScenario.w0 <= 6000000 /\
    to_n (snd (ensure_pipes (PipeScenario.env_late 3 "OK") PipeScenario.w0))
      = to_n PipeScenario.w0 /\
    fr_n (snd (ensure_pipes (PipeScenario.env_late 3 "OK") PipeScenario.w0))
      = fr_n PipeScenario.w0 /\
    written (out (snd (ensure_pipes (PipeScenario.env_late 3 "OK") PipeScenario.w0)))
      = written (out PipeScenario.w0).
Proof.
  exact (ensure_pipes_polls_twenty_times (PipeScenario.env_late 3 "OK") PipeScenario.w0).
Defined.

(** *** [main] *)

Lemma ensure_pipes_cases (E : Env) (w : World) :
  (pipes_never_show E w /\ fst (ensure_pipes E w) = Raise pipes_missing
   \/ (exists k, (k < 20)%nat /\ pipes_visible E (polls w + k) = true)
      /\ fst (ensure_pipes E w) = Ok tt) /\
  to_n (snd (ensure_pipes E w)) = to_n w /\
  written (out (snd (ensure_pipes E w))) = written (out w).
Proof.
  unfold ensure_pipes.
  destruct (ensure_pipes_loop_spec E 20
              (print "[🔍] Waiting for Audacity pipes…" w))
    as (k & Hk & Hfalse & _ & Ht & Hw & _ & _ & Hok & Hraise).
  cbn [print emit polls to_n out now] in *. cbn zeta in *.
  split; [|split; [exact Ht|]].
  - destruct (Nat.eq_dec k 20%nat) as [->|Hne].
    + left. split; [exact Hfalse | now apply Hraise].
    + right. destruct Hok as [Hv Hr]; [lia|]. split; [|exact Hr].
      exists k. split; [lia | exact Hv].
  - rewrite Hw, written_app. simpl. now rewrite app_nil_r.
Qed.

(** X2: [main] checks before it sends: when the pipes do not show up in
    20 polls it raises the error of [ensure_pipes], and when they do but
    the input file is missing it raises [FileNotFoundError]; in both cases
    no attempt is made on either pipe and no command is written. *)
Theorem main_checks_before_sending (E : Env) (fuel : nat) (inp out : string)
  (w : World) :
  pipes_never_show E w \/ input_exists E = false ->
  exists (e : exn) (w' : World),
    main E fuel inp out w = Some (Raise e, w') /\
    (pipes_never_show E w -> e = pipes_missing) /\
    (~ pipes_never_show E w ->
     e = Exn FileNotFoundError ("Input file not found: " +:+ inp)) /\
    to_n w' = to_n w /\ fr_n w' = fr_n w /\
    written (Audacity.out w') = written (Audacity.out w).
Proof.
  intros Hpre. unfold main, bind at 1, lift.
  destruct (ensure_pipes_cases E w) as (Hcases & Hto & Hwr).
  assert (Hfr : fr_n (snd (ensure_pipes E w)) = fr_n w).
  { unfold ensure_pipes.
    assert (H : forall n w0, fr_n (snd (ensure_pipes_loop E n w0)) = fr_n w0).
    { induction n as [|n IH]; intros w0; simpl; [reflexivity|].
      destruct (pipes_visible E (polls w0)); [reflexivity|]. now rewrite IH. }
    rewrite H. reflexivity. }
  destruct (ensure_pipes E w) as [r w1]. cbn [fst snd] in *.
  destruct Hcases as [[Hnever ->] | [(k & Hk & Hv) ->]].
  - exists pipes_missing, w1. split; [reflexivity|]. split; [reflexivity|].
    split; [intros H; now elim H|]. now repeat split.
  - assert (Hnot : ~ pipes_never_show E w).
    { intros H. specialize (H k Hk). congruence. }
    destruct Hpre as [Hnever | Hin]; [now elim Hnot|].
    unfold bind, act, raise, ret. rewrite Hin.
    eexists _, _. split; [reflexivity|]. split; [intros H; now elim Hnot|].
    split; [reflexivity|].
    cbn [print emit to_n fr_n Audacity.out]. rewrite !written_app. simpl.
    rewrite !app_nil_r. now repeat split.
Qed.

Lemma main_checks_before_sending_witness :
  exists (e : exn) (w' : World),
    main PipeScenario.env_no_input 51 "in.wav" "out.wav" PipeScenario.w0
      = Some (Raise e, w') /\
    (pipes_never_show PipeScenario.env_no_input PipeScenario.w0 -> e = pipes_missing) /\
    (~ pipes_never_show PipeScenario.env_no_input PipeScenario.w0 ->
     e = Exn FileNotFoundError ("Input file not found: " +:+ "in.wav")) /\
    to_n w' = to_n PipeScenario.w0 /\ fr_n w' = fr_n PipeScenario.w0 /\
    written (Audacity.out w') = written (Audacity.out PipeScenario.w0).
Proof.
  apply (main_checks_before_sending PipeScenario.env_no_input 51 "in.wav" "out.wav"
           PipeScenario.w0).
  right. reflexivity.
Defined.

(** X3: when the pipes show up, the input file exists and every [send]
    gets through, [main] ends normally and has written the twelve commands
    of the pipeline followed by the query [GetInfo: Type=Tracks], each
    once, in this order, each followed by a newline, whatever Audacity
    answers. *)
Theorem main_sends_pipeline_then_query (E : Env) (fuel : nat) (inp out : string)
  (w : World) (k : nat) :
  (k < 20)%nat -> pipes_visible E (polls w + k) = true ->
  input_exists E = true ->
  sends_get_through E -> fr_progress E ->
  (Z.to_nat DEFAULT_TIMEOUT < fuel)%nat ->
  exists w',
    main E fuel inp out w = Some (Ok tt, w') /\
    written (Audacity.out w') =
    written (Audacity.out w)
    ++ map (fun c => c +:+ newline) (pipeline inp out ++ ["GetInfo: Type=Tracks"]).
Proof.
  intros Hk Hv Hin Hthrough Hprog Hfuel.
  unfold main, bind at 1, lift.
  destruct (ensure_pipes_cases E w) as (Hcases & _ & Hwr).
  destruct (ensure_pipes E w) as [r w1]. cbn [fst snd] in *.
  destruct Hcases as [[Hnever _] | [_ ->]].
  { specialize (Hnever k Hk). congruence. }
  rewrite Hin. unfold bind at 1, act. unfold bind at 1. unfold bind at 1.
  unfold bind at 1, ret. unfold bind at 1. unfold bind at 1.
  match goal with
  | |- context [run_pipeline E fuel (pipeline inp out) ?w2] =>
      destruct (run_pipeline_all_sent E fuel Hprog Hfuel Hthrough
                  (pipeline inp out) w2) as (w3 & Hrun & Hw3)
  end.
  rewrite Hrun. unfold bind at 1. unfold bind at 1.
  match goal with
  | |- context [send E ?c ?w4] =>
      destruct (send_gets_through E c w4 Hthrough) as [Hok Hw5];
      destruct (send E c w4) as [r5 w5]
  end.
  cbn [fst snd] in *. subst r5. unfold bind at 1, recv_m, recv.
  destruct (recv_loop_returns E DEFAULT_TIMEOUT (now w5) Hprog fuel EmptyString w5)
    as (tracks & w6 & Hr & _ & Hw6); [lia|].
  rewrite Hr. unfold bind at 1.
  eexists. split; [reflexivity|].
  cbn [print emit Audacity.out]. rewrite !written_app. simpl written at 1 2.
  rewrite !app_nil_r, Hw6, Hw5.
  cbn [print emit Audacity.out]. rewrite !written_app. simpl written at 2.
  rewrite app_nil_r, Hw3.
  cbn [print emit Audacity.out]. rewrite !written_app. simpl written at 2 3 4 5.
  rewrite !app_nil_r, Hwr, map_app, <- !app_assoc. reflexivity.
Qed.

Lemma env_late_sends (n : nat) (reply : string) :
  sends_get_through (PipeScenario.env_late n reply).
Proof. intros i. exists O. split; [lia | reflexivity]. Qed.

Lemma env_late_progress (n : nat) (reply : string) :
  fr_progress (PipeScenario.env_late n reply).
Proof. intros k. simpl. lia. Qed.

Lemma main_sends_pipeline_then_query_witness :
  exists w',
    main (PipeScenario.env_late 3 "OK") (S (Z.to_nat DEFAULT_TIMEOUT))
      "in.wav" "out.wav" PipeScenario.w0 = Some (Ok tt, w') /\
    written (Audacity.out w') =
    written (Audacity.out PipeScenario.w0)
    ++ map (fun c => c +:+ newline)
         (pipeline "in.wav" "out.wav" ++ ["GetInfo: Type=Tracks"]).
Proof.
  apply (main_sends_pipeline_then_query (PipeScenario.env_late 3 "OK")
           (S (Z.to_nat DEFAULT_TIMEOUT)) "in.wav" "out.wav" PipeScenario.w0 3).
  - lia.
  - reflexivity.
  - reflexivity.
  - apply env_late_sends.
  - apply env_late_progress.
  - lia.
Defined.

(** *** What [recv] returns *)

Lemma lstrip_suffix (s : list ascii) :
  exists spaces, s = spaces ++ lstrip s /\ forallb is_space spaces = true.
Proof.
  induction s as [|c s (sp & Hs & Hall)]; [exists []; now split|].
  simpl. destruct (is_space c) eqn:Hc.
  - exists (c :: sp). split; [simpl; now rewrite <- Hs|]. simpl. now rewrite Hc.
  - exists []. now split.
Qed.

Lemma lstrip_head (s : list ascii) :
  match lstrip s with [] => True | c :: _ => is_space c = false end.
Proof.
  induction s as [|c s IH]; simpl; [exact I|].
  destruct (is_space c) eqn:Hc; [exact IH | exact Hc].
Qed.

Lemma lstrip_fixed (s : list ascii) :
  match s with [] => True | c :: _ => is_space c = false end -> lstrip s = s.
Proof. destruct s as [|c s]; simpl; [reflexivity|]. now intros ->. Qed.

Lemma is_space_high (b : ascii) : (128 <= nat_of_ascii b)%nat -> is_space b = false.
Proof.
  intros H. unfold is_space. cbn zeta.
  destruct (Nat.eqb_spec (nat_of_ascii b) 32); [lia|].
  destruct (Nat.leb_spec 9 (nat_of_ascii b)); destruct (Nat.leb_spec (nat_of_ascii b) 13);
    destruct (Nat.leb_spec 28 (nat_of_ascii b));
    destruct (Nat.leb_spec (nat_of_ascii b) 31); try reflexivity; lia.
Qed.

Lemma is_continuation_high (n : nat) : is_continuation n = true -> (128 <= n)%nat.
Proof.
  unfold is_continuation, in_range. rewrite andb_true_iff, !Nat.leb_le. lia.
Qed.

Lemma two_bytes_high (n0 n1 : nat) :
  two_bytes n0 n1 = true -> (128 <= n0 /\ 128 <= n1)%nat.
Proof.
  unfold two_bytes, in_range. rewrite !andb_true_iff, !Nat.leb_le.
  intros [[H0 _] H1]. apply is_continuation_high in H1. lia.
Qed.

Lemma three_bytes_high (n0 n1 n2 : nat) :
  three_bytes n0 n1 n2 = true -> (128 <= n0 /\ 128 <= n1 /\ 128 <= n2)%nat.
Proof.
  unfold three_bytes, in_range.
  rewrite !andb_true_iff, !orb_true_iff, !andb_true_iff, !Nat.leb_le, !Nat.eqb_eq.
  intros [H H2]. apply is_continuation_high in H2.
  destruct H as [[[[-> [H _]] | [[H _] H1]] | [-> [H _]]] | [[H _] H1]];
    try apply is_continuation_high in H1; lia.
Qed.

Lemma four_bytes_high (n0 n1 n2 n3 : nat) :
  four_bytes n0 n1 n2 n3 = true ->
  (128 <= n0 /\ 128 <= n1 /\ 128 <= n2 /\ 128 <= n3)%nat.
Proof.
  unfold four_bytes, in_range.
  rewrite !andb_true_iff, !orb_true_iff, !andb_true_iff, !Nat.leb_le, !Nat.eqb_eq.
  intros [[H H2] H3]. apply is_continuation_high in H2, H3.
  destruct H as [[[-> [H _]] | [[H _] H1]] | [-> [H _]]];
    try apply is_continuation_high in H1; lia.
Qed.

Lemma decode_ignore_ok (n : nat) :
  forall s : list ascii, (List.length s <= n)%nat -> Forall char_ok (decode_ignore s).
Proof.
  induction n as [|n IH]; intros s Hn.
  - destruct s; [constructor | simpl in Hn; lia].
  - destruct s as [|b0 r0]; [constructor|]. simpl in Hn.
    cbn [decode_ignore]. cbn zeta.
    destruct (Nat.ltb (nat_of_ascii b0) 128).
    { constructor; [exact I | apply IH; lia]. }
    destruct r0 as [|b1 r1]; [constructor|]. simpl in Hn.
    destruct (two_bytes (nat_of_ascii b0) (nat_of_ascii b1)) eqn:H2.
    { apply two_bytes_high in H2 as [H0 H1].
      constructor; [|apply IH; lia].
      unfold char_ok. repeat (constructor; [now apply is_space_high|]).
      constructor. }
    destruct r1 as [|b2 r2];
      [change (Forall char_ok (decode_ignore [b1])); apply IH; simpl; lia|].
    simpl in Hn.
    destruct (three_bytes (nat_of_ascii b0) (nat_of_ascii b1) (nat_of_ascii b2)) eqn:H3.
    { apply three_bytes_high in H3 as (H0 & H1 & H2').
      constructor; [|apply IH; lia].
      unfold char_ok. repeat (constructor; [now apply is_space_high|]).
      constructor. }
    destruct r2 as [|b3 r3];
      [change (Forall char_ok (decode_ignore [b1; b2])); apply IH; simpl; lia|].
    simpl in Hn.
    destruct (four_bytes (nat_of_ascii b0) (nat_of_ascii b1) (nat_of_ascii b2)
                (nat_of_ascii b3)) eqn:H4.
    { apply four_bytes_high in H4 as (H0 & H1 & H2' & H3').
      constructor; [|apply IH; lia].
      unfold char_ok. repeat (constructor; [now apply is_space_high|]).
      constructor. }
    apply IH. simpl. lia.
Qed.

Lemma is_whitespace_byte (b : ascii) : is_whitespace [b] = is_space b.
Proof. reflexivity. Qed.

(** The first byte of a character that is not whitespace is not a
    whitespace of ASCII, nor is its last byte. *)
Lemma char_first_byte (c : list ascii) :
  char_ok c -> is_whitespace c = false ->
  Forall (fun b => is_space b = false) c.
Proof.
  destruct c as [|b [|b' c]]; intros Hok Hw; [destruct Hok | | exact Hok].
  rewrite is_whitespace_byte in Hw. now repeat constructor.
Qed.

Lemma lstrip_chars_suffix (s : list (list ascii)) :
  exists spaces, s = spaces ++ lstrip_chars s.
Proof.
  induction s as [|c s (sp & Hs)]; [now exists []|].
  simpl. destruct (is_whitespace c).
  - exists (c :: sp). simpl. now rewrite <- Hs.
  - now exists [].
Qed.

Lemma lstrip_chars_head (s : list (list ascii)) :
  match lstrip_chars s with [] => True | c :: _ => is_whitespace c = false end.
Proof.
  induction s as [|c s IH]; simpl; [exact I|].
  destruct (is_whitespace c) eqn:Hc; [exact IH | exact Hc].
Qed.

Lemma lstrip_chars_ok (s : list (list ascii)) :
  Forall char_ok s -> Forall char_ok (lstrip_chars s).
Proof.
  intros H. destruct (lstrip_chars_suffix s) as (sp & Hs).
  rewrite Hs in H. now apply Forall_app in H as [_ H].
Qed.

Lemma kept_chars_ok (buffer : string) : Forall char_ok (kept_chars buffer).
Proof.
  unfold kept_chars. apply Forall_rev, lstrip_chars_ok, Forall_rev, lstrip_chars_ok.
  now apply (decode_ignore_ok (List.length (list_ascii_of_string buffer))).
Qed.

Lemma kept_chars_last (buffer : string) :
  match rev (kept_chars buffer) with
  | [] => True
  | c :: _ => is_whitespace c = false
  end.
Proof. unfold kept_chars. rewrite rev_involutive. apply lstrip_chars_head. Qed.

Lemma kept_chars_first (buffer : string) :
  match kept_chars buffer with
  | [] => True
  | c :: _ => is_whitespace c = false
  end.
Proof.
  unfold kept_chars.
  set (t := lstrip_chars (decode_ignore (list_ascii_of_string buffer))).
  pose proof (lstrip_chars_head (decode_ignore (list_ascii_of_string buffer))) as Hh.
  fold t in Hh.
  destruct (lstrip_chars_suffix (rev t)) as (sp & Hs).
  apply (f_equal (@rev (list ascii))) in Hs.
  rewrite rev_involutive, rev_app_distr in Hs.
  destruct (rev (lstrip_chars (rev t))) as [|c u]; [exact I|].
  rewrite Hs in Hh. exact Hh.
Qed.

Lemma concat_first_byte (t : list (list ascii)) :
  Forall char_ok t ->
  match t with [] => True | c :: _ => is_whitespace c = false end ->
  match List.concat t with [] => True | b :: _ => is_space b = false end.
Proof.
  destruct t as [|c t]; [intros; exact I|].
  intros Hok Hw. apply Forall_cons_1 in Hok as [Hc _].
  pose proof (char_first_byte c Hc Hw) as Hb.
  destruct c as [|b c]; [destruct Hc|]. simpl.
  now apply Forall_cons_1 in Hb as [Hb _].
Qed.

Lemma concat_last_byte (t : list (list ascii)) :
  Forall char_ok t ->
  match rev t with [] => True | c :: _ => is_whitespace c = false end ->
  match rev (List.concat t) with [] => True | b :: _ => is_space b = false end.
Proof.
  intros Hok Hw.
  destruct (rev t) as [|c u] eqn:Hr.
  - apply (f_equal (@rev (list ascii))) in Hr. rewrite rev_involutive in Hr.
    subst t. exact I.
  - apply (f_equal (@rev (list ascii))) in Hr. rewrite rev_involutive in Hr.
    simpl in Hr. subst t. apply Forall_app in Hok as [_ Hc].
    apply Forall_cons_1 in Hc as [Hc _].
    pose proof (char_first_byte c Hc Hw) as Hb.
    rewrite concat_app, rev_app_distr. simpl. rewrite app_nil_r.
    destruct (rev c) as [|b c'] eqn:Hrc.
    + apply (f_equal (@rev ascii)) in Hrc. rewrite rev_involutive in Hrc.
      subst c. destruct Hc.
    + simpl. rewrite Forall_forall in Hb. apply Hb.
      apply list_elem_of_In, in_rev. rewrite Hrc. now left.
Qed.

Lemma decode_strip_ends (buffer : string) :
  match list_ascii_of_string (decode_strip buffer) with
  | [] => True
  | c :: _ => is_space c = false
  end /\
  match rev (list_ascii_of_string (decode_strip buffer)) with
  | [] => True
  | c :: _ => is_space c = false
  end.
Proof.
  unfold decode_strip. rewrite list_ascii_of_string_of_list_ascii.
  fold (kept_chars buffer). split.
  - apply concat_first_byte; [apply kept_chars_ok | apply kept_chars_first].
  - apply concat_last_byte; [apply kept_chars_ok | apply kept_chars_last].
Qed.

Lemma strip_fixed (s : string) :
  match list_ascii_of_string s with [] => True | c :: _ => is_space c = false end ->
  match rev (list_ascii_of_string s) with [] => True | c :: _ => is_space c = false end ->
  strip s = s.
Proof.
  intros H1 H2. unfold strip.
  rewrite (lstrip_fixed _ H1), (lstrip_fixed _ H2), rev_involutive.
  apply string_of_list_ascii_of_string.
Qed.

Lemma recv_loop_stripped (E : Env) (timeout start : Z) :
  forall (fuel : nat) (buffer : string) (w : World) msg w',
    recv_loop E fuel timeout start buffer w = Some (msg, w') ->
    match list_ascii_of_string msg with
    | [] => True
    | c :: _ => is_space c = false
    end /\
    match rev (list_ascii_of_string msg) with
    | [] => True
    | c :: _ => is_space c = false
    end.
Proof.
  induction fuel as [|fuel IH]; intros buffer w msg w' Hr; [discriminate|].
  simpl in Hr. destruct (now w - start <? timeout).
  - destruct (fr_pipe E (fr_n w)) as [|part].
    + exact (IH _ _ _ _ Hr).
    + destruct (contains newline part).
      * injection Hr as <- _. apply decode_strip_ends.
      * exact (IH _ _ _ _ Hr).
  - injection Hr as <- _. now split.
Qed.

(** X4: what [recv] returns is stripped: it has no whitespace at either
    end (the empty string of a timeout included). *)
Theorem recv_result_is_stripped (E : Env) (fuel : nat) (timeout : Z)
  (w w' : World) (msg : string) :
  recv E fuel timeout w = Some (msg, w') ->
  strip msg = msg /\
  match list_ascii_of_string msg with
  | [] => True
  | c :: _ => is_space c = false
  end /\
  match rev (list_ascii_of_string msg) with
  | [] => True
  | c :: _ => is_space c = false
  end.
Proof.
  intros Hr. apply recv_loop_stripped in Hr as [H1 H2].
  split; [now apply strip_fixed|]. now split.
Qed.

(** Audacity answers in three chunks with a failed attempt in between:
    [recv] returns the line without the blanks around it. *)
Lemma recv_result_is_stripped_witness :
  strip "BatchCommand finished: OK" = "BatchCommand finished: OK" /\
  match list_ascii_of_string "BatchCommand finished: OK" with
  | [] => True
  | c :: _ => is_space c = false
  end /\
  match rev (list_ascii_of_string "BatchCommand finished: OK") with
  | [] => True
  | c :: _ => is_space c = false
  end.
Proof.
  apply (recv_result_is_stripped PipeScenario.env_chunked 10 DEFAULT_TIMEOUT
           PipeScenario.w0
           (match recv PipeScenario.env_chunked 10 DEFAULT_TIMEOUT PipeScenario.w0 with
            | Some (_, w') => w'
            | None => PipeScenario.w0
            end)).
  vm_compute. reflexivity.
Defined.

Lemma string_app_assoc (a b c : string) : (a +:+ b) +:+ c = a +:+ (b +:+ c).
Proof.
  induction a as [|x a IH]; [reflexivity|].
  change (String x ((a +:+ b) +:+ c) = String x (a +:+ (b +:+ c))).
  now rewrite IH.
Qed.

Lemma recv_loop_gathers (E : Env) (timeout start D : Z) (part : string) :
  0 <= D -> iteration_within E D ->
  forall (k fuel : nat) (buffer : string) (w : World),
    now w - start + Z.of_nat k * D < timeout ->
    (k < fuel)%nat ->
    no_newline_in E (fr_n w) k ->
    fr_pipe E (fr_n w + k) = FrPart part ->
    contains newline part = true ->
    exists w',
      recv_loop E fuel timeout start buffer w
        = Some (decode_strip (buffer +:+ chunks E (fr_n w) k +:+ part), w') /\
      fr_n w' = S (fr_n w + k) /\
      now w' - start <= now w - start + Z.of_nat (S k) * D.
Proof.
  intros HD0 HD. induction k as [|k IH]; intros fuel buffer w Htime Hfuel Hno Hlast Hnl.
  - destruct fuel as [|fuel]; [lia|]. simpl.
    destruct (Z.ltb_spec (now w - start) timeout) as [_|Hge]; [|lia].
    rewrite Nat.add_0_r in Hlast. rewrite Hlast, Hnl.
    eexists. split; [reflexivity|]. cbn [print emit tick_fr fr_n now].
    split; [lia|]. pose proof (HD (fr_n w)) as Hc. rewrite Hlast in Hc. lia.
  - destruct fuel as [|fuel]; [lia|]. simpl recv_loop.
    destruct (Z.ltb_spec (now w - start) timeout) as [_|Hge]; [|lia].
    pose proof (HD (fr_n w)) as Hc.
    assert (Hno' : forall w1, fr_n w1 = S (fr_n w) -> no_newline_in E (fr_n w1) k).
    { intros w1 Hw1 j p Hj Hp. rewrite Hw1 in Hp.
      apply (Hno (S j) p); [lia|].
      now replace (fr_n w + S j)%nat with (S (fr_n w) + j)%nat by lia. }
    assert (Hlast' : fr_pipe E (S (fr_n w) + k) = FrPart part)
      by now replace (S (fr_n w) + k)%nat with (fr_n w + S k)%nat by lia.
    simpl chunks.
    destruct (fr_pipe E (fr_n w)) as [|p] eqn:Hp.
    + destruct (IH fuel buffer (sleep 100000 (tick_fr E w))) as (w' & Hr & Hn & Ht).
      * cbn [sleep emit elapse tick_fr now]. lia.
      * lia.
      * apply Hno'. reflexivity.
      * exact Hlast'.
      * exact Hnl.
      * exists w'. cbn [sleep emit elapse tick_fr fr_n now] in *.
        split; [exact Hr|]. split; lia.
    + assert (Hpn : contains newline p = false).
      { apply (Hno O p); [lia|]. now rewrite Nat.add_0_r. }
      rewrite Hpn.
      destruct (IH fuel (buffer +:+ p) (tick_fr E w)) as (w' & Hr & Hn & Ht).
      * cbn [tick_fr now]. lia.
      * lia.
      * apply Hno'. reflexivity.
      * exact Hlast'.
      * exact Hnl.
      * exists w'. cbn [tick_fr fr_n now] in *.
        rewrite Hr, !string_app_assoc. split; [reflexivity|]. split; lia.
Qed.

(** X5: [recv] gathers what it reads until a chunk contains a newline:
    when [k] attempts give chunks without a newline or fail, the next one
    gives a chunk with a newline, and the timeout leaves room for the
    [k] iterations, [recv] returns the bytes of the chunks read, in
    order, with that last chunk, decoded as UTF-8 without the bytes that
    do not decode, and stripped of the whitespace of Unicode at both
    ends, after [k + 1] attempts. *)
Theorem recv_gathers_chunks_up_to_newline (E : Env) (fuel : nat) (timeout D : Z)
  (w : World) (k : nat) (part : string) :
  0 <= D -> iteration_within E D ->
  Z.of_nat k * D < timeout -> (k < fuel)%nat ->
  no_newline_in E (fr_n w) k ->
  fr_pipe E (fr_n w + k) = FrPart part ->
  contains newline part = true ->
  exists w',
    recv E fuel timeout w = Some (decode_strip (chunks E (fr_n w) k +:+ part), w') /\
    fr_n w' = S (fr_n w + k) /\
    now w' - now w <= Z.of_nat (S k) * D.
Proof.
  intros HD0 HD Htime Hfuel Hno Hlast Hnl. unfold recv.
  destruct (recv_loop_gathers E timeout (now w) D part HD0 HD k fuel EmptyString w)
    as (w' & Hr & Hn & Ht); try assumption; [lia|].
  exists w'. split; [exact Hr|]. split; [exact Hn | lia].
Qed.

Lemma env_chunked_iterations : iteration_within PipeScenario.env_chunked 101000.
Proof. intros k. destruct k as [|[|[|k]]]; simpl; lia. Qed.

Lemma env_chunked_no_newline : no_newline_in PipeScenario.env_chunked 0 3.
Proof.
  intros j part Hj Hp. destruct j as [|[|[|j]]]; simpl in Hp; try lia;
    try discriminate; injection Hp as <-; reflexivity.
Qed.

Lemma recv_gathers_chunks_up_to_newline_witness :
  exists w',
    recv PipeScenario.env_chunked 10 DEFAULT_TIMEOUT PipeScenario.w0
      = Some (decode_strip (chunks PipeScenario.env_chunked (fr_n PipeScenario.w0) 3
                     +:+ ("OK " +:+ newline)), w') /\
    fr_n w' = S (fr_n PipeScenario.w0 + 3) /\
    now w' - now PipeScenario.w0 <= Z.of_nat 4 * 101000.
Proof.
  apply (recv_gathers_chunks_up_to_newline PipeScenario.env_chunked 10
           DEFAULT_TIMEOUT 101000 PipeScenario.w0 3 ("OK " +:+ newline)).
  - lia.
  - exact env_chunked_iterations.
  - reflexivity.
  - lia.
  - exact env_chunked_no_newline.
  - reflexivity.
  - reflexivity.
Defined.

(** A reply with a no-break space, a byte that is no UTF-8 and a
    next-line character around [OK]: [recv] returns [OK]. *)
Example reply_decoded_and_stripped :
  fst <$> recv PipeScenario.env_latin 10 DEFAULT_TIMEOUT PipeScenario.w0 = Some "OK".
Proof. vm_compute. reflexivity. Qed.

Example recv_chunked :
  option_map fst (recv PipeScenario.env_chunked 10 DEFAULT_TIMEOUT PipeScenario.w0)
  = Some "BatchCommand finished: OK".
Proof. reflexivity. Qed.

Lemma recv_loop_only_reads (E : Env) (timeout start : Z) :
  forall (fuel : nat) (buffer : string) (w : World) msg w',
    recv_loop E fuel timeout start buffer w = Some (msg, w') ->
    to_n w' = to_n w /\ polls w' = polls w /\
    written (Audacity.out w') = written (Audacity.out w) /\
    (exists n : nat,
       (fr_n w + n <= fr_n w')%nat /\
       sleeps (Audacity.out w') = sleeps (Audacity.out w) ++ repeat 100000 n) /\
    ((forall k, 0 <= fr_cost E k) -> now w <= now w').
Proof.
  induction fuel as [|fuel IH]; intros buffer w msg w' Hr; [discriminate|].
  simpl in Hr. destruct (now w - start <? timeout).
  - destruct (fr_pipe E (fr_n w)) as [|part].
    + destruct (IH _ _ _ _ Hr) as (H1 & H2 & H3 & (n & Hn & H4) & H5).
      cbn [sleep emit elapse tick_fr to_n polls fr_n Audacity.out now] in *.
      rewrite written_app in H3. simpl in H3. rewrite app_nil_r in H3.
      rewrite sleeps_app in H4. simpl in H4. rewrite <- app_assoc in H4.
      split; [exact H1|]. split; [exact H2|]. split; [exact H3|]. split.
      * exists (S n). split; [lia | exact H4].
      * intros Hc. specialize (H5 Hc). specialize (Hc (fr_n w)). lia.
    + destruct (contains newline part).
      * injection Hr as <- <-.
        cbn [print emit tick_fr to_n polls fr_n Audacity.out now].
        rewrite written_app, sleeps_app. simpl. rewrite !app_nil_r.
        split; [reflexivity|]. split; [reflexivity|]. split; [reflexivity|]. split.
        -- exists O. split; [lia|]. simpl. now rewrite app_nil_r.
        -- intros Hc. specialize (Hc (fr_n w)). lia.
      * destruct (IH _ _ _ _ Hr) as (H1 & H2 & H3 & (n & Hn & H4) & H5).
        cbn [tick_fr to_n polls fr_n Audacity.out now] in *.
        split; [exact H1|]. split; [exact H2|]. split; [exact H3|]. split.
        -- exists n. split; [lia | exact H4].
        -- intros Hc. specialize (H5 Hc). specialize (Hc (fr_n w)). lia.
  - injection Hr as <- <-. cbn [print emit to_n polls fr_n Audacity.out now].
    rewrite written_app, sleeps_app. simpl. rewrite !app_nil_r.
    split; [reflexivity|]. split; [reflexivity|]. split; [reflexivity|]. split.
    + exists O. split; [lia|]. simpl. now rewrite app_nil_r.
    + intros _. lia.
Qed.

(** X6: [recv] only reads: it makes no attempt on the outbound pipe,
    writes nothing and polls nothing; it sleeps 0.1 s at a time, at most
    once for each attempt on the inbound pipe; and the clock does not go
    back when no attempt takes negative time. *)
Theorem recv_only_reads (E : Env) (fuel : nat) (timeout : Z) (w w' : World)
  (msg : string) :
  recv E fuel timeout w = Some (msg, w') ->
  to_n w' = to_n w /\ polls w' = polls w /\
  written (Audacity.out w') = written (Audacity.out w) /\
  (exists n : nat,
     (fr_n w + n <= fr_n w')%nat /\
     sleeps (Audacity.out w') = sleeps (Audacity.out w) ++ repeat 100000 n) /\
  ((forall k, 0 <= fr_cost E k) -> now w <= now w').
Proof. apply recv_loop_only_reads. Qed.

Lemma recv_only_reads_witness :
  let w' := match recv PipeScenario.env_chunked 10 DEFAULT_TIMEOUT PipeScenario.w0 with
            | Some (_, w') => w'
            | None => PipeScenario.w0
            end in
  to_n w' = to_n PipeScenario.w0 /\ polls w' = polls PipeScenario.w0 /\
  written (Audacity.out w') = written (Audacity.out PipeScenario.w0) /\
  (exists n : nat,
     (fr_n PipeScenario.w0 + n <= fr_n w')%nat /\
     sleeps (Audacity.out w')
       = sleeps (Audacity.out PipeScenario.w0) ++ repeat 100000 n) /\
  ((forall k, 0 <= fr_cost PipeScenario.env_chunked k) -> now PipeScenario.w0 <= now w').
Proof.
  intros w'.
  apply (recv_only_reads PipeScenario.env_chunked 10 DEFAULT_TIMEOUT PipeScenario.w0 w'
           "BatchCommand finished: OK").
  vm_compute. reflexivity.
Defined.

(** *** The pipe test *)

(** X7: the pipe test of [somthing.py] makes one attempt and never
    sleeps. When the attempt succeeds it puts on the wire what [send] does
    for the same command and prints the success line; when it fails it
    prints the error and gives up, even where [send] would get through at
    its next attempt. *)
Theorem pipe_test_tries_once (E : Env) (w : World) :
  to_n (pipe_test E w) = S (to_n w) /\
  sleeps (Audacity.out (pipe_test E w)) = sleeps (Audacity.out w) /\
  (to_pipe E (to_n w) = ToWritten ->
   written (Audacity.out (pipe_test E w))
     = written (Audacity.out (snd (send E "GetInfo: Type=Commands" w))) /\
   Audacity.out (pipe_test E w)
     = Audacity.out w ++ [Wrote ("GetInfo: Type=Commands" +:+ newline);
                          Printed "✅ Pipe test successful!"]) /\
  (forall exc, to_pipe E (to_n w) = ToRaise exc ->
   Audacity.out (pipe_test E w)
     = Audacity.out w ++ [Printed ("❌ Pipe test failed: " +:+ exn_msg exc)] /\
   (to_pipe E (S (to_n w)) = ToWritten ->
    fst (send E "GetInfo: Type=Commands" w) = Ok tt)).
Proof.
  unfold pipe_test, send. simpl send_loop.
  destruct (to_pipe E (to_n w)) as [exc|] eqn:H0.
  - cbn [print emit tick_to to_n Audacity.out].
    split; [reflexivity|]. split.
    { rewrite sleeps_app. simpl. now rewrite app_nil_r. }
    split; [intros H; discriminate H|].
    intros exc' H. injection H as <-. split; [reflexivity|].
    cbn [sleep emit elapse tick_to to_n]. intros ->. reflexivity.
  - cbn [print emit tick_to to_n Audacity.out fst snd].
    split; [reflexivity|]. split.
    { rewrite !sleeps_app. simpl. now rewrite !app_nil_r. }
    split; [|intros exc H; discriminate H].
    intros _. split; [|now rewrite <- app_assoc].
    rewrite !written_app. reflexivity.
Qed.

(** The pipe refuses the first attempt: the test reports the failure,
    where [send] gets through at its second attempt. *)
Lemma pipe_test_tries_once_witness :
  Audacity.out (pipe_test (PipeScenario.env_refusing 1) PipeScenario.w0)
    = Audacity.out PipeScenario.w0
      ++ [Printed ("❌ Pipe test failed: " +:+ exn_msg PipeScenario.pipe_busy)] /\
  (to_pipe (PipeScenario.env_refusing 1) (S (to_n PipeScenario.w0)) = ToWritten ->
   fst (send (PipeScenario.env_refusing 1) "GetInfo: Type=Commands" PipeScenario.w0)
     = Ok tt).
Proof.
  apply (proj2 (proj2 (proj2 (pipe_test_tries_once (PipeScenario.env_refusing 1)
                                PipeScenario.w0)))
           PipeScenario.pipe_busy).
  reflexivity.
Defined.

(** *** The verdict of [main] *)

(** X12: when the pipes show up, the input file exists and every [send]
    gets through, [main] ends normally and its last two lines are the
    verdict and the [Done!] line: the verdict is the success line exactly
    when the reply to the query [GetInfo: Type=Tracks], in lower case,
    contains ["name"] in double quotes. When Audacity never answers, the
    reply is empty, the verdict is the failure line, and [main] still says
    [Done!] and does not raise. *)
Theorem main_says_done_whatever_the_verdict (E : Env) (fuel : nat)
  (inp out : string) (w : World) (k : nat) :
  (k < 20)%nat -> pipes_visible E (polls w + k) = true ->
  input_exists E = true ->
  sends_get_through E -> fr_progress E ->
  (Z.to_nat DEFAULT_TIMEOUT < fuel)%nat ->
  exists (tracks : string) (w5 w6 w' : World),
    written (Audacity.out w5) =
      written (Audacity.out w)
      ++ map (fun c => c +:+ newline) (pipeline inp out ++ ["GetInfo: Type=Tracks"]) /\
    recv E fuel DEFAULT_TIMEOUT w5 = Some (tracks, w6) /\
    main E fuel inp out w = Some (Ok tt, w') /\
    Audacity.out w' =
      Audacity.out w6
      ++ [Printed (if contains (dq +:+ "name" +:+ dq) (lower tracks)
                   then "✅ Track loaded successfully."
                   else "❌ No track detected. Import may have failed.");
          Printed (newline +:+ "[🎉] Done! Check your output at:" +:+ newline +:+ out)] /\
    (never_newline E ->
     tracks = EmptyString /\
     Audacity.out w' =
       Audacity.out w6
       ++ [Printed "❌ No track detected. Import may have failed.";
           Printed (newline +:+ "[🎉] Done! Check your output at:" +:+ newline +:+ out)]).
Proof.
  intros Hk Hv Hin Hthrough Hprog Hfuel.
  unfold main, bind at 1, lift.
  destruct (ensure_pipes_cases E w) as (Hcases & _ & Hwr).
  destruct (ensure_pipes E w) as [r w1]. cbn [fst snd] in *.
  destruct Hcases as [[Hnever _] | [_ ->]].
  { specialize (Hnever k Hk). congruence. }
  rewrite Hin. unfold bind at 1, act. unfold bind at 1. unfold bind at 1.
  unfold bind at 1, ret. unfold bind at 1. unfold bind at 1.
  match goal with
  | |- context [run_pipeline E fuel (pipeline inp out) ?w2] =>
      destruct (run_pipeline_all_sent E fuel Hprog Hfuel Hthrough
                  (pipeline inp out) w2) as (w3 & Hrun & Hw3)
  end.
  rewrite Hrun. unfold bind at 1. unfold bind at 1.
  match goal with
  | |- context [send E ?c ?w4] =>
      destruct (send_gets_through E c w4 Hthrough) as [Hok Hw5];
      destruct (send E c w4) as [r5 w5]
  end.
  cbn [fst snd] in *. subst r5. unfold bind at 1, recv_m.
  destruct (recv_loop_returns E DEFAULT_TIMEOUT (now w5) Hprog fuel EmptyString w5)
    as (tracks & w6 & Hr & _ & Hw6); [lia|].
  fold (recv E fuel DEFAULT_TIMEOUT w5) in Hr.
  rewrite Hr. unfold bind at 1.
  exists tracks, w5, w6. eexists. split.
  { rewrite Hw5.
    cbn [print emit Audacity.out]. rewrite !written_app. simpl written at 2.
    rewrite app_nil_r, Hw3.
    cbn [print emit Audacity.out]. rewrite !written_app. simpl written at 2 3 4 5.
    rewrite !app_nil_r, Hwr, map_app, <- !app_assoc. reflexivity. }
  split; [exact Hr|]. split; [reflexivity|]. split.
  { cbn [print emit Audacity.out]. now rewrite <- app_assoc. }
  intros Hnn. unfold recv in Hr.
  destruct (recv_loop_silent E DEFAULT_TIMEOUT (now w5) Hnn fuel EmptyString w5
              tracks w6 Hr) as (-> & _).
  split; [reflexivity|].
  cbn [print emit Audacity.out]. now rewrite <- app_assoc.
Qed.

Lemma main_says_done_whatever_the_verdict_witness :
  exists (tracks : string) (w5 w6 w' : World),
    written (Audacity.out w5) =
      written (Audacity.out PipeScenario.w0)
      ++ map (fun c => c +:+ newline)
           (pipeline "in.wav" "out.wav" ++ ["GetInfo: Type=Tracks"]) /\
    recv PipeScenario.env_silent (S (Z.to_nat DEFAULT_TIMEOUT)) DEFAULT_TIMEOUT w5
      = Some (tracks, w6) /\
    main PipeScenario.env_silent (S (Z.to_nat DEFAULT_TIMEOUT)) "in.wav" "out.wav"
      PipeScenario.w0 = Some (Ok tt, w') /\
    Audacity.out w' =
      Audacity.out w6
      ++ [Printed (if contains (dq +:+ "name" +:+ dq) (lower tracks)
                   then "✅ Track loaded successfully."
                   else "❌ No track detected. Import may have failed.");
          Printed (newline +:+ "[🎉] Done! Check your output at:" +:+ newline
                   +:+ "out.wav")] /\
    (never_newline PipeScenario.env_silent ->
     tracks = EmptyString /\
     Audacity.out w' =
       Audacity.out w6
       ++ [Printed "❌ No track detected. Import may have failed.";
           Printed (newline +:+ "[🎉] Done! Check your output at:" +:+ newline
                    +:+ "out.wav")]).
Proof.
  apply (main_says_done_whatever_the_verdict PipeScenario.env_silent
           (S (Z.to_nat DEFAULT_TIMEOUT)) "in.wav" "out.wav" PipeScenario.w0 0).
  - lia.
  - reflexivity.
  - reflexivity.
  - apply env_silent_sends.
  - apply env_silent_progress.
  - lia.
Defined.

End AudacityMore.

(** ** More on the podcast generator *)

Module BarkMore.

Import Bark BarkProps.
Local Open Scope Z_scope.

(** *** [generate_audio_clip] *)

Lemma array_to_prefix (audio : ndarray) (samples : Z) :
  exists rest, audio = array_to audio samples ++ rest.
Proof.
  unfold array_to. destruct (samples <? 0).
  - eexists. symmetry. apply firstn_skipn.
  - eexists. symmetry. apply firstn_skipn.
Qed.

Lemma Qint_nonneg (x : Q) : (0 <= x)%Q -> 0 <= Qint x.
Proof.
  intros Hx. unfold Qint. apply Qle_bool_iff in Hx as Hb. rewrite Hb.
  change 0 with (Qfloor 0). now apply Qfloor_resp_le.
Qed.

Lemma array_to_length (audio : ndarray) (samples : Z) :
  0 <= samples -> (List.length (array_to audio samples) <= Z.to_nat samples)%nat.
Proof.
  intros Hs. unfold array_to. destruct (Z.ltb_spec samples 0); [lia|].
  apply firstn_le_length.
Qed.

Lemma Qint_within_one (x : Q) :
  (inject_Z (Qint x) - 1 < x)%Q /\ (x < inject_Z (Qint x) + 1)%Q.
Proof.
  unfold Qint. destruct (Qle_bool 0 x) eqn:Hs.
  - pose proof (Qfloor_le x) as H1. pose proof (Qlt_floor x) as H2.
    rewrite inject_Z_plus in H2. change (inject_Z 1) with 1%Q in H2. split; lra.
  - pose proof (Qle_ceiling x) as H1. pose proof (Qceiling_lt x) as H2.
    unfold Z.sub in H2. rewrite inject_Z_plus in H2.
    change (inject_Z (- (1))) with (-1)%Q in H2. split; lra.
Qed.

(** X8: when [generate_audio_clip] returns a clip, the speaker is one of
    the two voices, the model was called once with the text and that
    voice, and the clip is the beginning of what the model gave: all of it
    when no duration, or the duration 0, is asked for, and [audio[:n]]
    otherwise, with [n] within one sample of [duration * 24000]; so at
    most [n] samples for a positive duration, and all but the last [-n]
    for a negative one. No file is touched. *)
Theorem generate_audio_clip_cuts_to_duration (E : Env) (text speaker : string)
  (duration : option Q) (w w' : World) (clip : ndarray) :
  generate_audio_clip E text speaker duration w = (Ok clip, w') ->
  exists (v : string) (audio : ndarray),
    voice_of speaker = Some v /\
    generate_audio E (gen_n w) text v = Ok audio /\
    (exists rest, audio = clip ++ rest) /\
    (duration = None -> clip = audio) /\
    (forall d, duration = Some d -> (d == 0)%Q -> clip = audio) /\
    (forall d, duration = Some d -> ~ (d == 0)%Q ->
       exists n : Z,
         (inject_Z n - 1 < d * 24000)%Q /\ (d * 24000 < inject_Z n + 1)%Q /\
         clip = array_to audio n /\
         (0 <= n -> clip = firstn (Z.to_nat n) audio) /\
         (n < 0 -> clip = firstn (List.length audio - Z.to_nat (- n)) audio)) /\
    log w' = log w ++ [Synth text v] /\
    gen_n w' = S (gen_n w) /\ fs w' = fs w.
Proof.
  unfold generate_audio_clip, try_except, bind. rewrite dict_get_voice.
  destruct (voice_of speaker) as [v|]; [|simpl; discriminate].
  unfold call_generate_audio.
  destruct (generate_audio E (gen_n w) text v) as [audio|e] eqn:Hg; [|simpl; discriminate].
  unfold ret. intros H. injection H as <- <-.
  exists v, audio. split; [reflexivity|]. split; [exact Hg|]. split.
  { destruct duration as [d|]; [|exists []; now rewrite app_nil_r].
    destruct (Qeq_bool d 0); [exists []; now rewrite app_nil_r|].
    apply array_to_prefix. }
  split; [now intros ->|]. split.
  { intros d -> Hd. apply Qeq_bool_iff in Hd. now rewrite Hd. }
  split.
  { intros d -> Hd. destruct (Qeq_bool d 0) eqn:Hz.
    { apply Qeq_bool_iff in Hz. contradiction. }
    exists (Qint (d * 24000)).
    destruct (Qint_within_one (d * 24000)) as [H1 H2].
    split; [exact H1|]. split; [exact H2|]. split; [reflexivity|].
    unfold array_to. split; intros Hn.
    - destruct (Z.ltb_spec (Qint (d * 24000)) 0); [lia | reflexivity].
    - destruct (Z.ltb_spec (Qint (d * 24000)) 0); [|lia]. f_equal. lia. }
  cbn [log gen_n fs]. now repeat split.
Qed.

Lemma generate_audio_clip_cuts_to_duration_witness :
  exists (v : string) (audio : ndarray),
    voice_of "yash" = Some v /\
    generate_audio BarkScenario.studio (gen_n BarkScenario.w0) "hmm" v = Ok audio /\
    (exists rest, audio = repeat 0 (Z.to_nat 10800) ++ rest) /\
    (Some 0.45%Q = None -> repeat 0 (Z.to_nat 10800) = audio) /\
    (forall d, Some 0.45%Q = Some d -> (d == 0)%Q -> repeat 0 (Z.to_nat 10800) = audio) /\
    (forall d, Some 0.45%Q = Some d -> ~ (d == 0)%Q ->
       exists n : Z,
         (inject_Z n - 1 < d * 24000)%Q /\ (d * 24000 < inject_Z n + 1)%Q /\
         repeat 0 (Z.to_nat 10800) = array_to audio n /\
         (0 <= n -> repeat 0 (Z.to_nat 10800) = firstn (Z.to_nat n) audio) /\
         (n < 0 -> repeat 0 (Z.to_nat 10800)
                   = firstn (List.length audio - Z.to_nat (- n)) audio)) /\
    log (snd (generate_audio_clip BarkScenario.studio "hmm" "yash" (Some 0.45%Q)
                BarkScenario.w0))
      = log BarkScenario.w0 ++ [Synth "hmm" v] /\
    gen_n (snd (generate_audio_clip BarkScenario.studio "hmm" "yash" (Some 0.45%Q)
                  BarkScenario.w0)) = S (gen_n BarkScenario.w0) /\
    fs (snd (generate_audio_clip BarkScenario.studio "hmm" "yash" (Some 0.45%Q)
               BarkScenario.w0)) = fs BarkScenario.w0.
Proof.
  apply (generate_audio_clip_cuts_to_duration BarkScenario.studio "hmm" "yash"
           (Some 0.45%Q) BarkScenario.w0).
  vm_compute. reflexivity.
Defined.

(** A negative duration cuts from the end: half a second less than the
    second that the model gave. *)
Example negative_duration_cuts_from_the_end :
  fst (generate_audio_clip BarkScenario.studio "hmm" "yash" (Some (-0.5)%Q)
         BarkScenario.w0)
  = Ok (repeat 0 (Z.to_nat 12000)).
Proof. vm_compute. reflexivity. Qed.

(** X9: when [generate_audio_clip] raises, it has logged exactly one
    error, [Failed to generate '<text>' by <speaker>: <message>] with the
    message of the exception, touched no file, and raised again what it
    caught: either the [KeyError] of a speaker that has no voice, without
    calling the model, or the exception of the one call of the model. *)
Theorem generate_audio_clip_logs_and_raises (E : Env) (text speaker : string)
  (duration : option Q) (w w' : World) (e : exn) :
  generate_audio_clip E text speaker duration w = (Raise e, w') ->
  errors (log w') =
    errors (log w)
    ++ ["Failed to generate '" +:+ text +:+ "' by " +:+ speaker +:+ ": " +:+ exn_msg e] /\
  fs w' = fs w /\
  (voice_of speaker = None /\
   exn_cls e = KeyError /\
   gen_n w' = gen_n w /\ synth_calls (log w') = synth_calls (log w)
   \/
   exists v, voice_of speaker = Some v /\
             generate_audio E (gen_n w) text v = Raise e /\
             gen_n w' = S (gen_n w) /\
             synth_calls (log w') = synth_calls (log w) ++ [(text, v)]).
Proof.
  unfold generate_audio_clip, try_except, bind. rewrite dict_get_voice.
  destruct (voice_of speaker) as [v|].
  - unfold call_generate_audio.
    destruct (generate_audio E (gen_n w) text v) as [audio|e0] eqn:Hg;
      [simpl; discriminate|].
    unfold logger_error, emit, raise. intros H. injection H as <- <-.
    cbn [log fs gen_n]. rewrite !errors_app, !synth_calls_app. simpl.
    rewrite !app_nil_r. split; [reflexivity|]. split; [reflexivity|].
    right. exists v. now repeat split.
  - unfold logger_error, emit, raise. intros H. injection H as <- <-.
    cbn [log fs gen_n exn_msg]. rewrite !errors_app, !synth_calls_app.
    cbn [errors synth_calls flat_map app].
    rewrite !app_nil_r. split; [reflexivity|]. split; [reflexivity|].
    left. now repeat split.
Qed.

Lemma generate_audio_clip_logs_and_raises_witness :
  errors (log (snd (generate_audio_clip BarkScenario.studio "hmm" "o'neil" None
                      BarkScenario.w0))) =
    errors (log BarkScenario.w0)
    ++ ["Failed to generate '" +:+ "hmm" +:+ "' by " +:+ "o'neil" +:+ ": "
        +:+ exn_msg (Exn KeyError (dq +:+ "o'neil" +:+ dq))] /\
  fs (snd (generate_audio_clip BarkScenario.studio "hmm" "o'neil" None BarkScenario.w0))
    = fs BarkScenario.w0 /\
  (voice_of "o'neil" = None /\
   exn_cls (Exn KeyError (dq +:+ "o'neil" +:+ dq)) = KeyError /\
   gen_n (snd (generate_audio_clip BarkScenario.studio "hmm" "o'neil" None
                 BarkScenario.w0))
     = gen_n BarkScenario.w0 /\
   synth_calls (log (snd (generate_audio_clip BarkScenario.studio "hmm" "o'neil" None
                            BarkScenario.w0)))
     = synth_calls (log BarkScenario.w0)
   \/
   exists v, voice_of "o'neil" = Some v /\
             generate_audio BarkScenario.studio (gen_n BarkScenario.w0) "hmm" v
               = Raise (Exn KeyError (dq +:+ "o'neil" +:+ dq)) /\
             gen_n (snd (generate_audio_clip BarkScenario.studio "hmm" "o'neil" None
                           BarkScenario.w0)) = S (gen_n BarkScenario.w0) /\
             synth_calls (log (snd (generate_audio_clip BarkScenario.studio "hmm"
                                      "o'neil" None BarkScenario.w0)))
               = synth_calls (log BarkScenario.w0) ++ [("hmm", v)]).
Proof.
  apply (generate_audio_clip_logs_and_raises BarkScenario.studio "hmm" "o'neil" None
           BarkScenario.w0).
  reflexivity.
Defined.

(** *** Durations and files of the clips *)

Lemma uniform_range (lo hi u : Q) :
  (lo < hi)%Q -> (0 <= u)%Q -> (u < 1)%Q ->
  (lo <= lo + (hi - lo) * u)%Q /\ (lo + (hi - lo) * u < hi)%Q.
Proof. intros H1 H2 H3. split; nra. Qed.

Lemma filler_step_registers (E : Env) (f : Filler) (sp v : string)
  (clips clips' : registry) (w w' : World) :
  voice_of sp = Some v ->
  has_key clips (f_text f, sp) = false ->
  (0 < fst (f_duration_range f))%Q ->
  (fst (f_duration_range f) < snd (f_duration_range f))%Q ->
  filler_step E f sp clips w = (clips', w') ->
  (clips' = clips /\
   (fs w' = fs w \/
    exists partial, fs w' = <[filler_filename sp (f_text f) := partial]> (fs w)))
  \/
  exists (d : Q) (content : ndarray),
    (fst (f_duration_range f) <= d)%Q /\ (d <= snd (f_duration_range f))%Q /\
    (inject_Z (Z.of_nat (List.length content)) < d * 24000 + 1)%Q /\
    clips' = clips ++ [((f_text f, sp), (filler_filename sp (f_text f), f_type f, d))] /\
    fs w' = <[filler_filename sp (f_text f) := content]> (fs w).
Proof.
  intros Hv Hkey Hlo Hrange.
  unfold filler_step, filler_try, try_except, bind, uniform.
  unfold bind at 1. destruct (random_spec E w) as (u & Hu0 & Hu1 & ->).
  unfold ret at 1. rewrite Hkey.
  unfold logger_info, emit, generate_audio_clip, try_except, bind.
  rewrite dict_get_voice, Hv.
  unfold call_generate_audio, write_wav, logger_error, emit, raise, ret.
  cbn [rand_n gen_n wr_n fs log].
  destruct (uniform_range _ _ u Hrange Hu0 Hu1) as [Hd1 Hd2].
  set (d := (fst (f_duration_range f)
             + (snd (f_duration_range f) - fst (f_duration_range f)) * u)%Q) in *.
  destruct (generate_audio E (gen_n w) (f_text f) v) as [audio|e].
  - cbn [rand_n gen_n wr_n fs log].
    destruct (write_wav_error E (wr_n w) (filler_filename sp (f_text f))) as [e|].
    + intros H. injection H as <- <-. left. split; [reflexivity|]. cbn [fs].
      destruct (write_wav_leaves E _ _ _) as [partial|]; [right; eauto | now left].
    + intros H. injection H as <- <-. right. cbn [fs].
      rewrite (dict_set_fresh _ _ _ Hkey).
      eexists d, _. split; [exact Hd1|]. split; [now apply Qlt_le_weak|].
      split; [|split; reflexivity].
      assert (Hpos : (0 < d)%Q) by (eapply Qlt_le_trans; eassumption).
      destruct (Qeq_bool d 0) eqn:Hz.
      { apply Qeq_bool_iff in Hz. rewrite Hz in Hpos. now apply Qlt_irrefl in Hpos. }
      assert (Hn : 0 <= Qint (d * 24000)).
      { apply Qint_nonneg. apply Qmult_le_0_compat; [now apply Qlt_le_weak | discriminate]. }
      pose proof (array_to_length audio (Qint (d * 24000)) Hn) as Hlen.
      destruct (Qint_within_one (d * 24000)) as [H1 _].
      assert (Hq : (inject_Z (Z.of_nat (List.length (array_to audio (Qint (d * 24000)))))
                    <= inject_Z (Qint (d * 24000)))%Q).
      { rewrite <- Zle_Qle. lia. }
      lra.
  - intros H. injection H as <- <-. left. split; [reflexivity | now left].
Qed.

Lemma jobs_well_formed_spec (jobs : list (Filler * string)) :
  jobs_well_formed jobs = true ->
  forall j, In j jobs ->
    (0 < fst (f_duration_range (fst j)))%Q /\
    (fst (f_duration_range (fst j)) < snd (f_duration_range (fst j)))%Q /\
    forall j', In j' jobs ->
      filler_filename (snd j) (f_text (fst j))
        = filler_filename (snd j') (f_text (fst j')) ->
      job_key j = job_key j'.
Proof.
  intros H j Hj. unfold jobs_well_formed in H.
  pose proof (proj1 (List.forallb_forall _ _) H j Hj) as H1. cbv beta in H1.
  apply andb_true_iff in H1 as [H1 H3]. apply andb_true_iff in H1 as [H1 H2].
  apply Qltb_lt in H1, H2. split; [exact H1|]. split; [exact H2|].
  intros j' Hj' Hfile.
  pose proof (proj1 (List.forallb_forall _ _) H3 j' Hj') as H4. cbv beta in H4.
  rewrite Hfile, String.eqb_refl in H4. cbn [negb orb] in H4.
  now apply key_eqb_eq.
Qed.

Lemma fresh_key (w0 : World) (done : list (Filler * string)) (j : Filler * string)
  (clips : registry) (w : World) :
  NoDup (map job_key (done ++ [j])) ->
  filler_inv w0 done clips w ->
  has_key clips (job_key j) = false.
Proof.
  intros Hnd (_ & _ & _ & _ & Hok).
  apply has_key_false. intros Hin.
  apply in_map_iff in Hin as (kv & Hkv & Hin).
  rewrite Forall_forall in Hok. apply list_elem_of_In in Hin.
  destruct (Hok kv Hin) as (j' & Hj' & Hk' & _).
  rewrite map_app in Hnd. simpl in Hnd.
  apply NoDup_app in Hnd as (_ & Hdisj & _).
  apply (Hdisj (job_key j')).
  - apply list_elem_of_In, in_map. exact Hj'.
  - rewrite <- Hk', Hkv. apply list_elem_of_singleton. reflexivity.
Qed.

Lemma filler_loop_within (E : Env) (w0 : World) (all : list (Filler * string)) :
  jobs_well_formed all = true ->
  forall (jobs done : list (Filler * string)) (clips : registry) (w : World),
    all = done ++ jobs ->
    NoDup (map job_key all) ->
    Forall (fun j => is_Some (voice_of (snd j))) jobs ->
    filler_inv w0 done clips w ->
    Forall (clip_within (map fst all) (fs w)) clips ->
    Forall (clip_within (map fst all)
              (fs (snd (for_each jobs (fun j => filler_step E (fst j) (snd j)) clips w))))
      (fst (for_each jobs (fun j => filler_step E (fst j) (snd j)) clips w)).
Proof.
  intros Hwf. induction jobs as [|j jobs IH];
    intros done clips w Hall Hnd Hvoices Hinv Hin; [exact Hin|].
  simpl. destruct (filler_step E (fst j) (snd j) clips w) as [clips1 w1] eqn:Hstep.
  assert (Hall' : all = (done ++ [j]) ++ jobs) by now rewrite <- app_assoc.
  assert (Hnd1 : NoDup (map job_key (done ++ [j]))).
  { rewrite Hall', map_app in Hnd. now apply NoDup_app in Hnd as (Hnd & _ & _). }
  apply Forall_cons_1 in Hvoices as [[v Hv] Hvoices].
  pose proof (fresh_key w0 done j clips w Hnd1 Hinv) as Hfresh.
  assert (Hinv1 : filler_inv w0 (done ++ [j]) clips1 w1).
  { pose proof (filler_loop_inv E w0 [j] done clips w Hnd1) as H.
    simpl in H. rewrite Hstep in H. apply H; [|exact Hinv].
    constructor; [now exists v | constructor]. }
  assert (Hj : In j all) by (rewrite Hall; apply in_or_app; right; now left).
  destruct (jobs_well_formed_spec all Hwf j Hj) as (Hlo & Hrange & Hfiles).
  apply (IH (done ++ [j]) clips1 w1 Hall' Hnd Hvoices Hinv1).
  assert (Hkept : forall content0,
            Forall (clip_within (map fst all)
                      (<[filler_filename (snd j) (f_text (fst j)) := content0]> (fs w)))
              clips).
  { intros content0. destruct Hinv as (_ & _ & _ & _ & Hok).
    rewrite Forall_forall in Hok, Hin. apply Forall_forall. intros kv Hkv.
    destruct (Hin kv Hkv) as (Hr & content' & Hc & Hl).
    split; [exact Hr|]. exists content'. split; [|exact Hl].
    rewrite lookup_insert_ne; [exact Hc|].
    intros Heq. destruct (Hok kv Hkv) as (j' & Hj' & Hk' & Hp' & _).
    assert (Hj'all : In j' all) by (rewrite Hall; apply in_or_app; now left).
    rewrite Hp' in Heq. pose proof (Hfiles j' Hj'all Heq) as Hkey.
    rewrite map_app in Hnd1. simpl in Hnd1.
    apply NoDup_app in Hnd1 as (_ & Hdisj & _).
    apply (Hdisj (job_key j')).
    - apply list_elem_of_In, in_map. exact Hj'.
    - rewrite <- Hkey. apply list_elem_of_singleton. reflexivity. }
  destruct (filler_step_registers E (fst j) (snd j) v clips clips1 w w1
              Hv Hfresh Hlo Hrange Hstep)
    as [[-> [Hfs | [partial Hfs]]] | (d & content & Hd1 & Hd2 & Hlen & -> & Hfs)].
  - now rewrite Hfs.
  - rewrite Hfs. apply Hkept.
  - apply Forall_app. split.
    + rewrite Hfs. apply Hkept.
    + apply Forall_singleton. split.
      * exists (fst j). split; [apply in_map; exact Hj|]. now repeat split.
      * exists content. unfold clip_path, clip_duration. simpl.
        rewrite Hfs, lookup_insert_eq. now split.
Qed.

Lemma fillers_well_formed : jobs_well_formed (jobs_of FILLERS) = true.
Proof. vm_compute. reflexivity. Qed.

(** X10: every clip that [ensure_filler_clips] registers belongs to a
    filler of the list, its recorded duration lies in the duration range
    of that filler, ends included ([lo <= d <= hi]), and its file is on
    the disk when the function returns, holding fewer than
    [d * 24000 + 1] samples, whatever the other writes left behind. *)
Theorem clips_within_range_and_duration (E : Env) (w : World) :
  Forall (clip_within FILLERS (fs (snd (ensure_filler_clips E w))))
    (fst (ensure_filler_clips E w)).
Proof.
  unfold ensure_filler_clips, logger_info, emit. cbn iota beta zeta.
  rewrite for_each_jobs.
  set (w2 := {| rand_n := _; gen_n := _; wr_n := _; fs := _; log := _ |}).
  pose proof (filler_loop_within E w2 (jobs_of FILLERS) fillers_well_formed
                (jobs_of FILLERS) [] [] w2 eq_refl jobs_keys_nodup jobs_have_voices)
    as H.
  assert (Hinv : filler_inv w2 [] [] w2).
  { unfold filler_inv. simpl. rewrite !app_nil_r.
    repeat split; auto using NoDup_nil_2. }
  specialize (H Hinv ltac:(constructor)).
  eapply Forall_impl; [exact H|].
  intros kv ((f & Hf & Hrest) & Hfile). split; [|exact Hfile].
  exists f. split; [|exact Hrest].
  apply in_map_iff in Hf as ((f' & s) & <- & Hin).
  unfold jobs_of in Hin. apply in_flat_map in Hin as (g & Hg & Hin).
  apply in_map_iff in Hin as (s' & Heq & _). injection Heq as -> _. exact Hg.
Qed.

(** *** What [add_listener_responses] touches *)

Lemma advance_0 (w : World) : advance 0 w = w.
Proof. destruct w. unfold advance. simpl. f_equal. lia. Qed.

Lemma advance_advance (a b : nat) (w : World) :
  advance a (advance b w) = advance (b + a) w.
Proof. unfold advance. simpl. f_equal. lia. Qed.

Lemma random_advance (E : Env) (w : World) :
  exists u, (0 <= u)%Q /\ (u < 1)%Q /\
    u = (rand E (rand_n w) - inject_Z (Qfloor (rand E (rand_n w))))%Q /\
    random E w = (Ok u, advance 1 w).
Proof.
  eexists. split; [|split; [|split; [reflexivity|]]]; try apply frac_range.
  unfold random, advance. do 2 f_equal. lia.
Qed.

Lemma choices_advance {A} (E : Env) (population : list A) (weights : list Q)
  (w w' : World) (r : result A) :
  choices E population weights w = (r, w') ->
  exists n, (n <= 1)%nat /\ w' = advance n w.
Proof.
  unfold choices, bind, ret, raise.
  destruct (total_weight Qplus weights) as [t|].
  2:{ intros H. injection H as _ <-. exists O. rewrite advance_0. split; [lia | reflexivity]. }
  destruct (Qltb 0 t).
  2:{ intros H. injection H as _ <-. exists O. rewrite advance_0. split; [lia | reflexivity]. }
  destruct (random_advance E w) as (u & _ & _ & _ & ->).
  destruct (nth_error population _); intros H; injection H as _ <-;
    exists 1%nat; (split; [lia | reflexivity]).
Qed.

Lemma choice_advance {A} (E : Env) (seq : list A) (w w' : World) (r : result A) :
  choice E seq w = (r, w') ->
  exists n, (n <= 1)%nat /\ w' = advance n w.
Proof.
  unfold choice. destruct seq as [|a seq].
  { unfold raise. intros H. injection H as _ <-. exists O. rewrite advance_0. split; [lia | reflexivity]. }
  unfold randbelow, bind, ret, raise.
  destruct (random_advance E w) as (u & _ & _ & _ & ->).
  destruct (nth_error (a :: seq) _); intros H; injection H as _ <-;
    exists 1%nat; (split; [lia | reflexivity]).
Qed.

Lemma select_advances (E : Env) (main_audio : AudioSegment) (main_speaker : string)
  (filler_clips : registry) (w w' : World)
  (r : result (option ((Z * Z) * string * Q))) :
  select_pause_and_filler E main_audio main_speaker filler_clips w = (r, w') ->
  exists n, (n <= 3)%nat /\ w' = advance n w /\
            (find_conversation_pauses E main_audio = [] -> n = O).
Proof.
  unfold select_pause_and_filler. unfold bind at 1.
  destruct (find_conversation_pauses E main_audio) as [|p0 ps] eqn:Hp.
  { simpl. intros H. injection H as _ <-. exists O. rewrite advance_0.
    split; [lia|]. split; reflexivity. }
  cbn [is_nil]. unfold bind at 1.
  destruct (random_advance E w) as (u & _ & _ & _ & ->).
  unfold ret at 1. destruct (Qltb ACKNOWLEDGMENT_PROBABILITY u).
  { intros H. injection H as _ <-. exists 1%nat.
    split; [lia|]. split; [reflexivity | discriminate]. }
  cbn zeta. destruct (is_nil (suitable_pauses_of _ _)).
  { intros H. injection H as _ <-. exists 1%nat.
    split; [lia|]. split; [reflexivity | discriminate]. }
  unfold bind at 1.
  destruct (choices E _ _ _) as [[p|e] w1] eqn:Hc;
    apply choices_advance in Hc as (n1 & Hn1 & ->); rewrite advance_advance.
  2:{ intros H. injection H as _ <-. exists (1 + n1)%nat.
      split; [lia|]. split; [reflexivity | discriminate]. }
  destruct (is_nil (available_fillers_of _ _)).
  { intros H. injection H as _ <-. exists (1 + n1)%nat.
    split; [lia|]. split; [reflexivity | discriminate]. }
  unfold bind at 1.
  destruct (choice E _ _) as [[c|e] w2] eqn:Hch;
    apply choice_advance in Hch as (n2 & Hn2 & ->); rewrite advance_advance;
    intros H; injection H as _ <-; exists (1 + n1 + n2)%nat;
    (split; [lia|]; split; [reflexivity | discriminate]).
Qed.

(** X11: [add_listener_responses] only reads: it writes and removes no
    file and never calls the model; it draws at most three random
    variates, and none when the line has no pause; it logs nothing, except
    one error [Failed to insert filler: <message>] when the clip cannot be
    loaded, and then it returns the line unchanged. *)
Theorem add_listener_responses_only_reads (E : Env) (main_audio : AudioSegment)
  (main_speaker : string) (filler_clips : registry) (w w' : World)
  (r : result AudioSegment) :
  add_listener_responses E main_audio main_speaker filler_clips w = (r, w') ->
  fs w' = fs w /\ gen_n w' = gen_n w /\ wr_n w' = wr_n w /\
  (rand_n w <= rand_n w' <= rand_n w + 3)%nat /\
  (find_conversation_pauses E main_audio = [] -> rand_n w' = rand_n w) /\
  (log w' = log w \/
   exists e, r = Ok main_audio /\
             log w' = log w ++ [LogError ("Failed to insert filler: " +:+ exn_msg e)]).
Proof.
  unfold add_listener_responses, bind at 1.
  destruct (select_pause_and_filler E main_audio main_speaker filler_clips w)
    as [[o|e] w1] eqn:Hsel;
    apply select_advances in Hsel as (n & Hn & -> & Hnil).
  2:{ intros H. injection H as _ <-. unfold advance. simpl.
      repeat split; try lia; [|now left]. intros Hp. rewrite (Hnil Hp). lia. }
  assert (Hframe : forall w2, w2 = advance n w ->
            fs w2 = fs w /\ gen_n w2 = gen_n w /\ wr_n w2 = wr_n w /\
            (rand_n w <= rand_n w2 <= rand_n w + 3)%nat /\
            (find_conversation_pauses E main_audio = [] -> rand_n w2 = rand_n w) /\
            log w2 = log w).
  { intros w2 ->. unfold advance. simpl. repeat split; try lia.
    intros Hp. rewrite (Hnil Hp). lia. }
  destruct o as [[[pause path] dur]|].
  2:{ intros H. injection H as _ <-.
      destruct (Hframe _ eq_refl) as (H1 & H2 & H3 & H4 & H5 & H6).
      repeat split; try assumption; try lia. now left. }
  cbn zeta. destruct (_ <? _).
  { intros H. injection H as _ <-.
    destruct (Hframe _ eq_refl) as (H1 & H2 & H3 & H4 & H5 & H6).
    repeat split; try assumption; try lia. now left. }
  unfold try_except, load_filler, bind, from_wav.
  destruct (fs (advance n w) !! path) as [content|].
  - destruct (decode_wav E content) as [loaded|e].
    + unfold ret. intros H. injection H as _ <-.
      destruct (Hframe _ eq_refl) as (H1 & H2 & H3 & H4 & H5 & H6).
      repeat split; try assumption; try lia. now left.
    + unfold logger_error, emit, ret. intros H. injection H as <- <-.
      destruct (Hframe _ eq_refl) as (H1 & H2 & H3 & H4 & H5 & H6).
      cbn [fs gen_n wr_n rand_n log]. unfold advance in *. cbn [fs gen_n wr_n rand_n log] in *.
      repeat split; try assumption; try lia. right. exists e. split; reflexivity.
  - unfold logger_error, emit, ret. intros H. injection H as <- <-.
    destruct (Hframe _ eq_refl) as (H1 & H2 & H3 & H4 & H5 & H6).
    cbn [fs gen_n wr_n rand_n log]. unfold advance in *. cbn [fs gen_n wr_n rand_n log] in *.
    repeat split; try assumption; try lia. right.
    exists (Exn FileNotFoundError (no_such_file path)). split; reflexivity.
Qed.

Lemma add_listener_responses_only_reads_witness :
  fs (snd (select_pause_and_filler BarkScenario.studio BarkScenario.one_second
             "sandip" BarkScenario.aha_clips BarkScenario.aha_disk))
  = fs BarkScenario.aha_disk.
Proof.
  refine (proj1 (add_listener_responses_only_reads BarkScenario.studio
            BarkScenario.one_second "sandip" BarkScenario.aha_clips
            BarkScenario.aha_disk
            (snd (select_pause_and_filler BarkScenario.studio BarkScenario.one_second
                    "sandip" BarkScenario.aha_clips BarkScenario.aha_disk))
            (Ok (firstn 300 BarkScenario.one_second
                 ++ apply_gain BarkScenario.studio FILLER_VOLUME_REDUCTION
                      (repeat 10 400)
                 ++ skipn 300 BarkScenario.one_second)) _)).
  vm_compute. reflexivity.
Defined.

(** *** The lines of the conversation *)

Lemma add_listener_responses_fs (E : Env) (main_audio : AudioSegment)
  (main_speaker : string) (filler_clips : registry) (w : World) :
  fs (snd (add_listener_responses E main_audio main_speaker filler_clips w)) = fs w.
Proof.
  unfold add_listener_responses, bind.
  destruct (select_pause_and_filler E main_audio main_speaker filler_clips w)
    as [[o|e] w1] eqn:Hsel;
    apply select_advances in Hsel as (n & _ & -> & _); [|reflexivity].
  destruct o as [[[pause path] dur]|]; [|reflexivity].
  cbn zeta. destruct (_ <? _); [reflexivity|].
  unfold try_except, load_filler, bind, from_wav.
  destruct (fs (advance n w) !! path); [destruct (decode_wav E _)|]; reflexivity.
Qed.

Lemma generate_audio_clip_fs (E : Env) (text speaker : string) (duration : option Q)
  (w : World) :
  fs (snd (generate_audio_clip E text speaker duration w)) = fs w.
Proof.
  unfold generate_audio_clip, try_except, bind. rewrite dict_get_voice.
  destruct (voice_of speaker) as [v|]; [|reflexivity].
  unfold call_generate_audio. destruct (generate_audio E (gen_n w) text v); reflexivity.
Qed.

Lemma randint_range (E : Env) (a b : Z) (w : World) :
  a <= b ->
  exists k, a <= k <= b /\ randint E a b w = (Ok k, advance 1 w).
Proof.
  intros Hab. unfold randint, randbelow, bind.
  destruct (random_advance E w) as (u & H0 & H1 & _ & ->). unfold ret.
  pose proof (randbelow_range u (b - a + 1) H0 H1 ltac:(lia)) as Hk.
  eexists. split; [|reflexivity]. lia.
Qed.

(** What a call of [generate_audio_clip] without a duration leaves when it
    returns. *)
Lemma generate_audio_clip_whole (E : Env) (text speaker : string) (w w' : World)
  (audio : ndarray) :
  generate_audio_clip E text speaker None w = (Ok audio, w') ->
  exists v,
    voice_of speaker = Some v /\
    generate_audio E (gen_n w) text v = Ok audio /\
    w' = {| rand_n := rand_n w; gen_n := S (gen_n w); wr_n := wr_n w;
            fs := fs w; log := log w ++ [Synth text v] |}.
Proof.
  unfold generate_audio_clip, try_except, bind. rewrite dict_get_voice.
  destruct (voice_of speaker) as [v|]; [|simpl; discriminate].
  unfold call_generate_audio.
  destruct (generate_audio E (gen_n w) text v) as [a|e] eqn:Hg; [|simpl; discriminate].
  unfold ret. intros H. injection H as <- <-. exists v. now repeat split.
Qed.

(** The ways a line can go: the clip cannot be made; it cannot be written;
    it is written and cannot be read back; the listener's response
    raises; or the line is appended. *)
Lemma line_try_cases (E : Env) (filler_clips : registry) (line : ScriptLine)
  (conversation : AudioSegment) (w w' : World) (r : result AudioSegment) :
  line_try E filler_clips line conversation w = (r, w') ->
  (exists e, r = Raise e /\ fs w' = fs w) \/
  (exists e audio,
      r = Raise e /\ write_wav_error E (wr_n w) "temp_line.wav" = Some e /\
      fs w' = match write_wav_leaves E (wr_n w) "temp_line.wav" audio with
              | Some partial => <["temp_line.wav" := partial]> (fs w)
              | None => fs w
              end) \/
  (exists e audio,
      r = Raise e /\ decode_wav E audio = Raise e /\
      fs w' = <["temp_line.wav" := audio]> (fs w)) \/
  (exists e, r = Raise e /\ fs w' = delete "temp_line.wav" (fs w)) \/
  (exists v audio line_audio enhanced gap w3 w4,
      voice_of (line_speaker line) = Some v /\
      generate_audio E (gen_n w) (line_text line) v = Ok audio /\
      decode_wav E audio = Ok line_audio /\
      (rand_n w3 = rand_n w /\ gen_n w3 = S (gen_n w) /\ wr_n w3 = S (wr_n w) /\
       fs w3 = delete "temp_line.wav" (fs w) /\
       log w3 = log w ++ [LogInfo ("Processing: " +:+ line_speaker line +:+ " - '"
                                   +:+ line_text line +:+ "'");
                          Synth (line_text line) v;
                          WroteWav "temp_line.wav"; Removed "temp_line.wav"]) /\
      add_listener_responses E line_audio (line_speaker line) filler_clips w3
        = (Ok enhanced, w4) /\
      r = Ok (conversation ++ enhanced ++ gap) /\
      fs w' = delete "temp_line.wav" (fs w) /\
      log w' = log w4 /\
      if not_last_line line
      then exists p, 400 <= p <= 700 /\ gap = sync_silence E (silent p)
      else gap = [] /\ w' = w4).
Proof.
  unfold line_try. unfold bind at 1. unfold logger_info at 1, emit at 1.
  unfold bind at 1.
  match goal with
  | |- context [generate_audio_clip E ?t ?s None ?w0] =>
      pose proof (generate_audio_clip_fs E t s None w0) as Hg;
      destruct (generate_audio_clip E t s None w0) as [[audio|e] w1] eqn:Hclip
  end; cbn [snd fs] in Hg.
  2:{ intros H. injection H as <- <-. left. exists e. now split. }
  apply generate_audio_clip_whole in Hclip as (v & Hv & Hgen & ->).
  cbn [gen_n wr_n fs log rand_n] in *.
  unfold bind at 1. unfold write_wav at 1. cbn [gen_n wr_n fs log rand_n].
  destruct (write_wav_error E (wr_n w) "temp_line.wav") as [e|] eqn:Hwe.
  { intros H. injection H as <- <-. right. left. exists e, audio.
    split; [reflexivity|]. split; reflexivity. }
  unfold bind at 1. unfold from_wav at 1. cbn [fs]. rewrite lookup_insert_eq.
  destruct (decode_wav E audio) as [line_audio|e] eqn:Hd.
  2:{ intros H. injection H as <- <-. right. right. left. exists e, audio.
      cbn [fs]. now repeat split. }
  unfold bind at 1. unfold os_remove at 1. cbn [fs gen_n wr_n log rand_n].
  rewrite lookup_insert_eq. unfold bind at 1.
  rewrite delete_insert_eq.
  match goal with
  | |- context [add_listener_responses E line_audio ?s filler_clips ?w3] =>
      pose proof (add_listener_responses_fs E line_audio s filler_clips w3) as Ha;
      destruct (add_listener_responses E line_audio s filler_clips w3)
        as [[enhanced|e] w4] eqn:Halr
  end; cbn [snd fs] in Ha.
  2:{ intros H. injection H as <- <-. right. right. right. left. exists e. now split. }
  intros H. right. right. right. right. cbn zeta in H.
  eexists v, audio, line_audio, enhanced.
  destruct (not_last_line line).
  - destruct (randint_range E (-100) 200 w4 ltac:(lia)) as (k & Hk & Hr).
    unfold bind in H. rewrite Hr in H. unfold ret in H. injection H as <- <-.
    match type of Halr with
    | add_listener_responses _ _ _ _ ?w3 = _ => eexists _, w3, w4
    end.
    split; [exact Hv|]. split; [exact Hgen|]. split; [exact Hd|].
    split.
    { cbn [rand_n gen_n wr_n fs log]. repeat split.
      rewrite <- !app_assoc. reflexivity. }
    split; [exact Halr|]. split; [now rewrite <- app_assoc|].
    split; [exact Ha|]. split; [reflexivity|].
    exists (PAUSE_BETWEEN_LINES + k). split; [|reflexivity].
    unfold PAUSE_BETWEEN_LINES. lia.
  - unfold ret in H. injection H as <- <-.
    match type of Halr with
    | add_listener_responses _ _ _ _ ?w3 = _ => eexists [], w3, w4
    end.
    split; [exact Hv|]. split; [exact Hgen|]. split; [exact Hd|].
    split.
    { cbn [rand_n gen_n wr_n fs log]. repeat split.
      rewrite <- !app_assoc. reflexivity. }
    split; [exact Halr|]. split; [now rewrite app_nil_r|].
    split; [exact Ha|]. split; [reflexivity|]. split; reflexivity.
Qed.

Lemma line_step_fs (E : Env) (filler_clips : registry) (line : ScriptLine)
  (conversation : AudioSegment) (w : World) :
  let w' := snd (line_step E filler_clips line conversation w) in
  fs w' = fs w \/
  fs w' = delete "temp_line.wav" (fs w) \/
  (exists audio e,
     decode_wav E audio = Raise e /\ fs w' = <["temp_line.wav" := audio]> (fs w)) \/
  (exists audio partial e,
     write_wav_error E (wr_n w) "temp_line.wav" = Some e /\
     write_wav_leaves E (wr_n w) "temp_line.wav" audio = Some partial /\
     fs w' = <["temp_line.wav" := partial]> (fs w)).
Proof.
  unfold line_step.
  destruct (line_try E filler_clips line conversation w) as [[c|e] w1] eqn:Ht;
    apply line_try_cases in Ht
      as [(e0 & He & Hfs) | [(e0 & audio & He & Hwe & Hfs) |
          [(e0 & audio & He & Hd & Hfs) | [(e0 & He & Hfs) |
          (v & audio & la & enh & gap & w3 & w4 & _ & _ & _ & _ & _ & He & Hfs & _)]]]];
    try discriminate He; cbn [snd logger_error emit fs].
  - right. left. exact Hfs.
  - left. exact Hfs.
  - destruct (write_wav_leaves E (wr_n w) "temp_line.wav" audio) as [partial|] eqn:Hl.
    + right. right. right. exists audio, partial, e0. now repeat split.
    + left. exact Hfs.
  - right. right. left. injection He as ->. now exists audio, e0.
  - right. left. exact Hfs.
Qed.

Lemma line_step_keeps_files (E : Env) (filler_clips : registry) (line : ScriptLine)
  (conversation : AudioSegment) (w : World) (path : string) :
  path <> "temp_line.wav" ->
  fs (snd (line_step E filler_clips line conversation w)) !! path = fs w !! path.
Proof.
  intros Hp.
  destruct (line_step_fs E filler_clips line conversation w)
    as [-> | [-> | [(audio & e & _ & ->) | (audio & partial & e & _ & _ & ->)]]].
  - reflexivity.
  - now apply lookup_delete_ne.
  - now apply lookup_insert_ne.
  - now apply lookup_insert_ne.
Qed.

Lemma conversation_loop_keeps_files (E : Env) (filler_clips : registry)
  (path : string) :
  path <> "temp_line.wav" ->
  forall (lines : list ScriptLine) (conversation : AudioSegment) (w : World),
    fs (snd (for_each lines (line_step E filler_clips) conversation w)) !! path
    = fs w !! path.
Proof.
  intros Hp. induction lines as [|line lines IH]; intros conversation w.
  - reflexivity.
  - simpl.
    pose proof (line_step_keeps_files E filler_clips line conversation w path Hp) as Hs.
    destruct (line_step E filler_clips line conversation w) as [c1 w1].
    cbn [snd] in Hs. now rewrite IH.
Qed.

Lemma generate_conversation_keeps_files (E : Env) (filler_clips : registry)
  (w : World) (path : string) :
  path <> "temp_line.wav" ->
  fs (snd (generate_conversation E filler_clips w)) !! path = fs w !! path.
Proof.
  intros Hp. unfold generate_conversation, logger_info, emit. cbn iota beta zeta.
  now rewrite (conversation_loop_keeps_files E filler_clips path Hp).
Qed.





(** With a full disk the write of the first line fails after it emptied
    the file: the recording that was in [temp_line.wav] is lost and an
    empty file stays. *)
Example failed_write_leaves_an_emptied_file :
  let w := {| rand_n := 0; gen_n := 0; wr_n := 0;
              fs := <["temp_line.wav" := [1; 2; 3]]> ∅; log := [] |} in
  fs (snd (line_step BarkScenario.full_disk [] BarkScenario.first_line [] w))
    !! "temp_line.wav" = Some [].
Proof. vm_compute. reflexivity. Qed.

(** X14: [generate_conversation] changes no file but [temp_line.wav]. *)
Theorem conversation_changes_no_other_file (E : Env) (filler_clips : registry)
  (w : World) (path : string) :
  path <> "temp_line.wav" ->
  fs (snd (generate_conversation E filler_clips w)) !! path = fs w !! path.
Proof. apply generate_conversation_keeps_files. Qed.

Lemma conversation_changes_no_other_file_witness :
  fs (snd (generate_conversation BarkScenario.studio BarkScenario.aha_clips
             BarkScenario.aha_disk)) !! "fillers/yashaha.wav"
  = fs BarkScenario.aha_disk !! "fillers/yashaha.wav".
Proof.
  apply (conversation_changes_no_other_file BarkScenario.studio
           BarkScenario.aha_clips BarkScenario.aha_disk "fillers/yashaha.wav").
  discriminate.
Defined.






Lemma line_eqb_eq (a b : ScriptLine) : line_eqb a b = true <-> a = b.
Proof.
  unfold line_eqb. rewrite andb_true_iff, !String.eqb_eq.
  destruct a, b. simpl. split; [intros [-> ->]; reflexivity|].
  intros H. injection H as -> ->. now split.
Qed.


(** X16: a line that is processed is appended as the line with the
    listener's response, followed by a gap; the line carries no gap
    exactly when it equals the last line of the script. What is appended
    is what [add_listener_responses] made of the clip read back from the
    temporary file, which holds what the speech model gave for the text
    of the line in the voice of its speaker; it is called once the
    temporary file is removed. The gap is the silence of 400 to 700 ms
    that [AudioSegment.silent] makes, converted by pydub to the format of
    the conversation when it is appended. *)
Theorem line_is_appended_with_a_gap (E : Env) (filler_clips : registry)
  (line : ScriptLine) (conversation c : AudioSegment) (w w' : World) :
  line_try E filler_clips line conversation w = (Ok c, w') ->
  exists v audio line_audio enhanced gap w3 w4,
    voice_of (line_speaker line) = Some v /\
    generate_audio E (gen_n w) (line_text line) v = Ok audio /\
    decode_wav E audio = Ok line_audio /\
    (rand_n w3 = rand_n w /\ gen_n w3 = S (gen_n w) /\ wr_n w3 = S (wr_n w) /\
     fs w3 = delete "temp_line.wav" (fs w) /\
     log w3 = log w ++ [LogInfo ("Processing: " +:+ line_speaker line +:+ " - '"
                                 +:+ line_text line +:+ "'");
                        Synth (line_text line) v;
                        WroteWav "temp_line.wav"; Removed "temp_line.wav"]) /\
    add_listener_responses E line_audio (line_speaker line) filler_clips w3
      = (Ok enhanced, w4) /\
    c = conversation ++ enhanced ++ gap /\
    fs w' = fs w4 /\ log w' = log w4 /\
    (Some line <> last BASE_SCRIPT ->
     exists p, 400 <= p <= 700 /\ gap = sync_silence E (silent p)) /\
    (Some line = last BASE_SCRIPT -> gap = [] /\ w' = w4).
Proof.
  intros Ht.
  apply line_try_cases in Ht
    as [(e0 & He & _) | [(e0 & audio & He & _) | [(e0 & audio & He & _) |
        [(e0 & He & _) |
         (v & audio & la & enh & gap & w3 & w4 & Hv & Hgen & Hd & Hw3 & Ha & He
          & Hfs & Hlog & Hgap)]]]];
    try discriminate He.
  injection He as ->. exists v, audio, la, enh, gap, w3, w4.
  split; [exact Hv|]. split; [exact Hgen|]. split; [exact Hd|].
  split; [exact Hw3|]. split; [exact Ha|]. split; [reflexivity|].
  split.
  { rewrite Hfs. symmetry.
    pose proof (add_listener_responses_fs E la (line_speaker line) filler_clips w3) as H.
    rewrite Ha in H. cbn [snd] in H. rewrite H. apply Hw3. }
  split; [exact Hlog|].
  unfold not_last_line in Hgap.
  destruct (last BASE_SCRIPT) as [l|] eqn:Hl; [|discriminate Hl].
  destruct (line_eqb line l) eqn:Heq; cbn [negb] in Hgap.
  - apply line_eqb_eq in Heq as ->. split; [congruence | auto].
  - split; [auto|]. intros H. injection H as ->.
    assert (Hrefl : line_eqb l l = true) by now apply line_eqb_eq.
    congruence.
Qed.

Lemma line_is_appended_with_a_gap_witness :
  exists v audio line_audio enhanced gap w3 w4,
    voice_of (line_speaker BarkScenario.first_line) = Some v /\
    generate_audio BarkScenario.studio (gen_n BarkScenario.w0)
      (line_text BarkScenario.first_line) v = Ok audio /\
    decode_wav BarkScenario.studio audio = Ok line_audio /\
    (rand_n w3 = rand_n BarkScenario.w0 /\ gen_n w3 = S (gen_n BarkScenario.w0) /\
     wr_n w3 = S (wr_n BarkScenario.w0) /\
     fs w3 = delete "temp_line.wav" (fs BarkScenario.w0) /\
     log w3 = log BarkScenario.w0
              ++ [LogInfo ("Processing: " +:+ line_speaker BarkScenario.first_line
                           +:+ " - '" +:+ line_text BarkScenario.first_line +:+ "'");
                  Synth (line_text BarkScenario.first_line) v;
                  WroteWav "temp_line.wav"; Removed "temp_line.wav"]) /\
    add_listener_responses BarkScenario.studio line_audio
      (line_speaker BarkScenario.first_line) [] w3
      = (Ok enhanced, w4) /\
    repeat 0 (Z.to_nat 1550) = [] ++ enhanced ++ gap /\
    fs (snd (line_try BarkScenario.studio [] BarkScenario.first_line []
               BarkScenario.w0)) = fs w4 /\
    log (snd (line_try BarkScenario.studio [] BarkScenario.first_line []
                BarkScenario.w0)) = log w4 /\
    (Some BarkScenario.first_line <> last BASE_SCRIPT ->
     exists p, 400 <= p <= 700 /\ gap = sync_silence BarkScenario.studio (silent p)) /\
    (Some BarkScenario.first_line = last BASE_SCRIPT ->
     gap = [] /\
     snd (line_try BarkScenario.studio [] BarkScenario.first_line [] BarkScenario.w0)
     = w4).
Proof.
  apply (line_is_appended_with_a_gap BarkScenario.studio []
           BarkScenario.first_line [] (repeat 0 (Z.to_nat 1550)) BarkScenario.w0
           (snd (line_try BarkScenario.studio [] BarkScenario.first_line []
                   BarkScenario.w0))).
  vm_compute. reflexivity.
Defined.

(** *** A speech model that always fails *)

Section Dead.

Variable E : Env.
Hypothesis Hdead : forall k t v, exists e, generate_audio E k t v = Raise e.

Lemma generate_audio_clip_dead (text speaker : string) (duration : option Q)
  (w : World) :
  exists e w',
    generate_audio_clip E text speaker duration w = (Raise e, w') /\
    fs w' = fs w /\ wav_writes (log w') = wav_writes (log w).
Proof.
  unfold generate_audio_clip, try_except, bind. rewrite dict_get_voice.
  destruct (voice_of speaker) as [v|].
  - unfold call_generate_audio.
    destruct (Hdead (gen_n w) text v) as [e ->].
    unfold logger_error, emit, raise. eexists _, _. split; [reflexivity|].
    cbn [fs log]. split; [reflexivity|].
    rewrite !wav_writes_app. simpl. now rewrite !app_nil_r.
  - unfold logger_error, emit, raise. eexists _, _. split; [reflexivity|].
    cbn [fs log]. split; [reflexivity|].
    rewrite !wav_writes_app. simpl. now rewrite !app_nil_r.
Qed.

Lemma filler_step_dead (f : Filler) (sp : string) (clips : registry) (w : World) :
  exists w',
    filler_step E f sp clips w = (clips, w') /\
    fs w' = fs w /\ wav_writes (log w') = wav_writes (log w).
Proof.
  unfold filler_step, filler_try, try_except. unfold bind at 1. unfold uniform.
  unfold bind at 1. destruct (random_spec E w) as (u & _ & _ & ->).
  unfold ret at 1. destruct (has_key clips (f_text f, sp)).
  { unfold ret. eexists. split; [reflexivity|]. split; reflexivity. }
  unfold bind at 1. unfold logger_info at 1, emit at 1. unfold bind at 1.
  match goal with
  | |- context [generate_audio_clip E ?t ?s ?d ?w0] =>
      destruct (generate_audio_clip_dead t s d w0) as (e & w1 & -> & Hfs & Hwr)
  end.
  unfold bind, logger_error, emit, ret. eexists. split; [reflexivity|].
  cbn [fs log] in *. split; [exact Hfs|].
  rewrite wav_writes_app, Hwr, wav_writes_app. simpl. now rewrite !app_nil_r.
Qed.

Lemma filler_loop_dead (jobs : list (Filler * string)) :
  forall (clips : registry) (w : World),
  exists w',
    for_each jobs (fun j => filler_step E (fst j) (snd j)) clips w = (clips, w') /\
    fs w' = fs w /\ wav_writes (log w') = wav_writes (log w).
Proof.
  induction jobs as [|j jobs IH]; intros clips w.
  - exists w. now repeat split.
  - simpl. destruct (filler_step_dead (fst j) (snd j) clips w) as (w1 & -> & Hfs & Hwr).
    destruct (IH clips w1) as (w2 & -> & Hfs2 & Hwr2).
    exists w2. split; [reflexivity|]. split; congruence.
Qed.

Lemma line_step_dead (filler_clips : registry) (line : ScriptLine)
  (conversation : AudioSegment) (w : World) :
  exists w',
    line_step E filler_clips line conversation w = (conversation, w') /\
    fs w' = fs w /\ wav_writes (log w') = wav_writes (log w).
Proof.
  unfold line_step, line_try. unfold bind at 1. unfold logger_info at 1, emit at 1.
  unfold bind at 1.
  match goal with
  | |- context [generate_audio_clip E ?t ?s ?d ?w0] =>
      destruct (generate_audio_clip_dead t s d w0) as (e & w1 & -> & Hfs & Hwr)
  end.
  unfold logger_error, emit. eexists. split; [reflexivity|].
  cbn [fs log] in *. split; [exact Hfs|].
  rewrite wav_writes_app, Hwr, wav_writes_app. simpl. now rewrite !app_nil_r.
Qed.

Lemma conversation_loop_dead (filler_clips : registry) (lines : list ScriptLine) :
  forall (conversation : AudioSegment) (w : World),
  exists w',
    for_each lines (line_step E filler_clips) conversation w = (conversation, w') /\
    fs w' = fs w /\ wav_writes (log w') = wav_writes (log w).
Proof.
  induction lines as [|line lines IH]; intros conversation w.
  - exists w. now repeat split.
  - simpl.
    destruct (line_step_dead filler_clips line conversation w) as (w1 & -> & Hfs & Hwr).
    destruct (IH conversation w1) as (w2 & -> & Hfs2 & Hwr2).
    exists w2. split; [reflexivity|]. split; congruence.
Qed.

Lemma run_dead (w : World) :
  fst (ensure_filler_clips E w) = [] /\
  fst (run E w) = normalize E (silent 0) /\
  fs (snd (run E w)) = fs w /\
  wav_writes (log (snd (run E w))) = wav_writes (log w).
Proof.
  unfold run, generate_conversation, ensure_filler_clips, logger_info, emit.
  cbn iota beta zeta. rewrite for_each_jobs.
  match goal with
  | |- context [for_each (jobs_of FILLERS) ?body [] ?w2] =>
      destruct (filler_loop_dead (jobs_of FILLERS) [] w2) as (w3 & -> & Hfs & Hwr)
  end.
  cbn iota beta zeta.
  match goal with
  | |- context [for_each BASE_SCRIPT ?body (silent 0) ?w4] =>
      destruct (conversation_loop_dead [] BASE_SCRIPT (silent 0) w4)
        as (w5 & -> & Hfs5 & Hwr5)
  end.
  cbn [fst snd fs log] in *. split; [reflexivity|]. split; [reflexivity|].
  split; [congruence|].
  rewrite Hwr5, wav_writes_app, Hwr, !wav_writes_app. simpl. now rewrite !app_nil_r.
Qed.

End Dead.

(** X17: when the speech model fails at every call, nothing stops the
    run: no filler is registered, every line is skipped, the podcast
    handed to the export is the normalized empty segment, and the disk is
    as it was, with no file written. *)
Theorem run_ends_with_empty_podcast_when_model_fails (E : Env) (w : World) :
  (forall k t v, exists e, generate_audio E k t v = Raise e) ->
  fst (ensure_filler_clips E w) = [] /\
  fst (run E w) = normalize E (silent 0) /\
  fs (snd (run E w)) = fs w /\
  wav_writes (log (snd (run E w))) = wav_writes (log w).
Proof. intros Hdead. now apply run_dead. Qed.

Lemma run_ends_with_empty_podcast_when_model_fails_witness :
  fst (ensure_filler_clips BarkScenario.dead_studio BarkScenario.w0) = [] /\
  fst (run BarkScenario.dead_studio BarkScenario.w0)
    = normalize BarkScenario.dead_studio (silent 0) /\
  fs (snd (run BarkScenario.dead_studio BarkScenario.w0)) = fs BarkScenario.w0 /\
  wav_writes (log (snd (run BarkScenario.dead_studio BarkScenario.w0)))
    = wav_writes (log BarkScenario.w0).
Proof.
  apply (run_ends_with_empty_podcast_when_model_fails BarkScenario.dead_studio
           BarkScenario.w0).
  intros k t v. exists BarkScenario.out_of_memory. reflexivity.
Defined.

(** *** When the listener says nothing *)

(** X18: the listener says nothing when the line has no pause, when the
    variate drawn exceeds the acknowledgment probability 0.8, or when no
    pause is suitable: the line is returned as it is. No variate is drawn
    in the first case and exactly one in the others, and nothing else
    changes. *)
Theorem listener_silent_without_pause_or_luck (E : Env) (main_audio : AudioSegment)
  (main_speaker : string) (filler_clips : registry) (w : World) :
  let pauses := find_conversation_pauses E main_audio in
  let u := (rand E (rand_n w) - inject_Z (Qfloor (rand E (rand_n w))))%Q in
  pauses = [] \/
  (ACKNOWLEDGMENT_PROBABILITY < u)%Q \/
  suitable_pauses_of main_audio pauses = [] ->
  add_listener_responses E main_audio main_speaker filler_clips w
  = (Ok main_audio, advance (if is_nil pauses then 0 else 1) w).
Proof.
  intros pauses u Hcase.
  unfold add_listener_responses, select_pause_and_filler.
  fold pauses. unfold bind at 1. unfold bind at 1.
  destruct (is_nil pauses) eqn:Hnil.
  { unfold ret. cbn iota beta. now rewrite advance_0. }
  destruct Hcase as [Hp | Hcase]; [rewrite Hp in Hnil; discriminate|].
  unfold bind at 1.
  destruct (random_advance E w) as (u' & _ & _ & Hu & ->). fold u in Hu. subst u'.
  unfold ret at 1. cbn iota beta.
  destruct (Qltb ACKNOWLEDGMENT_PROBABILITY u) eqn:Hq; [reflexivity|].
  destruct Hcase as [Hlt | Hs].
  - apply Qltb_lt in Hlt. congruence.
  - rewrite Hs. reflexivity.
Qed.

Lemma listener_silent_without_pause_or_luck_witness :
  add_listener_responses BarkScenario.studio (repeat 5 10) "sandip"
    BarkScenario.aha_clips BarkScenario.aha_disk
  = (Ok (repeat 5 10), advance 0 BarkScenario.aha_disk).
Proof.
  apply (listener_silent_without_pause_or_luck BarkScenario.studio (repeat 5 10)
           "sandip" BarkScenario.aha_clips BarkScenario.aha_disk).
  left. reflexivity.
Defined.

(** X19: when the registry holds no acknowledgment of the other speaker
    (an empty registry, say), the line is returned as it is, nothing is
    logged and no file is touched, as long as the weights of the pauses
    are positive. *)
Theorem listener_silent_without_acknowledgment (E : Env) (main_audio : AudioSegment)
  (main_speaker : string) (filler_clips : registry) (w : World) :
  (forall x, 0 < x -> (0 < pow15 E x)%Q) ->
  available_fillers_of (other_speaker_of main_speaker) filler_clips = [] ->
  fst (add_listener_responses E main_audio main_speaker filler_clips w) = Ok main_audio /\
  log (snd (add_listener_responses E main_audio main_speaker filler_clips w)) = log w /\
  fs (snd (add_listener_responses E main_audio main_speaker filler_clips w)) = fs w.
Proof.
  intros Hpos Hnone.
  assert (Hsel : exists w',
             select_pause_and_filler E main_audio main_speaker filler_clips w
             = (Ok None, w') /\ log w' = log w /\ fs w' = fs w).
  { destruct (select_total E main_audio main_speaker filler_clips w Hpos)
      as (o & w' & Hs).
    destruct o as [[[pause path] dur]|].
    - apply select_member in Hs as (_ & Hin & _). rewrite Hnone in Hin. destruct Hin.
    - exists w'. split; [exact Hs|].
      apply select_advances in Hs as (n & _ & -> & _). split; reflexivity. }
  destruct Hsel as (w' & Hs & Hl & Hf).
  unfold add_listener_responses, bind. rewrite Hs. unfold ret. now repeat split.
Qed.

Lemma listener_silent_without_acknowledgment_witness :
  fst (add_listener_responses BarkScenario.studio BarkScenario.one_second "sandip"
         [] BarkScenario.aha_disk) = Ok BarkScenario.one_second /\
  log (snd (add_listener_responses BarkScenario.studio BarkScenario.one_second
              "sandip" [] BarkScenario.aha_disk)) = log BarkScenario.aha_disk /\
  fs (snd (add_listener_responses BarkScenario.studio BarkScenario.one_second
             "sandip" [] BarkScenario.aha_disk)) = fs BarkScenario.aha_disk.
Proof.
  apply (listener_silent_without_acknowledgment BarkScenario.studio
           BarkScenario.one_second "sandip" [] BarkScenario.aha_disk).
  - exact studio_pow15_positive.
  - reflexivity.
Defined.

End BarkMore.
